(** * A shallow embedding of turbo's per-connection [Session]

    Source: [vendor/github.com/blackbeans/turbo/session/session.go].

    The session owns a TCP connection, a buffered reader and writer on top
    of it, two bounded channels of packets and a few flags.  Two loops run
    over it: [ReadPacket] frames the inbound byte stream into packets and
    [WritePacket] batches queued packets into one buffer and writes it out.

    The Go code is stateful, may panic, may park on a channel and contains
    unbounded [for] loops.  It is embedded here as functions in a small
    state monad over the [Session] record whose outcomes are a returned
    value, a panic, a parked goroutine or an exhausted loop budget.  The
    model is sequential: one call runs to completion before the next one
    starts. *)

From Stdlib Require Import String ZArith List Bool Lia.
Import ListNotations.
Local Open Scope string_scope.
Local Open Scope list_scope.
Local Open Scope Z_scope.

Set Implicit Arguments.

(** ** Bytes, errors, time *)

Definition byte := Byte.byte.
Definition bytes := list byte.

(** Go errors are compared by identity ([err != io.ErrShortWrite]), so the
    two sentinel values of package [io] are constructors of their own and
    an error made by [errors.New] is never equal to them, whatever its
    text. *)
Inductive error : Type :=
| ErrShortWrite
| EOF
| ErrNew (msg : string)
| ErrNet (msg : string)
| ErrCodec (msg : string).

Definition is_ErrShortWrite (e : error) : bool :=
  match e with ErrShortWrite => true | _ => false end.

(** [time.Time] as nanoseconds elapsed since the zero time (January 1 of
    year 1, UTC), [time.Duration] as a signed number of nanoseconds. *)
Definition Time := Z.
Definition Duration := Z.
Definition zero_time : Time := 0.

Definition time_Add (t : Time) (d : Duration) : Time := t + d.
Definition time_After (t u : Time) : bool := u <? t.

(** Two's complement wrap-around of the Go conversions and arithmetic the
    session performs on sized integers. *)
Definition wrap (w : Z) (x : Z) : Z :=
  (x + 2 ^ (w - 1)) mod 2 ^ w - 2 ^ (w - 1).
Definition wrap32 : Z -> Z := wrap 32.
Definition wrap64 : Z -> Z := wrap 64.
Arguments wrap : simpl never.
Arguments wrap32 : simpl never.
Arguments wrap64 : simpl never.

Definition int64_min : Z := - 2 ^ 63.
Definition int64_max : Z := 2 ^ 63 - 1.

(** ** Packets and the collaborators of the session *)

(** Modelled from the spec: [packet.PacketHeader] is declared in package
    [packet], outside the session file.  The session reads one field of
    it, [BodyLen] (an [int32]); the remaining header fields are kept as
    the bytes they were decoded from. *)
Record PacketHeader : Type := mkHeader {
  BodyLen : Z;
  HeaderRest : bytes
}.

(** Modelled from the spec: [packet.Packet] is declared in package
    [packet].  The session builds it from a header and a body and hands
    it to the codec; the payload the codec attaches is opaque to it. *)
Record Packet : Type := mkPacket {
  Header : PacketHeader;
  Data : bytes;
  PayLoad : bytes
}.

(** A [*packet.Packet]: [None] is the nil pointer. *)
Definition PacketPtr := option Packet.

(** The constants and the header decoder of package [packet]. *)
Class PacketPkg : Type := {
  PACKET_HEAD_LEN : Z;
  MAX_PACKET_BYTES : Z;
  UnmarshalHeader : bytes -> PacketHeader * option error
}.

(** [codec.ICodec], the frame codec bound to a session.  A nil byte slice
    and an empty one are both the empty list. *)
Class ICodec : Type := {
  UnmarshalPacket : Packet -> PacketPtr * option error;
  MarshalPacket : Packet -> bytes * option error
}.

(** ** Channels *)

(** A buffered Go channel of packet pointers, seen by one goroutine at a
    time: the queued elements, the capacity given to [make] and whether
    [close] was called. *)
Record Chan : Type := mkChan {
  buf : list PacketPtr;
  cap : Z;
  chan_closed : bool
}.

Definition chan_len (c : Chan) : Z := Z.of_nat (length (buf c)).

Inductive SendRes : Type :=
| Sent (c : Chan)
| SendFull
| SendOnClosed.

(** [c <- p]: a send on a closed channel panics, a send on a channel with
    room appends, otherwise the sender cannot proceed. *)
Definition chan_send (c : Chan) (p : PacketPtr) : SendRes :=
  if chan_closed c then SendOnClosed
  else if chan_len c <? cap c
       then Sent (mkChan (buf c ++ [p]) (cap c) (chan_closed c))
       else SendFull.

Inductive RecvRes : Type :=
| Got (p : PacketPtr) (ok : bool) (c : Chan)
| RecvEmpty.

(** [p, ok := <-c]: the oldest element if there is one; on a drained and
    closed channel the zero value with [ok = false]. *)
Definition chan_recv (c : Chan) : RecvRes :=
  match buf c with
  | p :: rest => Got p true (mkChan rest (cap c) (chan_closed c))
  | [] => if chan_closed c then Got None false c else RecvEmpty
  end.

(** [close(c)]: [None] stands for the panic on an already closed channel. *)
Definition chan_close (c : Chan) : option Chan :=
  if chan_closed c then None else Some (mkChan (buf c) (cap c) true).

(** [make(chan *packet.Packet, size)]: [None] stands for the panic on a
    negative size. *)
Definition make_chan (size : Z) : option Chan :=
  if size <? 0 then None else Some (mkChan [] size false).

(** ** The TCP connection *)

(** What one call of the buffered reader's [Read] will deliver: some bytes
    (possibly fewer than asked for) or an error.  When the script is used
    up the peer has closed its side and [Read] reports [io.EOF]. *)
Inductive REvent : Type :=
| RData (bs : bytes)
| RErr (e : error).

(** How the connection answers one call of [Write]: it takes everything,
    it takes at most [k] bytes and reports no error, or it takes at most
    [k] bytes and reports [e].  When the script is used up every write is
    taken whole. *)
Inductive WOutcome : Type :=
| WAll
| WShort (k : nat)
| WFail (k : nat) (e : error).

Inductive SockOpt : Type :=
| SoKeepAlive (b : bool)
| SoKeepAlivePeriod (d : Duration)
| SoNoDelay (b : bool)
| SoReadBuffer (n : Z)
| SoWriteBuffer (n : Z).

Record TCPConn : Type := mkConn {
  raddr : string;
  inbound : list REvent;
  wire : bytes;
  wscript : list WOutcome;
  conn_closed : bool;
  sockopts : list SockOpt
}.

Definition closed_conn_error : error :=
  ErrNet "use of closed network connection".

Definition conn_set_out (c : TCPConn) (w : bytes) (sc : list WOutcome) : TCPConn :=
  mkConn (raddr c) (inbound c) w sc (conn_closed c) (sockopts c).

Definition conn_set_inbound (c : TCPConn) (i : list REvent) : TCPConn :=
  mkConn (raddr c) i (wire c) (wscript c) (conn_closed c) (sockopts c).

Definition conn_setsockopt (c : TCPConn) (o : SockOpt) : TCPConn :=
  mkConn (raddr c) (inbound c) (wire c) (wscript c) (conn_closed c)
         (sockopts c ++ [o]).

(** [conn.Write(p)]: the number of bytes that reached the wire and the
    error reported. *)
Definition conn_Write (c : TCPConn) (p : bytes) : (nat * option error) * TCPConn :=
  if conn_closed c then ((0%nat, Some closed_conn_error), c)
  else match wscript c with
       | [] => ((length p, None), conn_set_out c (wire c ++ p) [])
       | WAll :: sc => ((length p, None), conn_set_out c (wire c ++ p) sc)
       | WShort k :: sc =>
           let n := Nat.min k (length p) in
           ((n, None), conn_set_out c (wire c ++ firstn n p) sc)
       | WFail k e :: sc =>
           let n := Nat.min k (length p) in
           ((n, Some e), conn_set_out c (wire c ++ firstn n p) sc)
       end.

(** [conn.Close()]. *)
Definition conn_Close (c : TCPConn) : option error * TCPConn :=
  if conn_closed c then (Some closed_conn_error, c)
  else (None, mkConn (raddr c) (inbound c) (wire c) (wscript c) true (sockopts c)).

(** ** [bufio.Writer] *)

(** The buffered writer of Go's standard library: the bytes accepted but
    not yet handed to the connection, the size of the buffer and the
    sticky error. *)
Record Writer : Type := mkWriter {
  wbuf : bytes;
  wsize : nat;
  werr : option error
}.

Definition defaultBufSize : nat := 4096.

(** [bufio.NewWriterSize(conn, size)]. *)
Definition NewWriterSize (size : Z) : Writer :=
  mkWriter [] (if size <=? 0 then defaultBufSize else Z.to_nat size) None.

Definition Available (b : Writer) : nat := (wsize b - length (wbuf b))%nat.

(** [b.Flush()]: hands the buffer to the connection; a write that takes
    less than the buffer without an error becomes [io.ErrShortWrite]; on
    an error the unwritten tail stays buffered and the error sticks. *)
Definition Flush (b : Writer) (c : TCPConn) : option error * Writer * TCPConn :=
  match werr b with
  | Some e => (Some e, b, c)
  | None =>
      match wbuf b with
      | [] => (None, b, c)
      | _ :: _ =>
          let '((n, err), c') := conn_Write c (wbuf b) in
          let err := match err with
                     | None => if (n <? length (wbuf b))%nat
                               then Some ErrShortWrite else None
                     | Some e => Some e
                     end in
          match err with
          | Some e => (Some e, mkWriter (skipn n (wbuf b)) (wsize b) (Some e), c')
          | None => (None, mkWriter [] (wsize b) None, c')
          end
      end
  end.

(** [b.Write(p)].  The Go loop
    [for len(p) > b.Available() && b.err == nil] runs on a budget; [None]
    is returned when the budget is used up. *)
Fixpoint bufio_Write (fuel : nat) (b : Writer) (c : TCPConn) (p : bytes) (nn : nat)
  : option ((nat * option error) * Writer * TCPConn) :=
  if (Available b <? length p)%nat && match werr b with None => true | Some _ => false end
  then
    match fuel with
    | O => None
    | S fuel' =>
        match wbuf b with
        | [] =>
            (* large write, empty buffer: write directly from p *)
            let '((n, e), c') := conn_Write c p in
            bufio_Write fuel' (mkWriter [] (wsize b) e) c' (skipn n p) (nn + n)%nat
        | _ :: _ =>
            let n := Nat.min (Available b) (length p) in
            let b1 := mkWriter (wbuf b ++ firstn n p) (wsize b) (werr b) in
            let '(_, b2, c') := Flush b1 c in
            bufio_Write fuel' b2 c' (skipn n p) (nn + n)%nat
        end
    end
  else
    match werr b with
    | Some e => Some ((nn, Some e), b, c)
    | None =>
        Some (((nn + length p)%nat, None),
              mkWriter (wbuf b ++ p) (wsize b) None, c)
    end.

(** [b.Reset(w)]: drops what is buffered and clears the error. *)
Definition Reset (b : Writer) : Writer := mkWriter [] (wsize b) None.

(** ** [bufio.Reader] *)

(** The session only ever calls [Read] on its buffered reader, so the
    reader is modelled at that interface: its answers are the events of
    the connection's inbound script. *)
Record Reader : Type := mkReader { rsize : nat }.

Definition minReadBufferSize : nat := 16.

(** [bufio.NewReaderSize(conn, size)]. *)
Definition NewReaderSize (size : Z) : Reader :=
  mkReader (if size <? Z.of_nat minReadBufferSize
            then minReadBufferSize else Z.to_nat size).

(** [br.Read(p)] with [len(p) = m]: the bytes copied into [p] and the
    error.  A read into an empty slice returns at once. *)
Definition reader_Read (c : TCPConn) (m : nat) : (bytes * option error) * TCPConn :=
  match m with
  | O => (([], None), c)
  | S _ =>
      if conn_closed c then (([], Some closed_conn_error), c)
      else match inbound c with
           | [] => (([], Some EOF), c)
           | RErr e :: evs => (([], Some e), conn_set_inbound c evs)
           | RData bs :: evs =>
               if (length bs <=? m)%nat
               then ((bs, None), conn_set_inbound c evs)
               else ((firstn m bs, None),
                     conn_set_inbound c (RData (skipn m bs) :: evs))
           end
  end.

(** ** Flow statistics and configuration *)

(** Modelled from the spec: [turbo.RemotingFlow] and its counters are
    declared in package [turbo]; the session only calls [Incr] on them. *)
Record RemotingFlow : Type := mkFlow {
  ReadFlow : Z;
  ReadBytesFlow : Z;
  WriteFlow : Z;
  WriteBytesFlow : Z;
  Connections : Z
}.

Inductive Counter : Type :=
| CReadFlow | CReadBytesFlow | CWriteFlow | CWriteBytesFlow | CConnections.

Definition flow_Incr (f : RemotingFlow) (k : Counter) (d : Z) : RemotingFlow :=
  match k with
  | CReadFlow => mkFlow (ReadFlow f + d) (ReadBytesFlow f) (WriteFlow f) (WriteBytesFlow f) (Connections f)
  | CReadBytesFlow => mkFlow (ReadFlow f) (ReadBytesFlow f + d) (WriteFlow f) (WriteBytesFlow f) (Connections f)
  | CWriteFlow => mkFlow (ReadFlow f) (ReadBytesFlow f) (WriteFlow f + d) (WriteBytesFlow f) (Connections f)
  | CWriteBytesFlow => mkFlow (ReadFlow f) (ReadBytesFlow f) (WriteFlow f) (WriteBytesFlow f + d) (Connections f)
  | CConnections => mkFlow (ReadFlow f) (ReadBytesFlow f) (WriteFlow f) (WriteBytesFlow f) (Connections f + d)
  end.

(** Modelled from the spec: [turbo.RemotingConfig] is declared in package
    [turbo]; these are the fields the session reads.  [FlowStat] is a
    pointer: [None] is nil. *)
Record RemotingConfig : Type := mkConfig {
  IdleTime : Duration;
  ReadBufferSize : Z;
  WriteBufferSize : Z;
  ReadChannelSize : Z;
  WriteChannelSize : Z;
  FlowStat : option RemotingFlow
}.

Definition rc_set_FlowStat (r : RemotingConfig) (f : option RemotingFlow) : RemotingConfig :=
  mkConfig (IdleTime r) (ReadBufferSize r) (WriteBufferSize r)
           (ReadChannelSize r) (WriteChannelSize r) f.

(** ** The session *)

Inductive Level : Type := LDebug | LWarn | LError.
Inductive ChanId : Type := ReadCh | WriteCh.

(** The effects of a session that leave no mark on its fields are kept in
    a journal, oldest first. *)
Inductive Event : Type :=
| EvLog (lvl : Level) (fmt : string)
| EvFlush
| EvConnClose
| EvChanClose (ch : ChanId)
| EvIncr (k : Counter) (d : Z).

Record Session : Type := mkSession {
  conn : TCPConn;
  remoteAddr : string;
  br : Reader;
  bw : Writer;
  ReadChannel : Chan;
  WriteChannel : Chan;
  isClose : bool;
  lasttime : Time;
  rc : RemotingConfig;
  journal : list Event
}.

Definition set_conn (c : TCPConn) (s : Session) : Session :=
  mkSession c (remoteAddr s) (br s) (bw s) (ReadChannel s) (WriteChannel s)
            (isClose s) (lasttime s) (rc s) (journal s).
Definition set_bw (b : Writer) (s : Session) : Session :=
  mkSession (conn s) (remoteAddr s) (br s) b (ReadChannel s) (WriteChannel s)
            (isClose s) (lasttime s) (rc s) (journal s).
Definition set_ReadChannel (c : Chan) (s : Session) : Session :=
  mkSession (conn s) (remoteAddr s) (br s) (bw s) c (WriteChannel s)
            (isClose s) (lasttime s) (rc s) (journal s).
Definition set_WriteChannel (c : Chan) (s : Session) : Session :=
  mkSession (conn s) (remoteAddr s) (br s) (bw s) (ReadChannel s) c
            (isClose s) (lasttime s) (rc s) (journal s).
Definition set_isClose (b : bool) (s : Session) : Session :=
  mkSession (conn s) (remoteAddr s) (br s) (bw s) (ReadChannel s) (WriteChannel s)
            b (lasttime s) (rc s) (journal s).
Definition set_lasttime (t : Time) (s : Session) : Session :=
  mkSession (conn s) (remoteAddr s) (br s) (bw s) (ReadChannel s) (WriteChannel s)
            (isClose s) t (rc s) (journal s).
Definition set_rc (r : RemotingConfig) (s : Session) : Session :=
  mkSession (conn s) (remoteAddr s) (br s) (bw s) (ReadChannel s) (WriteChannel s)
            (isClose s) (lasttime s) r (journal s).
Definition record (e : Event) (s : Session) : Session :=
  mkSession (conn s) (remoteAddr s) (br s) (bw s) (ReadChannel s) (WriteChannel s)
            (isClose s) (lasttime s) (rc s) (journal s ++ [e]).

Definition get_chan (ch : ChanId) (s : Session) : Chan :=
  match ch with ReadCh => ReadChannel s | WriteCh => WriteChannel s end.
Definition set_chan (ch : ChanId) (c : Chan) (s : Session) : Session :=
  match ch with ReadCh => set_ReadChannel c s | WriteCh => set_WriteChannel c s end.

(** ** The monad of session methods *)

Inductive Outcome (A : Type) : Type :=
| Ret (a : A)
| Panic (msg : string)
| Parked
| Spin.
Arguments Ret {A} a.
Arguments Panic {A} msg.
Arguments Parked {A}.
Arguments Spin {A}.

Definition M (A : Type) : Type := Session -> Outcome A * Session.

Definition ret {A} (a : A) : M A := fun s => (Ret a, s).

Definition bind {A B} (m : M A) (k : A -> M B) : M B :=
  fun s =>
    match m s with
    | (Ret a, s') => k a s'
    | (Panic msg, s') => (Panic msg, s')
    | (Parked, s') => (Parked, s')
    | (Spin, s') => (Spin, s')
    end.

Declare Scope go_scope.
Delimit Scope go_scope with go.
Notation "x <- m ;; k" := (bind m (fun x => k))
  (at level 100, m at next level, right associativity) : go_scope.
Notation "m ;; k" := (bind m (fun _ => k))
  (at level 100, right associativity) : go_scope.
Local Open Scope go_scope.

Definition gets {A} (f : Session -> A) : M A := fun s => (Ret (f s), s).
Definition modify (f : Session -> Session) : M unit := fun s => (Ret tt, f s).
Definition panic {A} (msg : string) : M A := fun s => (Panic msg, s).
Definition park {A} : M A := fun s => (Parked, s).
Definition spin {A} : M A := fun s => (Spin, s).

(** The final state of a call, whatever its outcome. *)
Definition exec {A} (m : M A) (s : Session) : Session := snd (m s).

(** [defer func() { if err := recover(); nil != err { h err } }()] around
    a body whose results are unnamed: a panic of the body is handled by
    [h] and the function returns the zero value of its result type. *)
Definition recovering {A} (body : M A) (h : string -> M unit) (zero : A) : M A :=
  fun s =>
    match body s with
    | (Panic msg, s') => (h msg ;; ret zero) s'
    | r => r
    end.

Definition nil_deref : string :=
  "invalid memory address or nil pointer dereference".

(** ** Primitive effects on a session *)

Definition log (lvl : Level) (fmt : string) : M unit :=
  modify (record (EvLog lvl fmt)).

(** [self.rc.FlowStat.<k>.Incr(d)], which dereferences the pointer. *)
Definition Incr (k : Counter) (d : Z) : M unit :=
  fun s =>
    match FlowStat (rc s) with
    | None => (Panic nil_deref, s)
    | Some f =>
        (Ret tt, record (EvIncr k d)
                   (set_rc (rc_set_FlowStat (rc s) (Some (flow_Incr f k d))) s))
    end.

(** [nil != self.rc.FlowStat] *)
Definition has_FlowStat : M bool :=
  gets (fun s => match FlowStat (rc s) with Some _ => true | None => false end).

(** [self.bw.Flush()] *)
Definition bw_Flush : M (option error) :=
  fun s =>
    let '(e, b, c) := Flush (bw s) (conn s) in
    (Ret e, record EvFlush (set_conn c (set_bw b s))).

(** The budget of one [bw.Write]: each turn of its loop either uses up an
    answer of the connection's script or is one of the last two. *)
Definition write_budget (c : TCPConn) : nat := (length (wscript c) + 3)%nat.

(** [self.bw.Write(p)] *)
Definition bw_Write (p : bytes) : M (nat * option error) :=
  fun s =>
    match bufio_Write (write_budget (conn s)) (bw s) (conn s) p 0 with
    | None => (Spin, s)
    | Some (r, b, c) => (Ret r, set_conn c (set_bw b s))
    end.

(** [self.bw.Reset(self.conn)] *)
Definition bw_Reset : M unit :=
  modify (fun s => set_bw (Reset (bw s)) s).

(** [self.conn.Close()] *)
Definition conn_Close_ : M (option error) :=
  fun s =>
    let '(e, c) := conn_Close (conn s) in
    (Ret e, record EvConnClose (set_conn c s)).

(** [br.Read(buff[idx:])] where the slice has [m] bytes. *)
Definition br_Read (m : nat) : M (bytes * option error) :=
  fun s =>
    let '(r, c) := reader_Read (conn s) m in
    (Ret r, set_conn c s).

(** [close(ch)] *)
Definition close_chan (ch : ChanId) : M unit :=
  fun s =>
    match chan_close (get_chan ch s) with
    | None => (Panic "close of closed channel", s)
    | Some c => (Ret tt, record (EvChanClose ch) (set_chan ch c s))
    end.

(** [ch <- p], blocking. *)
Definition send (ch : ChanId) (p : PacketPtr) : M unit :=
  fun s =>
    match chan_send (get_chan ch s) p with
    | Sent c => (Ret tt, set_chan ch c s)
    | SendFull => (Parked, s)
    | SendOnClosed => (Panic "send on closed channel", s)
    end.

(** [select { case ch <- p: ...; default: ... }]: [true] when the send
    case ran. *)
Definition try_send (ch : ChanId) (p : PacketPtr) : M bool :=
  fun s =>
    match chan_send (get_chan ch s) p with
    | Sent c => (Ret true, set_chan ch c s)
    | SendFull => (Ret false, s)
    | SendOnClosed => (Panic "send on closed channel", s)
    end.

(** [p, ok := <-ch], blocking. *)
Definition recv (ch : ChanId) : M (PacketPtr * bool) :=
  fun s =>
    match chan_recv (get_chan ch s) with
    | Got p ok c => (Ret (p, ok), set_chan ch c s)
    | RecvEmpty => (Parked, s)
    end.

(** ** [NewSession], [Idle], [Closed], [Close], [Write] *)

(** [NewSession(conn, rc, frameCodec)].  The keep-alive period is
    [rc.IdleTime * 2] in 64-bit arithmetic. *)
Definition NewSession (c : TCPConn) (cfg : RemotingConfig) : Outcome Session :=
  let c := conn_setsockopt c (SoKeepAlive true) in
  let c := conn_setsockopt c (SoKeepAlivePeriod (wrap64 (IdleTime cfg * 2))) in
  let c := conn_setsockopt c (SoNoDelay true) in
  let c := conn_setsockopt c (SoReadBuffer (ReadBufferSize cfg)) in
  let c := conn_setsockopt c (SoWriteBuffer (WriteBufferSize cfg)) in
  match make_chan (ReadChannelSize cfg) with
  | None => Panic "makechan: size out of range"
  | Some rch =>
      match make_chan (WriteChannelSize cfg) with
      | None => Panic "makechan: size out of range"
      | Some wch =>
          let session :=
            mkSession c (raddr c)
                      (NewReaderSize (ReadBufferSize cfg))
                      (NewWriterSize (WriteBufferSize cfg))
                      rch wch false zero_time cfg [] in
          match Incr CConnections 1 session with
          | (Ret _, s) => Ret s
          | (Panic msg, _) => Panic msg
          | (Parked, _) => Parked
          | (Spin, _) => Spin
          end
      end
  end.

Definition RemotingAddr (s : Session) : string := remoteAddr s.

(** [Idle()]; [now] is the value of [time.Now()]. *)
Definition Idle (now : Time) (s : Session) : bool :=
  time_After now (time_Add (lasttime s) (IdleTime (rc s))).

Definition Closed (s : Session) : bool := isClose s.

(** [Close()] *)
Definition Close : M (option error) :=
  closed <- gets isClose ;;
  (if negb closed then
     modify (set_isClose true) ;;
     _ <- bw_Flush ;;
     _ <- conn_Close_ ;;
     close_chan WriteCh ;;
     close_chan ReadCh ;;
     Incr CConnections (-1) ;;
     log LDebug "Session|Close|%s..."
   else ret tt) ;;
  ret None.

Definition full_error (addr : string) : error :=
  ErrNew ("WRITE CHANNLE [" ++ addr ++ "] FULL")%string.
Definition closed_error (addr : string) : error :=
  ErrNew ("Session|[" ++ addr ++ "]|CLOSED")%string.

(** [Write(p)] *)
Definition Write (p : PacketPtr) : M (option error) :=
  recovering
    (closed <- gets isClose ;;
     addr <- gets remoteAddr ;;
     if negb closed then
       sent <- try_send WriteCh p ;;
       if sent then ret None else ret (Some (full_error addr))
     else ret (Some (closed_error addr)))
    (fun _ => log LError "Session|Write|%s|recover|FAIL|%s")
    None.

(** ** The read path: [read0] and [ReadPacket] *)

(** [copy(buff[idx:], chunk)] *)
Definition blit (buff : bytes) (idx : nat) (chunk : bytes) : bytes :=
  firstn idx buff ++ chunk ++ skipn (idx + length chunk) buff.

(** The [for] loop of [read0]; [len] is the requested count, [idx] the
    number of bytes collected so far. *)
Fixpoint read0_loop (fuel : nat) (len : nat) (buff : bytes) (idx : nat)
  : M (bytes * option error) :=
  match fuel with
  | O => spin
  | S fuel' =>
      r <- br_Read (len - idx) ;;
      let '(chunk, err) := r in
      match err with
      | Some e =>
          _ <- Close ;;
          log LError "Session|ReadPacket|%s|FAIL|CLOSE SESSION|%s" ;;
          ret ([], Some e)
      | None =>
          let buff := blit buff idx chunk in
          let idx := (idx + length chunk)%nat in
          if (len <=? idx)%nat then ret (buff, None)
          else read0_loop fuel' len buff idx
      end
  end.

(** Every turn of the loop of [read0] but the last uses up one event of
    the inbound script. *)
Definition read_budget (c : TCPConn) : nat := S (length (inbound c)).

(** [read0(br, len)]; [make([]byte, len)] panics on a negative [len]. *)
Definition read0 (len : Z) : M (bytes * option error) :=
  if len <? 0 then panic "makeslice: len out of range"
  else
    budget <- gets (fun s => read_budget (conn s)) ;;
    read0_loop budget (Z.to_nat len) (repeat Byte.x00 (Z.to_nat len)) 0.

Section Pipelines.

Context {pkt : PacketPkg} {frameCodec : ICodec}.

(** The function literal that [ReadPacket] runs on every turn, without its
    deferred [recover].  In the branch of a body that is too large the
    value returned is the variable [err] of the header decoding. *)
Definition ReadPacket_body : M (option error) :=
  r <- read0 PACKET_HEAD_LEN ;;
  let '(buff, err) := r in
  match err with
  | Some e => ret (Some e)
  | None =>
      let '(head, err) := UnmarshalHeader buff in
      match err with
      | Some e =>
          _ <- Close ;;
          log LError "Session|UnmarshalHeader|%s|FAIL|CLOSE SESSION|%v" ;;
          ret (Some e)
      | None =>
          if MAX_PACKET_BYTES <? BodyLen head then
            log LError "Session|UnmarshalHeader|%s|Too Large Packet|CLOSE SESSION|%v" ;;
            ret err
          else
            r <- read0 (BodyLen head) ;;
            let '(body, err) := r in
            match err with
            | Some e =>
                log LError "Session|ReadBody|%s|FAIL|CLOSE SESSION|%v|bodyLen:%d" ;;
                ret (Some e)
            | None =>
                let p := mkPacket head body [] in
                let '(packetWithPayLoad, err) := UnmarshalPacket p in
                match err with
                | Some _ =>
                    log LWarn "Session|UnmarshalPacket|%s|FAIL|%v|bodyLen:%d" ;;
                    ret None
                | None =>
                    send ReadCh packetWithPayLoad ;;
                    present <- has_FlowStat ;;
                    (if present then
                       Incr CReadFlow 1 ;;
                       Incr CReadBytesFlow (wrap32 (PACKET_HEAD_LEN + BodyLen head))
                     else ret tt) ;;
                    ret None
                end
            end
      end
  end.

(** One turn of the loop of [ReadPacket]. *)
Definition ReadPacket_iter : M (option error) :=
  recovering ReadPacket_body
             (fun _ => log LError "Session|Read|%s|recover|FAIL|%s")
             None.

(** [ReadPacket()]: [for !self.isClose { err := func() error {...}();
    if nil != err { break } }]. *)
Fixpoint ReadPacket (fuel : nat) : M unit :=
  match fuel with
  | O => closed <- gets isClose ;; if closed then ret tt else spin
  | S fuel' =>
      closed <- gets isClose ;;
      if closed then ret tt
      else
        err <- ReadPacket_iter ;;
        match err with
        | Some _ => ret tt
        | None => ReadPacket fuel'
        end
  end.

(** ** The write path: [write0] and [WritePacket] *)

Definition is_Some {A} (o : option A) : bool :=
  match o with Some _ => true | None => false end.

(** The first loop of [write0]: the encodings of the packets of [tlv] are
    appended to [batch]; a packet whose encoding fails or is empty is
    logged and skipped. *)
Fixpoint encode_all (tlv : list Packet) (batch : bytes) : M bytes :=
  match tlv with
  | [] => ret batch
  | t :: rest =>
      let '(p, err) := MarshalPacket t in
      if is_Some err || (length p <=? 0)%nat then
        log LError "Session|write0|MarshalPacket|FAIL|EMPTY PACKET|%s" ;;
        encode_all rest batch
      else encode_all rest (batch ++ p)
  end.

(** The second loop of [write0]: [true] when the loop was left by [break],
    [false] when [write0] returned from inside it. *)
Fixpoint write0_loop (fuel : nat) (batch : bytes) (l : nat) (tmp : bytes) : M bool :=
  match fuel with
  | O => spin
  | S fuel' =>
      r <- bw_Write tmp ;;
      let '(length, err) := r in
      go_on <- match err with
               | Some e =>
                   log LError "Session|write0|conn|%s|FAIL|%s|%d/%d" ;;
                   if negb (is_ErrShortWrite e) then
                     _ <- Close ;; ret false
                   else
                     bw_Reset ;; ret true
               | None => ret true
               end ;;
      if go_on then
        let l := (l + length)%nat in
        if (l =? List.length batch)%nat then ret true
        else if (List.length batch <? l)%nat
             then panic "slice bounds out of range"
             else write0_loop fuel' batch l (skipn l batch)
      else ret false
  end.

(** [write0(tlv)] *)
Definition write0 (tlv : list Packet) : M unit :=
  batch <- encode_all tlv [] ;;
  if (length batch <=? 0)%nat then ret tt
  else
    budget <- gets (fun s => write_budget (conn s)) ;;
    finished <- write0_loop budget batch 0 batch ;;
    if finished then
      _ <- bw_Flush ;;
      present <- has_FlowStat ;;
      if present then
        Incr CWriteFlow (wrap32 (Z.of_nat (length tlv))) ;;
        Incr CWriteBytesFlow (wrap32 (Z.of_nat (length batch)))
      else ret tt
    else ret tt.

(** [if nil != p { packets = append(packets, p) }] *)
Definition append_packet (packets : list Packet) (p : PacketPtr) : list Packet :=
  match p with
  | Some t => packets ++ [t]
  | None => packets
  end.

(** [for i := 0; i < l; i++ { p := <-self.WriteChannel; ... }] *)
Fixpoint take_more (l : nat) (packets : list Packet) : M (list Packet) :=
  match l with
  | O => ret packets
  | S l' =>
      r <- recv WriteCh ;;
      take_more l' (append_packet packets (fst r))
  end.

(** One turn of the first loop of [WritePacket]; [now] is what
    [time.Now()] returns in it and [packets] is the slice that lives
    across the turns. *)
Definition WritePacket_iter (now : Time) (packets : list Packet) : M (list Packet) :=
  r <- recv WriteCh ;;
  let packets := append_packet packets (fst r) in
  n <- gets (fun s => chan_len (WriteChannel s)) ;;
  let l := Z.min n 100 in
  packets <- take_more (Z.to_nat l) packets ;;
  if (0 <? length packets)%nat then
    write0 packets ;;
    modify (set_lasttime now) ;;
    ret []
  else ret packets.

(** The last loop of [WritePacket], which runs until the channel is seen
    closed; each turn takes one element off the channel. *)
Fixpoint discard_left (fuel : nat) : M unit :=
  match fuel with
  | O => spin
  | S fuel' =>
      r <- recv WriteCh ;;
      if snd r then discard_left fuel' else ret tt
  end.

Fixpoint WritePacket_loop (clock : list Time) (packets : list Packet) : M unit :=
  match clock with
  | [] => closed <- gets isClose ;; if closed then ret tt else spin
  | now :: clock' =>
      closed <- gets isClose ;;
      if closed then ret tt
      else
        packets' <- WritePacket_iter now packets ;;
        WritePacket_loop clock' packets'
  end.

(** [WritePacket()]; [clock] holds the successive values of [time.Now()],
    one for each turn of the first loop. *)
Definition WritePacket (clock : list Time) : M unit :=
  WritePacket_loop clock [] ;;
  left <- gets (fun s => length (buf (WriteChannel s))) ;;
  discard_left (S left).

End Pipelines.

(** ** A small packet layout and codec to run the model on *)

Module Fixture.

(** A header of two bytes, a kind and the length of the body; bodies of
    at most four bytes. *)
Definition byte_val (b : byte) : Z := Z.of_N (Byte.to_N b).

Definition unmarshal_header (bs : bytes) : PacketHeader * option error :=
  match bs with
  | [k; n] => (mkHeader (byte_val n) [k], None)
  | _ => (mkHeader 0 [], Some (ErrCodec "short header"))
  end.

#[export] Instance packet_pkg : PacketPkg := {
  PACKET_HEAD_LEN := 2;
  MAX_PACKET_BYTES := 4;
  UnmarshalHeader := unmarshal_header
}.

Definition len_byte (n : nat) : byte :=
  match Byte.of_N (N.of_nat n) with Some b => b | None => Byte.xff end.

(** The codec rejects a body that starts with [0xff] and encodes a
    packet as its header bytes followed by its body; a packet without a
    body encodes to nothing. *)
Definition unmarshal_packet (p : Packet) : PacketPtr * option error :=
  match Data p with
  | Byte.xff :: _ => (None, Some (ErrCodec "bad body"))
  | d => (Some (mkPacket (Header p) d d), None)
  end.

Definition marshal_packet (p : Packet) : bytes * option error :=
  match Data p with
  | [] => ([], None)
  | Byte.xff :: _ => ([], Some (ErrCodec "bad body"))
  | d => (HeaderRest (Header p) ++ [len_byte (length d)] ++ d, None)
  end.

#[export] Instance codec : ICodec := {
  UnmarshalPacket := unmarshal_packet;
  MarshalPacket := marshal_packet
}.

Definition flow0 : RemotingFlow := mkFlow 0 0 0 0 0.

(** A configuration with an idle threshold of one second, queues of
    [qsize] packets and an eight-byte write buffer. *)
Definition config_of (qsize : Z) (sink : option RemotingFlow) : RemotingConfig :=
  mkConfig 1000000000 16 8 qsize qsize sink.

Definition config : option RemotingFlow -> RemotingConfig := config_of 2.

Definition peer (input : list REvent) (answers : list WOutcome) : TCPConn :=
  mkConn "10.0.0.7:13800" input [] answers false [].

(** The session [NewSession] builds for [peer input answers] and a
    configuration with a sink. *)
Definition session_of (qsize : Z) (input : list REvent) (answers : list WOutcome)
  : Session :=
  match NewSession (peer input answers) (config_of qsize (Some flow0)) with
  | Ret s => s
  | _ => mkSession (peer input answers) "" (mkReader 0) (mkWriter [] 0 None)
                   (mkChan [] 0 true) (mkChan [] 0 true) true 0
                   (config None) []
  end.

Definition session : list REvent -> list WOutcome -> Session := session_of 2.

Definition packet (kind : byte) (body : bytes) : Packet :=
  mkPacket (mkHeader (Z.of_nat (length body)) [kind]) body [].

Definition queue (ps : list PacketPtr) (s : Session) : Session :=
  set_WriteChannel (mkChan ps (cap (WriteChannel s)) (chan_closed (WriteChannel s))) s.

End Fixture.

(** ** A second packet layout, with a signed length and a checked kind *)

Module StrictFixture.

(** A header of two bytes: a kind, which must not be zero, and the length
    of the body as a signed byte. *)
Definition signed_val (b : byte) : Z :=
  let v := Z.of_N (Byte.to_N b) in if v <? 128 then v else v - 256.

Definition unmarshal_header (bs : bytes) : PacketHeader * option error :=
  match bs with
  | [Byte.x00; _] => (mkHeader 0 [], Some (ErrCodec "bad kind"))
  | [k; n] => (mkHeader (signed_val n) [k], None)
  | _ => (mkHeader 0 [], Some (ErrCodec "short header"))
  end.

#[export] Instance packet_pkg : PacketPkg := {
  PACKET_HEAD_LEN := 2;
  MAX_PACKET_BYTES := 4;
  UnmarshalHeader := unmarshal_header
}.

End StrictFixture.

(** ** States a session can be in *)

(** What holds of every session from [NewSession] on, as long as calls do
    not overlap: the statistics sink is there, and the channels of an open
    session are open. *)
Definition session_ok (s : Session) : Prop :=
  FlowStat (rc s) <> None /\
  (isClose s = false ->
   chan_closed (WriteChannel s) = false /\ chan_closed (ReadChannel s) = false).

(** The teardown of [Close], as journal entries. *)
Definition teardown : list Event :=
  [EvFlush; EvConnClose; EvChanClose WriteCh; EvChanClose ReadCh;
   EvIncr CConnections (-1); EvLog LDebug "Session|Close|%s..."].

(** The state after [n] successive calls of [Close]. *)
Fixpoint Close_times (n : nat) (s : Session) : Session :=
  match n with
  | O => s
  | S n' => Close_times n' (exec Close s)
  end.

Definition connections (s : Session) : option Z :=
  option_map Connections (FlowStat (rc s)).

(** 1970-01-01 00:00:00 UTC in nanoseconds since the zero time. *)
Definition unix_epoch : Time := 62135596800 * 1000000000.

(** What the inbound script holds for a reader that wants [n] bytes: the
    error it meets before [n] bytes have come in, the bytes it collects
    and the script that is left. *)
Fixpoint first_error (evs : list REvent) (n : nat) : option error :=
  match evs with
  | [] => if (n =? 0)%nat then None else Some EOF
  | RErr e :: _ => if (n =? 0)%nat then None else Some e
  | RData bs :: evs' =>
      if (n <=? length bs)%nat then None
      else first_error evs' (n - length bs)
  end.

Fixpoint stream_take (evs : list REvent) (n : nat) : bytes :=
  match evs with
  | [] => []
  | RErr _ :: _ => []
  | RData bs :: evs' =>
      if (n <=? length bs)%nat then firstn n bs
      else bs ++ stream_take evs' (n - length bs)
  end.

Fixpoint stream_drop (evs : list REvent) (n : nat) : list REvent :=
  match evs with
  | [] => []
  | RErr _ :: evs' => if (n =? 0)%nat then evs else evs'
  | RData bs :: evs' =>
      if (n =? 0)%nat then evs
      else if (length bs <=? n)%nat then stream_drop evs' (n - length bs)
           else RData (skipn n bs) :: evs'
  end.

(** The error a request of [n] bytes runs into on connection [c]. *)
Definition read_error (c : TCPConn) (n : nat) : option error :=
  if (n =? 0)%nat then None
  else if conn_closed c then Some closed_conn_error
       else first_error (inbound c) n.

(** The session with [n] bytes taken off its inbound stream. *)
Definition advance (n : nat) (s : Session) : Session :=
  set_conn (conn_set_inbound (conn s) (stream_drop (inbound (conn s)) n)) s.

(** What [read0] does once [br.Read] has reported an error [e]. *)
Definition fail_read (e : error) : M (bytes * option error) :=
  _ <- Close ;;
  log LError "Session|ReadPacket|%s|FAIL|CLOSE SESSION|%s" ;;
  ret ([], Some e).

(** ** What a batch should put on the wire *)

(** A connection that takes every write whole, and a buffered writer that
    holds nothing back. *)
Definition conn_healthy (c : TCPConn) : Prop :=
  conn_closed c = false /\ Forall (fun o => o = WAll) (wscript c).

Definition writer_clean (b : Writer) : Prop :=
  wbuf b = [] /\ werr b = None /\ (0 < wsize b)%nat.

(** The connection after it has taken [p] whole. *)
Definition conn_accept (c : TCPConn) (p : bytes) : TCPConn :=
  conn_set_out c (wire c ++ p) (tl (wscript c)).

Definition record_all (evs : list Event) (s : Session) : Session :=
  mkSession (conn s) (remoteAddr s) (br s) (bw s) (ReadChannel s) (WriteChannel s)
            (isClose s) (lasttime s) (rc s) (journal s ++ evs).

(** The packets behind a list of pointers: nil pointers are skipped. *)
Definition nonnil (ps : list PacketPtr) : list Packet :=
  flat_map (fun p => match p with Some t => [t] | None => [] end) ps.

(** The largest number of packets one turn of the write loop takes off
    the queue: the one it waits for and up to a hundred more. *)
Definition max_batch : nat := 101.

Section BatchSpec.

Context {frameCodec : ICodec}.

(** The encoding of a packet, and whether the packet has one: the codec
    reports no error and the encoding is not empty. *)
Definition encoding (t : Packet) : bytes := fst (MarshalPacket t).

Definition encodable (t : Packet) : bool :=
  negb (is_Some (snd (MarshalPacket t)) || (length (encoding t) <=? 0)%nat).

(** The encodings of the packets that have one, in the order of the
    packets, one after the other. *)
Definition wire_bytes (tlv : list Packet) : bytes :=
  concat (map encoding (filter encodable tlv)).

Definition drop_logs (tlv : list Packet) : list Event :=
  map (fun _ => EvLog LError "Session|write0|MarshalPacket|FAIL|EMPTY PACKET|%s")
      (filter (fun t => negb (encodable t)) tlv).

(** The state [write0] leaves behind when the batch went out whole. *)
Definition batch_sent (tlv : list Packet) (s : Session) : Session :=
  let batch := wire_bytes tlv in
  let s1 := record EvFlush
              (set_conn (conn_accept (conn s) batch)
                        (record_all (drop_logs tlv) s)) in
  match FlowStat (rc s) with
  | None => s1
  | Some f =>
      record_all
        [EvIncr CWriteFlow (wrap32 (Z.of_nat (length tlv)));
         EvIncr CWriteBytesFlow (wrap32 (Z.of_nat (length batch)))]
        (set_rc (rc_set_FlowStat (rc s)
                   (Some (flow_Incr
                            (flow_Incr f CWriteFlow (wrap32 (Z.of_nat (length tlv))))
                            CWriteBytesFlow (wrap32 (Z.of_nat (length batch))))))
                s1)
  end.

End BatchSpec.

(** The journal entry of a header whose [BodyLen] is over the maximum. *)
Definition too_large_error : Event :=
  EvLog LError "Session|UnmarshalHeader|%s|Too Large Packet|CLOSE SESSION|%v".

(** The journal entry of a packet the codec could not decode. *)
Definition decode_warning : Event :=
  EvLog LWarn "Session|UnmarshalPacket|%s|FAIL|%v|bodyLen:%d".


(** The configuration of a session without its counters. *)
Definition settings (s : Session) : RemotingConfig :=
  rc_set_FlowStat (rc s) None.

(** A method that leaves the settings of the session alone. *)
Definition keeps_settings {A} (m : M A) : Prop :=
  forall s, settings (snd (m s)) = settings s.

(** A method that takes regular states to regular states, whatever its
    outcome. *)
Definition keeps_ok {A} (m : M A) : Prop :=
  forall s, session_ok s -> session_ok (snd (m s)).

(** A call that comes back to its caller, by a return or by a panic. *)
Definition comes_back {A} (o : Outcome A) : Prop :=
  match o with
  | Ret _ | Panic _ => True
  | Parked | Spin => False
  end.

(** A bound on the turns the retry loop of [write0] can still take: every
    turn but the last uses up an answer of the connection or the sticky
    error of the writer. *)
Definition turns_left (s : Session) : nat :=
  (length (wscript (conn s)) +
   match werr (bw s) with Some _ => 1 | None => 0 end)%nat.

(** The journal entry of a panic recovered in a turn of the read loop. *)
Definition read_recovered : Event :=
  EvLog LError "Session|Read|%s|recover|FAIL|%s".

(** The bytes the inbound script delivers before its first error, whatever
    the chunks they come in. *)
Fixpoint data_prefix (evs : list REvent) : bytes :=
  match evs with
  | RData bs :: evs' => bs ++ data_prefix evs'
  | _ => []
  end.

(** ** Frames on the inbound stream *)

(** A packet as it travels: the bytes of its header, the header they
    decode to, its body and the pointer the codec makes of it. *)
Record Frame : Type := mkFrame {
  fr_header : bytes;
  fr_head : PacketHeader;
  fr_body : bytes;
  fr_packet : PacketPtr
}.

Definition frame_bytes (fr : Frame) : bytes := fr_header fr ++ fr_body fr.

Definition frames_bytes (frs : list Frame) : bytes := flat_map frame_bytes frs.

Section Frames.

Context {pkt : PacketPkg} {frameCodec : ICodec}.

(** A frame the read loop accepts: a header of the fixed length that
    decodes, a body of the announced length within the maximum, and a
    packet the codec decodes. *)
Definition frame_ok (fr : Frame) : Prop :=
  Z.of_nat (length (fr_header fr)) = PACKET_HEAD_LEN /\
  UnmarshalHeader (fr_header fr) = (fr_head fr, None) /\
  BodyLen (fr_head fr) = Z.of_nat (length (fr_body fr)) /\
  BodyLen (fr_head fr) <= MAX_PACKET_BYTES /\
  UnmarshalPacket (mkPacket (fr_head fr) (fr_body fr) []) = (fr_packet fr, None).

End Frames.

(** ** Calls from outside *)

(** A property of sessions that no field update of the methods disturbs,
    the update of the last-activity timestamp apart. *)
Definition stable (P : Session -> Prop) : Prop :=
  (forall c s, P s -> P (set_conn c s)) /\
  (forall b s, P s -> P (set_bw b s)) /\
  (forall c s, P s -> P (set_ReadChannel c s)) /\
  (forall c s, P s -> P (set_WriteChannel c s)) /\
  (forall b s, P s -> P (set_isClose b s)) /\
  (forall f s, P s -> P (set_rc (rc_set_FlowStat (rc s) f) s)) /\
  (forall e s, P s -> P (record e s)).

(** A method that keeps a property of sessions, whatever its outcome. *)
Definition preserves {A} (P : Session -> Prop) (m : M A) : Prop :=
  forall s, P s -> P (snd (m s)).

(** The last-activity timestamp and the settings, which decide [Idle]. *)
Definition idle_state (t : Time) (r : RemotingConfig) (s : Session) : Prop :=
  lasttime s = t /\ settings s = r.

(** What a closed session still is, its write queue apart. *)
Definition closed_as (s0 s : Session) : Prop :=
  isClose s = true /\ conn s = conn s0 /\ bw s = bw s0 /\ rc s = rc s0 /\
  lasttime s = lasttime s0 /\ ReadChannel s = ReadChannel s0 /\
  journal s = journal s0 /\
  cap (WriteChannel s) = cap (WriteChannel s0) /\
  chan_closed (WriteChannel s) = chan_closed (WriteChannel s0).

Section Calls.

Context {pkt : PacketPkg} {frameCodec : ICodec}.

(** The exported methods that change a session. *)
Inductive Call : Type :=
| CallWrite (p : PacketPtr)
| CallClose
| CallReadPacket (fuel : nat)
| CallWritePacket (clock : list Time).

(** The session after a call, whatever its outcome. *)
Definition run_call (c : Call) (s : Session) : Session :=
  match c with
  | CallWrite p => exec (Write p) s
  | CallClose => exec Close s
  | CallReadPacket fuel => exec (ReadPacket fuel) s
  | CallWritePacket clock => exec (WritePacket clock) s
  end.

Definition run_calls (cs : list Call) (s : Session) : Session :=
  fold_left (fun s c => run_call c s) cs s.

End Calls.

(** * Properties *)

(** Reduction of the projections of the records of the model, and of
    nothing else. *)
Ltac fields :=
  cbn [conn remoteAddr br bw ReadChannel WriteChannel isClose lasttime rc journal
       set_conn set_bw set_ReadChannel set_WriteChannel set_isClose set_lasttime
       set_rc record record_all get_chan set_chan
       IdleTime ReadBufferSize WriteBufferSize ReadChannelSize WriteChannelSize
       FlowStat rc_set_FlowStat
       raddr inbound wire wscript conn_closed sockopts
       conn_set_out conn_set_inbound conn_accept
       buf cap chan_closed wbuf wsize werr fst snd].

(** Two sessions with the same fields are the same session. *)
Lemma session_ext (s t : Session) :
  conn s = conn t -> remoteAddr s = remoteAddr t -> br s = br t ->
  bw s = bw t -> ReadChannel s = ReadChannel t ->
  WriteChannel s = WriteChannel t -> isClose s = isClose t ->
  lasttime s = lasttime t -> rc s = rc t -> journal s = journal t ->
  s = t.
Proof.
  destruct s, t. cbn [conn remoteAddr br bw ReadChannel WriteChannel isClose
                      lasttime rc journal].
  intros; subst; reflexivity.
Qed.

(** ** [Close] *)

Lemma Close_when_closed (s : Session) :
  isClose s = true -> Close s = (Ret None, s).
Proof.
  intros H. unfold Close, bind, gets, ret. rewrite H. reflexivity.
Qed.

Lemma Close_sets_flag (s : Session) : isClose (exec Close s) = true.
Proof.
  unfold exec, Close, bind, gets, modify, bw_Flush, conn_Close_, close_chan,
    Incr, log, ret.
  destruct (isClose s) eqn:E; simpl; [exact E|].
  destruct (Flush (bw s) (conn s)) as [[e b] c]; simpl.
  destruct (conn_Close c) as [e' c']; simpl.
  destruct (chan_close (WriteChannel s)); simpl; [|reflexivity].
  destruct (chan_close (ReadChannel s)); simpl; [|reflexivity].
  destruct (FlowStat (rc s)); reflexivity.
Qed.

Lemma Close_again (s : Session) : exec Close (exec Close s) = exec Close s.
Proof.
  unfold exec at 1. rewrite Close_when_closed by apply Close_sets_flag.
  reflexivity.
Qed.

Lemma Close_times_after_first (n : nat) (s : Session) :
  Close_times (S n) s = exec Close s.
Proof.
  simpl. induction n as [|n IH]; simpl; [reflexivity|].
  rewrite Close_again. exact IH.
Qed.

(** What the first [Close] of an open session does. *)
Lemma Close_open (s : Session) (f : RemotingFlow) :
  isClose s = false ->
  chan_closed (WriteChannel s) = false ->
  chan_closed (ReadChannel s) = false ->
  FlowStat (rc s) = Some f ->
  Close s =
  (Ret None,
   mkSession (snd (conn_Close (snd (Flush (bw s) (conn s)))))
             (remoteAddr s) (br s)
             (snd (fst (Flush (bw s) (conn s))))
             (mkChan (buf (ReadChannel s)) (cap (ReadChannel s)) true)
             (mkChan (buf (WriteChannel s)) (cap (WriteChannel s)) true)
             true (lasttime s)
             (rc_set_FlowStat (rc s) (Some (flow_Incr f CConnections (-1))))
             (journal s ++ teardown)).
Proof.
  intros Ho Hw Hr Hf.
  unfold Close, bind, gets, modify, bw_Flush, conn_Close_, close_chan,
    Incr, log, ret, chan_close.
  rewrite Ho. cbv beta iota. cbn [negb]. cbv beta iota. fields.
  destruct (Flush (bw s) (conn s)) as [[e b] c]. cbv beta iota. fields.
  destruct (conn_Close c) as [e' c']. cbv beta iota. fields.
  rewrite Hw. cbv beta iota. fields. rewrite Hr. cbv beta iota. fields.
  rewrite Hf. unfold modify. cbv beta iota.
  f_equal. apply session_ext; fields; try reflexivity.
  unfold teardown. rewrite <- !app_assoc. reflexivity.
Qed.

(** C2.  [Close] is idempotent.  After any number [n + 1] of calls the
    session is in the state the first call left it in, so a later call
    changes nothing.  On an open session with its channels open and a
    statistics sink, every one of these calls returns nil and together
    they run the teardown (flush, close of the connection, close of the
    write queue, close of the read queue, decrement of the connection
    counter, log line) exactly once: the journal grows by one teardown,
    the counter drops by exactly one and each queue ends up closed. *)
Theorem Close_idempotent (s : Session) (n : nat) :
  Close_times (S n) s = exec Close s /\
  (forall f,
     isClose s = false ->
     chan_closed (WriteChannel s) = false ->
     chan_closed (ReadChannel s) = false ->
     FlowStat (rc s) = Some f ->
     fst (Close s) = Ret None /\
     fst (Close (exec Close s)) = Ret None /\
     journal (Close_times (S n) s) = journal s ++ teardown /\
     connections (Close_times (S n) s) = Some (Connections f - 1) /\
     chan_closed (WriteChannel (Close_times (S n) s)) = true /\
     chan_closed (ReadChannel (Close_times (S n) s)) = true /\
     conn_closed (conn (Close_times (S n) s)) = true /\
     isClose (Close_times (S n) s) = true).
Proof.
  split; [apply Close_times_after_first|].
  intros f Ho Hw Hr Hf.
  rewrite Close_times_after_first.
  rewrite (Close_when_closed (exec Close s)) by apply Close_sets_flag.
  unfold exec. rewrite (Close_open s Ho Hw Hr Hf). simpl.
  repeat split.
  unfold conn_Close.
  destruct (conn_closed (snd (Flush (bw s) (conn s)))) eqn:E; simpl;
    [exact E|reflexivity].
Qed.

(** The state after three calls of [Close] on a fresh session. *)
Lemma Close_idempotent_witness :
  Close_times 3 (Fixture.session [] []) = exec Close (Fixture.session [] []) /\
  journal (Close_times 3 (Fixture.session [] [])) =
    journal (Fixture.session [] []) ++ teardown /\
  connections (Close_times 3 (Fixture.session [] [])) = Some 0.
Proof.
  pose proof (Close_idempotent (Fixture.session [] []) 2) as [H1 H2].
  specialize (H2 (mkFlow 0 0 0 0 1) eq_refl eq_refl eq_refl eq_refl).
  destruct H2 as (_ & _ & Hj & Hc & _).
  split; [exact H1|]. split; [exact Hj|exact Hc].
Defined.

(** ** [Write] *)

Lemma Write_returns (p : PacketPtr) (s : Session) :
  exists r s', Write p s = (Ret r, s').
Proof.
  unfold Write, recovering, bind, gets, try_send, log, modify, ret.
  destruct (isClose s); simpl; [eauto|].
  destruct (chan_send (WriteChannel s) p); simpl; eauto.
Qed.

Lemma full_closed_distinct (a b : string) : full_error a <> closed_error b.
Proof. unfold full_error, closed_error. simpl. discriminate. Qed.

(** C3.  [Write] never blocks: on every session it returns.  On a session
    whose write queue is open while the session is open, the result is
    fixed by the state: open with room in the queue, the packet goes to
    the back of the queue, nothing else changes and nil is returned; open
    with a full queue, the queue-full error is returned and the session is
    unchanged; closed, the closed error is returned and the session is
    unchanged.  The two errors differ, and a queue within its capacity
    stays within it. *)
Theorem Write_by_state (p : PacketPtr) (s : Session)
  (Hq : isClose s = false -> chan_closed (WriteChannel s) = false) :
  (exists r s', Write p s = (Ret r, s')) /\
  (isClose s = false ->
   chan_len (WriteChannel s) < cap (WriteChannel s) ->
   Write p s =
   (Ret None,
    set_WriteChannel (mkChan (buf (WriteChannel s) ++ [p])
                             (cap (WriteChannel s)) false) s)) /\
  (isClose s = false ->
   cap (WriteChannel s) <= chan_len (WriteChannel s) ->
   Write p s = (Ret (Some (full_error (remoteAddr s))), s)) /\
  (isClose s = true ->
   Write p s = (Ret (Some (closed_error (remoteAddr s))), s)) /\
  full_error (remoteAddr s) <> closed_error (remoteAddr s) /\
  (chan_len (WriteChannel s) <= cap (WriteChannel s) ->
   chan_len (WriteChannel (exec (Write p) s)) <= cap (WriteChannel s)).
Proof.
  split; [apply Write_returns|].
  assert (Hroom : isClose s = false ->
                  chan_len (WriteChannel s) < cap (WriteChannel s) ->
                  Write p s =
                  (Ret None,
                   set_WriteChannel (mkChan (buf (WriteChannel s) ++ [p])
                                            (cap (WriteChannel s)) false) s)).
  { intros Ho Hlt.
    unfold Write, recovering, bind, gets, try_send, ret, chan_send. simpl.
    rewrite Ho; simpl. rewrite (Hq Ho).
    apply Z.ltb_lt in Hlt. rewrite Hlt. reflexivity. }
  assert (Hfull : isClose s = false ->
                  cap (WriteChannel s) <= chan_len (WriteChannel s) ->
                  Write p s = (Ret (Some (full_error (remoteAddr s))), s)).
  { intros Ho Hge.
    unfold Write, recovering, bind, gets, try_send, ret, chan_send. simpl.
    rewrite Ho; simpl. rewrite (Hq Ho).
    apply Z.ltb_ge in Hge. rewrite Hge. reflexivity. }
  assert (Hclosed : isClose s = true ->
                    Write p s = (Ret (Some (closed_error (remoteAddr s))), s)).
  { intros Hc.
    unfold Write, recovering, bind, gets, ret. rewrite Hc. reflexivity. }
  repeat split; try assumption.
  - apply full_closed_distinct.
  - intros Hle. unfold exec.
    destruct (isClose s) eqn:Ho.
    + rewrite (Hclosed eq_refl). exact Hle.
    + destruct (Z.lt_ge_cases (chan_len (WriteChannel s)) (cap (WriteChannel s)))
        as [Hlt|Hge].
      * rewrite (Hroom eq_refl Hlt). simpl.
        unfold chan_len in *. simpl. rewrite length_app. simpl. lia.
      * rewrite (Hfull eq_refl Hge). exact Hle.
Qed.

(** Three packets offered to a fresh session whose queue holds two: the
    third is refused. *)
Lemma Write_by_state_witness :
  let s0 := Fixture.session [] [] in
  let a := Some (Fixture.packet Byte.x01 [Byte.x41]) in
  let s2 := exec (Write a) (exec (Write a) s0) in
  Write a s0 = (Ret None, Fixture.queue [a] s0) /\
  Write a s2 = (Ret (Some (full_error "10.0.0.7:13800")), s2) /\
  Write a (exec Close s2) =
    (Ret (Some (closed_error "10.0.0.7:13800")), exec Close s2).
Proof.
  intros s0 a s2.
  assert (H0 : isClose s0 = false -> chan_closed (WriteChannel s0) = false)
    by reflexivity.
  assert (H2 : isClose s2 = false -> chan_closed (WriteChannel s2) = false)
    by reflexivity.
  assert (H3 : isClose (exec Close s2) = false ->
               chan_closed (WriteChannel (exec Close s2)) = false)
    by (vm_compute; discriminate).
  destruct (Write_by_state a s0 H0) as (_ & Hroom & _).
  destruct (Write_by_state a s2 H2) as (_ & _ & Hfull & _).
  destruct (Write_by_state a (exec Close s2) H3) as (_ & _ & _ & Hclosed & _).
  split; [|split].
  - apply Hroom; [reflexivity|vm_compute; reflexivity].
  - apply Hfull; [reflexivity|vm_compute; discriminate].
  - apply Hclosed. reflexivity.
Defined.

(** ** [NewSession] and [Idle] *)

Lemma Idle_iff (now : Time) (s : Session) :
  Idle now s = true <-> lasttime s + IdleTime (rc s) < now.
Proof.
  unfold Idle, time_After, time_Add. apply Z.ltb_lt.
Qed.

Lemma NewSession_fields (c : TCPConn) (cfg : RemotingConfig) (s : Session) :
  NewSession c cfg = Ret s ->
  lasttime s = zero_time /\ IdleTime (rc s) = IdleTime cfg /\
  isClose s = false /\
  chan_closed (WriteChannel s) = false /\ chan_closed (ReadChannel s) = false /\
  buf (WriteChannel s) = [] /\ buf (ReadChannel s) = [] /\
  cap (WriteChannel s) = WriteChannelSize cfg /\
  cap (ReadChannel s) = ReadChannelSize cfg /\
  exists f, FlowStat cfg = Some f /\
            FlowStat (rc s) = Some (flow_Incr f CConnections 1).
Proof.
  unfold NewSession, make_chan, Incr.
  destruct (ReadChannelSize cfg <? 0); [discriminate|].
  destruct (WriteChannelSize cfg <? 0); [discriminate|].
  simpl. destruct (FlowStat cfg) as [f|] eqn:Hf; [|discriminate].
  intros H; inversion H; subst; clear H. simpl.
  repeat split. exists f. split; reflexivity.
Qed.

Lemma NewSession_ok (c : TCPConn) (cfg : RemotingConfig) (s : Session) :
  NewSession c cfg = Ret s -> session_ok s.
Proof.
  intros H. destruct (NewSession_fields _ _ H)
    as (_ & _ & _ & Hw & Hr & _ & _ & _ & _ & f & _ & Hf).
  split; [rewrite Hf; discriminate|]. intros _. split; assumption.
Qed.

(** C10.  A session as [NewSession] returns it has the zero time as its
    last-activity timestamp, so [Idle] answers true at once: for every
    idle threshold a 64-bit duration can hold and every clock reading
    from 1970 on. *)
Theorem fresh_session_is_idle
  (c : TCPConn) (cfg : RemotingConfig) (s : Session) (now : Time)
  (Hnew : NewSession c cfg = Ret s)
  (Hidle : int64_min <= IdleTime cfg <= int64_max)
  (Hnow : unix_epoch <= now) :
  lasttime s = zero_time /\ Idle now s = true.
Proof.
  destruct (NewSession_fields _ _ Hnew) as (Hl & Hi & _).
  split; [exact Hl|].
  apply Idle_iff. rewrite Hl, Hi.
  unfold zero_time, int64_max, unix_epoch in *. lia.
Qed.

Lemma fresh_session_is_idle_witness :
  lasttime (Fixture.session [] []) = zero_time /\
  Idle unix_epoch (Fixture.session [] []) = true.
Proof.
  apply (@fresh_session_is_idle (Fixture.peer [] [])
           (Fixture.config (Some Fixture.flow0))
           (Fixture.session [] []) unix_epoch).
  - reflexivity.
  - unfold int64_min, int64_max. simpl. lia.
  - unfold unix_epoch. lia.
Defined.

(** C9.  With no statistics sink configured [NewSession] panics on its
    unguarded [rc.FlowStat.Connections.Incr(1)], and [Close] on a session
    whose configuration has lost its sink panics on the unguarded
    decrement after it has closed both queues; the read and the write
    path test the pointer before they count. *)
Theorem nil_sink_panics :
  NewSession (Fixture.peer [] []) (Fixture.config None) = Panic nil_deref /\
  (let s := set_rc (Fixture.config None) (Fixture.session [] []) in
   fst (Close s) = Panic nil_deref /\
   chan_closed (WriteChannel (exec Close s)) = true /\
   chan_closed (ReadChannel (exec Close s)) = true).
Proof. vm_compute. repeat split. Qed.

(** ** [read0] *)

Lemma set_conn_same (s : Session) : set_conn (conn s) s = s.
Proof. destruct s; reflexivity. Qed.

Lemma conn_set_inbound_same (c : TCPConn) : conn_set_inbound c (inbound c) = c.
Proof. destruct c; reflexivity. Qed.

Lemma skipn_repeat_byte (x : byte) (k n : nat) :
  skipn n (repeat x k) = repeat x (k - n).
Proof.
  revert n; induction k as [|k IH]; intros [|n]; simpl; auto.
Qed.

Lemma blit_acc (acc chunk : bytes) (x : byte) (k : nat) :
  (length chunk <= k)%nat ->
  blit (acc ++ repeat x k) (length acc) chunk =
  (acc ++ chunk) ++ repeat x (k - length chunk).
Proof.
  intros Hk. unfold blit.
  rewrite firstn_app, firstn_all, Nat.sub_diag. simpl. rewrite app_nil_r.
  rewrite skipn_app, skipn_all2 by lia. simpl.
  rewrite skipn_repeat_byte.
  replace (length acc + length chunk - length acc)%nat with (length chunk) by lia.
  rewrite <- app_assoc. reflexivity.
Qed.

Lemma stream_take_length (evs : list REvent) (n : nat) :
  first_error evs n = None -> length (stream_take evs n) = n.
Proof.
  revert n; induction evs as [|[bs|e] evs IH]; intros n; simpl.
  - destruct (Nat.eqb_spec n 0); [subst; reflexivity|discriminate].
  - destruct (Nat.leb_spec n (length bs)) as [Hle|Hgt].
    + intros _. rewrite length_firstn. lia.
    + intros Hrest. rewrite length_app, (IH _ Hrest). lia.
  - destruct (Nat.eqb_spec n 0); [subst; reflexivity|discriminate].
Qed.

Lemma stream_drop_0 (evs : list REvent) : stream_drop evs 0 = evs.
Proof. destruct evs as [|[bs|e] evs]; reflexivity. Qed.

(** The loop of [read0] on an open connection, with [acc] collected and
    more to come. *)
Lemma read0_loop_spec (evs : list REvent) :
  forall (fuel len : nat) (acc : bytes) (s : Session),
    inbound (conn s) = evs ->
    conn_closed (conn s) = false ->
    (length evs < fuel)%nat ->
    (length acc < len)%nat ->
    read0_loop fuel len (acc ++ repeat Byte.x00 (len - length acc)) (length acc) s =
    match first_error evs (len - length acc) with
    | None =>
        (Ret (acc ++ stream_take evs (len - length acc), None),
         advance (len - length acc) s)
    | Some e => fail_read e (advance (len - length acc) s)
    end.
Proof.
  induction evs as [|[bs|e] evs IH]; intros fuel len acc s Hin Hopen Hfuel Hacc;
    (destruct fuel as [|fuel]; [simpl in Hfuel; lia|]);
    destruct (len - length acc)%nat as [|m] eqn:Hm; try lia;
    unfold advance; rewrite Hin;
    cbn [read0_loop first_error stream_take stream_drop Nat.eqb];
    unfold bind at 1, br_Read, reader_Read; rewrite Hm, Hopen, Hin.
  - (* the script is used up: EOF *)
    rewrite <- Hin, conn_set_inbound_same, set_conn_same. reflexivity.
  - (* a chunk of data *)
    destruct (Nat.leb_spec (length bs) (S m)) as [Hle|Hgt].
    + cbn [fst snd]. rewrite <- Hm.
      rewrite blit_acc by lia.
      destruct (Nat.leb_spec len (length acc + length bs)) as [Hdone|Hmore].
      * (* the chunk completes the request *)
        replace (len - length acc <=? length bs)%nat with true
          by (symmetry; apply Nat.leb_le; lia).
        replace (len - length acc - length bs)%nat with 0%nat by lia.
        replace (len - length acc)%nat with (length bs) by lia.
        rewrite firstn_all, stream_drop_0. simpl. rewrite app_nil_r.
        reflexivity.
      * (* more is needed *)
        replace (len - length acc <=? length bs)%nat with false
          by (symmetry; apply Nat.leb_gt; lia).
        pose (s1 := set_conn (conn_set_inbound (conn s) evs) s).
        specialize (IH fuel len (acc ++ bs) s1 eq_refl Hopen).
        rewrite length_app in IH.
        replace (len - length acc - length bs)%nat
          with (len - (length acc + length bs))%nat by lia.
        simpl in Hfuel. subst s1.
        etransitivity; [exact (IH ltac:(lia) ltac:(lia))|].
        unfold advance. simpl.
        rewrite <- app_assoc. reflexivity.
    + (* the chunk is larger than what is asked for *)
      replace (length bs <=? S m)%nat with false
        by (symmetry; apply Nat.leb_gt; lia).
      replace (S m <=? length bs)%nat with true
        by (symmetry; apply Nat.leb_le; lia).
      cbn [fst snd]. rewrite <- Hm.
      rewrite blit_acc by (rewrite length_firstn; lia).
      rewrite length_firstn.
      replace (length acc + Nat.min (len - length acc) (length bs))%nat
        with len by lia.
      rewrite Nat.leb_refl.
      replace (len - length acc - Nat.min (len - length acc) (length bs))%nat
        with 0%nat by lia.
      simpl. rewrite app_nil_r. reflexivity.
  - (* an error *)
    reflexivity.
Qed.

Lemma stream_take_0 (evs : list REvent) : stream_take evs 0 = [].
Proof. destruct evs as [|[bs|e] evs]; reflexivity. Qed.

Lemma advance_0 (s : Session) : advance 0 s = s.
Proof.
  unfold advance. rewrite stream_drop_0, conn_set_inbound_same.
  apply set_conn_same.
Qed.

(** [read0] in one equation: it hands out the next [N] bytes of the
    inbound stream, or runs [Close] and returns the error that came
    first. *)
Lemma read0_spec (N : Z) (s : Session) :
  0 <= N ->
  read0 N s =
  match read_error (conn s) (Z.to_nat N) with
  | None =>
      (Ret (stream_take (inbound (conn s)) (Z.to_nat N), None),
       advance (Z.to_nat N) s)
  | Some e =>
      fail_read e (if conn_closed (conn s) then s else advance (Z.to_nat N) s)
  end.
Proof.
  intros HN. unfold read0.
  replace (N <? 0) with false by (symmetry; apply Z.ltb_ge; lia).
  unfold bind at 1, gets, read_budget, read_error.
  destruct (Z.to_nat N) as [|n] eqn:Hn.
  - rewrite stream_take_0, advance_0. simpl.
    unfold bind, br_Read, reader_Read, ret. simpl.
    rewrite set_conn_same. reflexivity.
  - cbn [Nat.eqb].
    destruct (conn_closed (conn s)) eqn:Hc.
    + cbn [read0_loop]. unfold bind at 1, br_Read, reader_Read.
      cbn [Nat.sub]. rewrite Hc. rewrite set_conn_same. reflexivity.
    + exact (@read0_loop_spec (inbound (conn s)) (S (length (inbound (conn s))))
               (S n) [] s eq_refl Hc ltac:(lia) ltac:(simpl; lia)).
Qed.

Lemma Close_ok (s : Session) :
  session_ok s ->
  exists s', Close s = (Ret None, s') /\ isClose s' = true /\ session_ok s'.
Proof.
  intros [Hf Hch]. destruct (isClose s) eqn:Ho.
  - exists s. rewrite (Close_when_closed s Ho).
    split; [reflexivity|]. split; [exact Ho|].
    split; [exact Hf|intros Hx; congruence].
  - destruct (Hch eq_refl) as [Hw Hr].
    destruct (FlowStat (rc s)) as [f|] eqn:Ef; [|congruence].
    eexists. rewrite (Close_open s Ho Hw Hr Ef).
    split; [reflexivity|]. split; [reflexivity|].
    split; simpl; [discriminate|intros Hx; discriminate].
Qed.

Lemma fail_read_ok (e : error) (s : Session) :
  session_ok s ->
  exists s', fail_read e s = (Ret ([], Some e), s') /\
             isClose s' = true /\ session_ok s'.
Proof.
  intros Hok. destruct (Close_ok Hok) as (s' & Hc & Hcl & Hok').
  unfold fail_read, bind. rewrite Hc. unfold log, modify, ret. simpl.
  eexists. split; [reflexivity|]. split; [exact Hcl|].
  destruct Hok' as [Hf Hch]. split; [exact Hf|].
  simpl. intros Hx. congruence.
Qed.

Lemma advance_ok (n : nat) (s : Session) : session_ok s -> session_ok (advance n s).
Proof. intros H; exact H. Qed.

(** C6.  For every byte count [N] that is not negative, [read0] on a
    session in a regular state returns either a buffer of exactly [N]
    bytes, the next [N] bytes of the inbound stream, and leaves the
    session as open or closed as it was, or no buffer and an error; it
    returns an error exactly when a read it needs fails, the error is the
    one of that read (end of stream included), and the session is then
    closed.  No other outcome exists. *)
Theorem read0_exact_or_error (N : Z) (s : Session)
  (HN : 0 <= N) (Hok : session_ok s) :
  match read0 N s with
  | (Ret (buff, None), s') =>
      length buff = Z.to_nat N /\
      buff = stream_take (inbound (conn s)) (Z.to_nat N) /\
      read_error (conn s) (Z.to_nat N) = None /\
      isClose s' = isClose s
  | (Ret (buff, Some e), s') =>
      buff = [] /\
      read_error (conn s) (Z.to_nat N) = Some e /\
      isClose s' = true
  | _ => False
  end.
Proof.
  rewrite (read0_spec s HN).
  destruct (read_error (conn s) (Z.to_nat N)) as [e|] eqn:He.
  - assert (Hok' : session_ok (if conn_closed (conn s) then s
                               else advance (Z.to_nat N) s))
      by (destruct (conn_closed (conn s)); assumption).
    destruct (fail_read_ok e Hok') as (s' & Hr & Hcl & _).
    rewrite Hr. auto.
  - repeat split.
    unfold read_error in He.
    destruct (Z.to_nat N) as [|n]; [rewrite stream_take_0; reflexivity|].
    cbn [Nat.eqb] in He.
    destruct (conn_closed (conn s)); [discriminate|].
    apply stream_take_length. exact He.
Qed.

(** Three bytes asked of a stream that delivers five in two chunks, and
    of one that ends after two. *)
Lemma read0_exact_or_error_witness :
  let a := Byte.x61 in
  let s1 := Fixture.session [RData [a; a]; RData [a; a; a]] [] in
  let s2 := Fixture.session [RData [a; a]] [] in
  fst (read0 3 s1) = Ret ([a; a; a], None) /\
  isClose (exec (read0 3) s1) = false /\
  fst (read0 3 s2) = Ret ([], Some EOF) /\
  isClose (exec (read0 3) s2) = true.
Proof.
  intros a s1 s2.
  assert (Hok1 : session_ok s1) by (split; [discriminate|intros _; split; reflexivity]).
  assert (Hok2 : session_ok s2) by (split; [discriminate|intros _; split; reflexivity]).
  pose proof (@read0_exact_or_error 3 s1 ltac:(lia) Hok1) as H1.
  pose proof (@read0_exact_or_error 3 s2 ltac:(lia) Hok2) as H2.
  unfold exec.
  destruct (read0 3 s1) as [[[buff [e|]]| | |] s1'] eqn:E1; try contradiction;
    [destruct H1 as (_ & He & _); vm_compute in He; discriminate|].
  destruct (read0 3 s2) as [[[buff2 [e2|]]| | |] s2'] eqn:E2; try contradiction;
    [|destruct H2 as (_ & _ & He & _); vm_compute in He; discriminate].
  destruct H1 as (_ & Hb & _ & Hc). destruct H2 as (Hb2 & He & Hc2).
  vm_compute in He. inversion He; subst e2.
  simpl. rewrite Hb, Hb2, Hc, Hc2. repeat split.
Defined.

Lemma fail_read_never_succeeds (e : error) (s s' : Session) (buff : bytes) :
  fail_read e s <> (Ret (buff, None), s').
Proof.
  unfold fail_read, bind, log, modify, ret.
  destruct (Close s) as [[r| | |] s1]; simpl; discriminate.
Qed.

(** A successful [read0] touches nothing but the inbound stream. *)
Lemma read0_success (N : Z) (s s' : Session) (buff : bytes) :
  read0 N s = (Ret (buff, None), s') ->
  0 <= N /\
  s' = advance (Z.to_nat N) s /\
  buff = stream_take (inbound (conn s)) (Z.to_nat N) /\
  length buff = Z.to_nat N.
Proof.
  intros H. destruct (Z.ltb_spec N 0) as [Hneg|HN].
  - unfold read0 in H. apply Z.ltb_lt in Hneg. rewrite Hneg in H. discriminate.
  - rewrite (read0_spec s HN) in H.
    destruct (read_error (conn s) (Z.to_nat N)) as [e|] eqn:He.
    + exfalso. exact (fail_read_never_succeeds _ _ H).
    + inversion H; subst; clear H. repeat split; [exact HN|].
      unfold read_error in He.
      destruct (Z.to_nat N) as [|n]; [rewrite stream_take_0; reflexivity|].
      cbn [Nat.eqb] in He.
      destruct (conn_closed (conn s)); [discriminate|].
      apply stream_take_length. exact He.
Qed.

(** ** [ReadPacket] *)

Section ReadPath.

Context {pkt : PacketPkg} {frameCodec : ICodec}.

(** A turn of the read loop that meets a header whose [BodyLen] is over
    the maximum: it logs and returns nil, with the session as open as it
    was and the stream right behind the header. *)
Lemma oversized_header_turn
  (s s1 : Session) (hbuf : bytes) (head : PacketHeader) (fuel : nat)
  (Hopen : isClose s = false)
  (Hhead : read0 PACKET_HEAD_LEN s = (Ret (hbuf, None), s1))
  (Hdec : UnmarshalHeader hbuf = (head, None))
  (Hbig : MAX_PACKET_BYTES < BodyLen head) :
  ReadPacket_iter s = (Ret None, record too_large_error s1) /\
  isClose (record too_large_error s1) = false /\
  conn_closed (conn (record too_large_error s1)) = conn_closed (conn s) /\
  inbound (conn (record too_large_error s1)) =
    stream_drop (inbound (conn s)) (Z.to_nat PACKET_HEAD_LEN) /\
  ReadPacket (S fuel) s = ReadPacket fuel (record too_large_error s1).
Proof.
  assert (Hiter : ReadPacket_iter s = (Ret None, record too_large_error s1)).
  { unfold ReadPacket_iter, recovering, ReadPacket_body.
    unfold bind at 1. rewrite Hhead. cbn iota beta. rewrite Hdec.
    apply Z.ltb_lt in Hbig. cbn iota beta. rewrite Hbig.
    reflexivity. }
  destruct (read0_success _ _ Hhead) as (_ & Hs1 & _).
  split; [exact Hiter|]. subst s1. fields. unfold advance. fields.
  split; [exact Hopen|]. split; [reflexivity|]. split; [reflexivity|].
  change (ReadPacket (S fuel) s) with
    ((closed <- gets isClose ;;
      if closed then ret tt
      else err <- ReadPacket_iter ;;
           match err with Some _ => ret tt | None => ReadPacket fuel end) s).
  unfold bind at 1, gets. rewrite Hopen. cbn iota beta.
  unfold bind at 1. rewrite Hiter. reflexivity.
Qed.

(** C7.  Take an open session whose next packet is well framed: the
    header is read and decoded, its [BodyLen] is within the maximum and
    the body is read in full.  If the codec then fails to decode the
    packet, the turn of the read loop returns nil: the packet is not
    published (the read queue and the counters are as before), the
    session stays open, the stream stands right behind the body, and the
    loop goes on with the next packet from there. *)
Theorem bad_decode_is_dropped
  (s s1 s2 : Session) (hbuf body : bytes) (head : PacketHeader)
  (pp : PacketPtr) (e : error) (fuel : nat)
  (Hopen : isClose s = false)
  (Hhead : read0 PACKET_HEAD_LEN s = (Ret (hbuf, None), s1))
  (Hdec : UnmarshalHeader hbuf = (head, None))
  (Hmax : BodyLen head <= MAX_PACKET_BYTES)
  (Hbody : read0 (BodyLen head) s1 = (Ret (body, None), s2))
  (Hbad : UnmarshalPacket (mkPacket head body []) = (pp, Some e)) :
  ReadPacket_iter s = (Ret None, record decode_warning s2) /\
  isClose (record decode_warning s2) = false /\
  ReadChannel (record decode_warning s2) = ReadChannel s /\
  WriteChannel (record decode_warning s2) = WriteChannel s /\
  rc (record decode_warning s2) = rc s /\
  conn_closed (conn (record decode_warning s2)) = conn_closed (conn s) /\
  inbound (conn (record decode_warning s2)) =
    stream_drop (stream_drop (inbound (conn s)) (Z.to_nat PACKET_HEAD_LEN))
                (Z.to_nat (BodyLen head)) /\
  ReadPacket (S fuel) s = ReadPacket fuel (record decode_warning s2).
Proof.
  assert (Hiter : ReadPacket_iter s = (Ret None, record decode_warning s2)).
  { unfold ReadPacket_iter, recovering, ReadPacket_body.
    unfold bind at 1. rewrite Hhead. cbn iota beta. rewrite Hdec.
    apply Z.ltb_ge in Hmax. cbn iota beta. rewrite Hmax.
    unfold bind at 1. rewrite Hbody. cbn iota beta. rewrite Hbad.
    reflexivity. }
  destruct (read0_success _ _ Hhead) as (_ & Hs1 & _).
  destruct (read0_success _ _ Hbody) as (_ & Hs2 & _).
  split; [exact Hiter|].
  subst s2 s1. simpl.
  repeat split; try assumption.
  change (ReadPacket (S fuel) s) with
    ((closed <- gets isClose ;;
      if closed then ret tt
      else err <- ReadPacket_iter ;;
           match err with Some _ => ret tt | None => ReadPacket fuel end) s).
  unfold bind at 1, gets. rewrite Hopen. cbn iota beta.
  unfold bind at 1. rewrite Hiter. reflexivity.
Qed.

End ReadPath.

Section ReadPathRuns.

#[local] Existing Instance Fixture.packet_pkg.
#[local] Existing Instance Fixture.codec.

(** A packet whose body starts with [0xff], which the codec of the
    fixture rejects, followed by a good one: the first is dropped, the
    second is published. *)
Lemma bad_decode_is_dropped_witness :
  let s := Fixture.session
             [RData [Byte.x01; Byte.x01; Byte.xff; Byte.x02; Byte.x01; Byte.x41]] [] in
  isClose (exec ReadPacket_iter s) = false /\
  buf (ReadChannel (exec ReadPacket_iter s)) = [] /\
  inbound (conn (exec ReadPacket_iter s)) = [RData [Byte.x02; Byte.x01; Byte.x41]] /\
  buf (ReadChannel (exec (ReadPacket 2) s)) =
    [Some (mkPacket (mkHeader 1 [Byte.x02]) [Byte.x41] [Byte.x41])].
Proof.
  intros s.
  pose (s1 := advance 2 s). pose (s2 := advance 1 s1).
  destruct (@bad_decode_is_dropped Fixture.packet_pkg Fixture.codec
              s s1 s2 [Byte.x01; Byte.x01] [Byte.xff]
              (mkHeader 1 [Byte.x01]) None (ErrCodec "bad body") 1%nat)
    as (Hiter & Ho & Hr & _ & _ & _ & Hin & Hloop).
  - reflexivity.
  - vm_compute. reflexivity.
  - reflexivity.
  - vm_compute. discriminate.
  - vm_compute. reflexivity.
  - reflexivity.
  - unfold exec. rewrite Hloop, Hiter. cbn [snd].
    split; [exact Ho|]. split; [rewrite Hr; reflexivity|].
    split; [rewrite Hin; reflexivity|].
    vm_compute. reflexivity.
Defined.

(** C1.  A header that declares a body larger than the maximum: the turn
    logs that it closes the session and returns the nil [err] of the
    header decoding.  The session stays open, the loop goes on and takes
    the undelivered body for the next header; here it publishes a packet
    carved out of the body of the oversized one. *)
Theorem oversized_body_does_not_close :
  let s := Fixture.session
             [RData [Byte.x01; Byte.x05;
                     Byte.x01; Byte.x01; Byte.x58; Byte.x59; Byte.x5a]] [] in
  BodyLen (fst (UnmarshalHeader [Byte.x01; Byte.x05])) = 5 /\
  MAX_PACKET_BYTES = 4 /\
  fst (ReadPacket_iter s) = Ret None /\
  isClose (exec ReadPacket_iter s) = false /\
  conn_closed (conn (exec ReadPacket_iter s)) = false /\
  journal (exec ReadPacket_iter s) =
    journal s ++
    [EvLog LError "Session|UnmarshalHeader|%s|Too Large Packet|CLOSE SESSION|%v"] /\
  inbound (conn (exec ReadPacket_iter s)) =
    [RData [Byte.x01; Byte.x01; Byte.x58; Byte.x59; Byte.x5a]] /\
  buf (ReadChannel (exec (ReadPacket 2) s)) =
    [Some (mkPacket (mkHeader 1 [Byte.x01]) [Byte.x58] [Byte.x58])] /\
  isClose (exec (ReadPacket 2) s) = false.
Proof. vm_compute. repeat split. Qed.

End ReadPathRuns.

(** ** [bufio.Writer] on a connection that takes every write *)

Lemma conn_Write_healthy (c : TCPConn) (p : bytes) :
  conn_healthy c -> conn_Write c p = ((length p, None), conn_accept c p).
Proof.
  intros [Hc Hs]. unfold conn_Write, conn_accept. rewrite Hc.
  destruct (wscript c) as [|o sc]; [reflexivity|].
  inversion Hs; subst. reflexivity.
Qed.

Lemma conn_accept_healthy (c : TCPConn) (p : bytes) :
  conn_healthy c -> conn_healthy (conn_accept c p).
Proof.
  intros [Hc Hs]. split; [exact Hc|]. simpl.
  destruct (wscript c); [constructor|]. inversion Hs; assumption.
Qed.

(** A write into a clean writer followed by a flush puts exactly [p] on
    the wire and leaves the writer clean, whether [p] fits the buffer or
    is written through. *)
Lemma bufio_Write_Flush_healthy (size fuel : nat) (c : TCPConn) (p : bytes) :
  (0 < size)%nat -> conn_healthy c -> p <> [] ->
  exists b1 c1,
    bufio_Write (S (S fuel)) (mkWriter [] size None) c p 0 =
      Some ((length p, None), b1, c1) /\
    Flush b1 c1 = (None, mkWriter [] size None, conn_accept c p).
Proof.
  intros Hsize Hc Hp.
  destruct p as [|x p]; [congruence|]. clear Hp.
  cbn [bufio_Write]. unfold Available. cbn [wbuf wsize werr length Nat.sub].
  rewrite Nat.sub_0_r.
  destruct (Nat.ltb_spec size (S (length p))) as [Hbig|Hfit]; cbn [andb].
  - (* written through *)
    rewrite (conn_Write_healthy (x :: p) Hc).
    rewrite skipn_all. cbn [bufio_Write]. unfold Available.
    cbn [wbuf wsize werr length Nat.sub].
    replace (size - 0 <? 0)%nat with false by (symmetry; apply Nat.ltb_ge; lia).
    cbn [andb]. eexists _, _. split.
    + simpl. rewrite Nat.add_0_r. reflexivity.
    + reflexivity.
  - (* buffered *)
    eexists _, _. split; [reflexivity|].
    unfold Flush. cbn [wbuf wsize werr app].
    rewrite (conn_Write_healthy (x :: p) Hc).
    rewrite Nat.ltb_irrefl. reflexivity.
Qed.

(** ** [write0] and [WritePacket] *)

Section WritePath.

Context {pkt : PacketPkg} {frameCodec : ICodec}.

Lemma record_all_nil (s : Session) : record_all [] s = s.
Proof. destruct s; unfold record_all; simpl. rewrite app_nil_r. reflexivity. Qed.

Lemma record_all_cons (e : Event) (evs : list Event) (s : Session) :
  record_all evs (record e s) = record_all (e :: evs) s.
Proof. unfold record_all, record; simpl. rewrite <- app_assoc. reflexivity. Qed.

(** The first loop of [write0] builds the encodings of the packets that
    have one, in their order, behind what the batch already holds. *)
Lemma encode_all_spec (tlv : list Packet) :
  forall (batch : bytes) (s : Session),
    encode_all tlv batch s =
    (Ret (batch ++ wire_bytes tlv), record_all (drop_logs tlv) s).
Proof.
  induction tlv as [|t tlv IH]; intros batch s.
  - simpl. unfold ret, wire_bytes, drop_logs. simpl.
    rewrite app_nil_r, record_all_nil. reflexivity.
  - cbn [encode_all].
    assert (He : encodable t =
                 negb (is_Some (snd (MarshalPacket t))
                       || (length (fst (MarshalPacket t)) <=? 0)%nat))
      by reflexivity.
    assert (Hp : encoding t = fst (MarshalPacket t)) by reflexivity.
    destruct (MarshalPacket t) as [p err]. cbn [fst snd] in He, Hp.
    unfold wire_bytes, drop_logs. cbn [filter]. rewrite He.
    destruct (is_Some err || (length p <=? 0)%nat) eqn:Hdrop; cbn [negb map concat].
    + unfold bind, log, modify. rewrite IH, record_all_cons. reflexivity.
    + rewrite IH, Hp, <- app_assoc. reflexivity.
Qed.

Lemma set_bw_clean (s : Session) :
  writer_clean (bw s) -> set_bw (mkWriter [] (wsize (bw s)) None) s = s.
Proof.
  intros (Hb & He & _). destruct s as [c a r b rch wch cl lt cfg j].
  destruct b as [wb ws we]. simpl in *. subst. reflexivity.
Qed.

Lemma write0_healthy (tlv : list Packet) (s : Session) :
  writer_clean (bw s) -> conn_healthy (conn s) ->
  write0 tlv s =
  (Ret tt,
   match wire_bytes tlv with
   | [] => record_all (drop_logs tlv) s
   | _ :: _ => batch_sent tlv s
   end).
Proof.
  intros Hb Hc. unfold write0. unfold bind at 1. rewrite encode_all_spec.
  cbn [app]. destruct (wire_bytes tlv) as [|x batch] eqn:Hbatch.
  - reflexivity.
  - cbn [length Nat.leb]. unfold bind at 1, gets. unfold bind at 1.
    set (s0 := record_all (drop_logs tlv) s).
    assert (Hb0 : writer_clean (bw s0)) by exact Hb.
    assert (Hc0 : conn_healthy (conn s0)) by exact Hc.
    destruct Hb0 as (Hwb & Hwe & Hws).
    destruct (@bufio_Write_Flush_healthy (wsize (bw s0))
                (S (length (wscript (conn s0)))) (conn s0) (x :: batch)
                Hws Hc0 ltac:(discriminate)) as (b1 & c1 & Hw & Hf).
    assert (Hbw : bw s0 = mkWriter [] (wsize (bw s0)) None)
      by (destruct (bw s0); simpl in *; subst; reflexivity).
    unfold write_budget.
    replace (length (wscript (conn s0)) + 3)%nat
      with (S (S (S (length (wscript (conn s0)))))) by lia.
    cbn [write0_loop]. unfold bind at 1, bw_Write, write_budget.
    replace (length (wscript (conn s0)) + 3)%nat
      with (S (S (S (length (wscript (conn s0)))))) by lia.
    rewrite Hbw at 1. rewrite Hw. cbn iota beta.
    unfold bind at 1, ret. cbn iota beta.
    cbn [Nat.add]. rewrite Nat.eqb_refl.
    unfold bind at 1, bw_Flush. cbn [bw conn set_conn set_bw]. rewrite Hf.
    unfold batch_sent. rewrite Hbatch. fold s0.
    unfold bind at 1, has_FlowStat, gets. cbn [rc record set_conn set_bw].
    change (rc s0) with (rc s).
    destruct (FlowStat (rc s)) as [f|] eqn:Hfs.
    + unfold bind, Incr, ret. cbn [rc record set_conn set_bw set_rc].
      change (rc s0) with (rc s). rewrite Hfs.
      cbn [rc record set_conn set_bw set_rc rc_set_FlowStat FlowStat].
      f_equal. apply session_ext; fields; try reflexivity.
      * symmetry. exact Hbw.
      * rewrite <- !app_assoc. reflexivity.
    + unfold ret. f_equal. apply session_ext; fields; try reflexivity.
      symmetry. exact Hbw.
Qed.

Lemma write0_healthy_facts (tlv : list Packet) (s : Session) :
  writer_clean (bw s) -> conn_healthy (conn s) ->
  exists s',
    write0 tlv s = (Ret tt, s') /\
    wire (conn s') = wire (conn s) ++ wire_bytes tlv /\
    bw s' = bw s /\ conn_healthy (conn s') /\
    isClose s' = isClose s /\
    WriteChannel s' = WriteChannel s /\ ReadChannel s' = ReadChannel s /\
    lasttime s' = lasttime s.
Proof.
  intros Hb Hc. rewrite (@write0_healthy tlv s Hb Hc).
  eexists. split; [reflexivity|].
  destruct (wire_bytes tlv) as [|x batch] eqn:Hbatch.
  - simpl. rewrite app_nil_r. repeat split; try reflexivity; apply Hc.
  - unfold batch_sent. rewrite Hbatch.
    pose proof (conn_accept_healthy (x :: batch) Hc) as Hc'.
    destruct (FlowStat (rc s)); simpl; repeat split; try reflexivity; apply Hc'.
Qed.

(** A batch that fits the buffer of a clean writer, on a connection whose
    next write takes [k] bytes and fails with [e]: [bw.Write] only copies
    the batch, the failure comes out of the [Flush] behind the loop and is
    dropped.  [write0] returns, the session is as open as it was, a
    prefix of the batch is on the wire and the rest is held back with the
    error. *)
Lemma write0_flush_failure
  (tlv : list Packet) (s : Session) (k : nat) (e : error) (sc : list WOutcome) :
  writer_clean (bw s) ->
  conn_closed (conn s) = false ->
  wscript (conn s) = WFail k e :: sc ->
  wire_bytes tlv <> [] ->
  (length (wire_bytes tlv) <= wsize (bw s))%nat ->
  exists s',
    write0 tlv s = (Ret tt, s') /\
    isClose s' = isClose s /\
    conn_closed (conn s') = false /\
    wire (conn s') =
      wire (conn s) ++ firstn (Nat.min k (length (wire_bytes tlv))) (wire_bytes tlv) /\
    wbuf (bw s') = skipn (Nat.min k (length (wire_bytes tlv))) (wire_bytes tlv) /\
    werr (bw s') = Some e.
Proof.
  intros Hb Hopen Hsc Hne Hfit.
  unfold write0. unfold bind at 1. rewrite encode_all_spec. cbn [app].
  destruct (wire_bytes tlv) as [|x batch] eqn:Hbatch; [congruence|]. clear Hne.
  cbn [length Nat.leb]. unfold bind at 1, gets. unfold bind at 1.
  set (s0 := record_all (drop_logs tlv) s).
  destruct Hb as (Hwb & Hwe & Hws).
  assert (Hbw : bw s0 = mkWriter [] (wsize (bw s)) None).
  { change (bw s0) with (bw s). destruct (bw s); simpl in *; subst. reflexivity. }
  unfold write_budget.
  replace (length (wscript (conn s0)) + 3)%nat
    with (S (S (S (length (wscript (conn s0)))))) by lia.
  cbn [write0_loop]. unfold bind at 1, bw_Write, write_budget.
  replace (length (wscript (conn s0)) + 3)%nat
    with (S (S (S (length (wscript (conn s0)))))) by lia.
  rewrite Hbw. cbn [bufio_Write]. unfold Available.
  cbn [wbuf wsize werr length Nat.sub]. rewrite Nat.sub_0_r.
  replace (wsize (bw s) <? S (length batch))%nat with false
    by (symmetry; apply Nat.ltb_ge; simpl in Hfit; lia).
  cbn [andb app Nat.add]. cbn iota beta.
  unfold bind at 1, ret. cbn iota beta. rewrite Nat.eqb_refl.
  unfold bind at 1, bw_Flush. fields.
  unfold Flush. cbn [wbuf wsize werr].
  unfold conn_Write. change (conn s0) with (conn s). rewrite Hopen, Hsc.
  cbn iota beta.
  unfold bind at 1, has_FlowStat, gets. fields.
  change (rc s0) with (rc s).
  destruct (FlowStat (rc s)) as [f|] eqn:Hfs.
  - unfold bind, Incr, ret. fields. change (rc s0) with (rc s). rewrite Hfs.
    fields. eexists. split; [reflexivity|]. fields.
    repeat split; try reflexivity; exact Hopen.
  - unfold ret. eexists. split; [reflexivity|]. fields.
    repeat split; try reflexivity; exact Hopen.
Qed.

Lemma firstn_min_length {A} (n : nat) (l : list A) :
  firstn (Nat.min (length l) n) l = firstn n l.
Proof.
  destruct (Nat.le_ge_cases (length l) n) as [H|H].
  - rewrite Nat.min_l by exact H. rewrite firstn_all, firstn_all2; auto.
  - rewrite Nat.min_r by exact H. reflexivity.
Qed.

Lemma skipn_min_length {A} (n : nat) (l : list A) :
  skipn (Nat.min (length l) n) l = skipn n l.
Proof.
  destruct (Nat.le_ge_cases (length l) n) as [H|H].
  - rewrite Nat.min_l by exact H. rewrite skipn_all, skipn_all2; auto.
  - rewrite Nat.min_r by exact H. reflexivity.
Qed.

Lemma append_packet_nonnil (packets : list Packet) (p : PacketPtr) :
  append_packet packets p = packets ++ nonnil [p].
Proof. destruct p; simpl; [reflexivity|]. rewrite app_nil_r. reflexivity. Qed.

(** The inner loop of [WritePacket] takes the next [l] pointers off the
    queue, oldest first, and keeps those that are not nil. *)
Lemma take_more_spec (l : nat) :
  forall (packets : list Packet) (s : Session),
    (l <= length (buf (WriteChannel s)))%nat ->
    take_more l packets s =
    (Ret (packets ++ nonnil (firstn l (buf (WriteChannel s)))),
     set_WriteChannel (mkChan (skipn l (buf (WriteChannel s)))
                              (cap (WriteChannel s))
                              (chan_closed (WriteChannel s))) s).
Proof.
  induction l as [|l IH]; intros packets s Hl.
  - simpl. unfold ret. rewrite app_nil_r.
    destruct s as [c a r b rch [wb wc wcl] cl lt cfg j]. reflexivity.
  - destruct (buf (WriteChannel s)) as [|p rest] eqn:Hbuf; [simpl in Hl; lia|].
    cbn [take_more]. unfold bind, recv, chan_recv. cbn [get_chan]. rewrite Hbuf.
    cbn [fst set_chan]. rewrite IH by (simpl in *; lia).
    fields. cbn [firstn skipn].
    rewrite append_packet_nonnil, <- app_assoc.
    f_equal. destruct p; reflexivity.
Qed.

(** C4.  One turn of the write loop on a session whose write queue holds
    the pointers [q], whose buffered writer holds nothing back and whose
    connection takes every write: the turn takes the first [max_batch]
    pointers of [q] (all of them if there are fewer), and the bytes it
    adds to the wire are the encodings of the packets among them that
    have one, in queue order, one after the other.  A packet whose
    encoding fails or is empty adds nothing and the turn goes on with the
    packets behind it; the session stays as open as it was. *)
Theorem batch_is_concatenation (now : Time) (s : Session) (q : list PacketPtr)
  (Hq : buf (WriteChannel s) = q) (Hne : q <> [])
  (Hb : writer_clean (bw s)) (Hc : conn_healthy (conn s)) :
  exists s',
    WritePacket_iter now [] s = (Ret [], s') /\
    wire (conn s') =
      wire (conn s) ++
      concat (map encoding (filter encodable (nonnil (firstn max_batch q)))) /\
    buf (WriteChannel s') = skipn max_batch q /\
    isClose s' = isClose s /\
    writer_clean (bw s') /\ conn_healthy (conn s').
Proof.
  destruct q as [|p0 rest]; [congruence|]. clear Hne.
  unfold WritePacket_iter.
  unfold bind at 1, recv, chan_recv. cbn [get_chan]. rewrite Hq.
  cbn [fst set_chan]. unfold bind at 1, gets.
  set (s1 := set_WriteChannel _ s).
  assert (Hlen : Z.to_nat (Z.min (chan_len (WriteChannel s1)) 100) =
                 Nat.min (length rest) 100).
  { unfold chan_len, s1. simpl. lia. }
  rewrite Hlen. unfold bind at 1.
  rewrite take_more_spec by (unfold s1; simpl; lia).
  set (s2 := set_WriteChannel _ s1).
  change (buf (WriteChannel s1)) with rest.
  rewrite firstn_min_length, append_packet_nonnil. cbn [app].
  assert (Hbatch : nonnil [p0] ++ nonnil (firstn 100 rest) =
                   nonnil (firstn max_batch (p0 :: rest))).
  { unfold max_batch. cbn [firstn]. unfold nonnil. cbn [flat_map].
    rewrite app_nil_r. reflexivity. }
  rewrite Hbatch.
  assert (Hbuf2 : buf (WriteChannel s2) = skipn max_batch (p0 :: rest)).
  { change (skipn max_batch (p0 :: rest)) with (skipn 100 rest).
    unfold s2, s1. fields. apply skipn_min_length. }
  destruct (nonnil (firstn max_batch (p0 :: rest))) as [|t tlv] eqn:Htlv.
  - (* nothing but nil pointers *)
    cbn [length Nat.ltb Nat.leb]. eexists. split; [reflexivity|].
    cbn [filter map concat]. rewrite app_nil_r.
    split; [reflexivity|]. split; [exact Hbuf2|]. split; [reflexivity|].
    split; [exact Hb|exact Hc].
  - cbn [length Nat.ltb Nat.leb].
    destruct (@write0_healthy_facts (t :: tlv) s2 Hb Hc)
      as (s3 & Hw & Hwire & Hbw & Hc3 & Hcl & Hwc & _).
    unfold bind at 1. rewrite Hw. cbn iota beta.
    unfold bind, modify, ret. eexists. split; [reflexivity|].
    cbn [conn set_lasttime WriteChannel isClose bw].
    rewrite Hwire, Hwc, Hbw, Hcl.
    split; [reflexivity|]. split; [exact Hbuf2|]. split; [reflexivity|].
    split; [exact Hb|exact Hc3].
Qed.

End WritePath.

Section WritePathRuns.

#[local] Existing Instance Fixture.packet_pkg.
#[local] Existing Instance Fixture.codec.

(** Packets A, B and C queued in this order, with a packet the codec
    cannot encode and a nil pointer between them: the wire receives the
    encodings of A, B and C, one after the other. *)
Lemma batch_is_concatenation_witness :
  let A := Fixture.packet Byte.x01 [Byte.x41] in
  let B := Fixture.packet Byte.x02 [Byte.x42; Byte.x42] in
  let C := Fixture.packet Byte.x03 [Byte.x43] in
  let bad := Fixture.packet Byte.x04 [Byte.xff] in
  let s := Fixture.queue [Some A; Some bad; None; Some B; Some C]
                         (Fixture.session_of 8 [] []) in
  exists s',
    WritePacket_iter 7 [] s = (Ret [], s') /\
    wire (conn s') = encoding A ++ encoding B ++ encoding C /\
    buf (WriteChannel s') = [] /\ isClose s' = false.
Proof.
  intros A B C bad s.
  destruct (@batch_is_concatenation Fixture.codec 7 s
              [Some A; Some bad; None; Some B; Some C])
    as (s' & Hrun & Hwire & Hbuf & Hcl & _).
  - reflexivity.
  - discriminate.
  - repeat split. simpl. lia.
  - split; [reflexivity|constructor].
  - exists s'. split; [exact Hrun|].
    split; [rewrite Hwire; reflexivity|].
    split; [rewrite Hbuf; reflexivity|].
    rewrite Hcl. reflexivity.
Defined.

End WritePathRuns.

(** ** The settings of a session never change *)

Lemma keeps_ret {A} (a : A) : keeps_settings (ret a).
Proof. intros s; reflexivity. Qed.

Lemma keeps_bind {A B} (m : M A) (k : A -> M B) :
  keeps_settings m -> (forall a, keeps_settings (k a)) ->
  keeps_settings (bind m k).
Proof.
  intros Hm Hk s. unfold bind. specialize (Hm s).
  destruct (m s) as [[a| | |] s1]; simpl in *; try exact Hm.
  rewrite (Hk a s1). exact Hm.
Qed.

Lemma keeps_gets {A} (f : Session -> A) : keeps_settings (gets f).
Proof. intros s; reflexivity. Qed.

Lemma keeps_log (lvl : Level) (fmt : string) : keeps_settings (log lvl fmt).
Proof. intros s; reflexivity. Qed.

Lemma keeps_Incr (k : Counter) (d : Z) : keeps_settings (Incr k d).
Proof. intros s. unfold Incr. destruct (FlowStat (rc s)); reflexivity. Qed.

Lemma keeps_bw_Flush : keeps_settings bw_Flush.
Proof.
  intros s. unfold bw_Flush. destruct (Flush (bw s) (conn s)) as [[e b] c].
  reflexivity.
Qed.

Lemma keeps_bw_Write (p : bytes) : keeps_settings (bw_Write p).
Proof.
  intros s. unfold bw_Write.
  destruct (bufio_Write _ _ _ _ _) as [[[r b] c]|]; reflexivity.
Qed.

Lemma keeps_conn_Close : keeps_settings conn_Close_.
Proof.
  intros s. unfold conn_Close_. destruct (conn_Close (conn s)). reflexivity.
Qed.

Lemma keeps_close_chan (ch : ChanId) : keeps_settings (close_chan ch).
Proof.
  intros s. unfold close_chan. destruct (chan_close (get_chan ch s));
    [destruct ch|]; reflexivity.
Qed.

Lemma keeps_recv (ch : ChanId) : keeps_settings (recv ch).
Proof.
  intros s. unfold recv. destruct (chan_recv (get_chan ch s));
    [destruct ch|]; reflexivity.
Qed.

Lemma keeps_Close : keeps_settings Close.
Proof.
  unfold Close. apply keeps_bind; [apply keeps_gets|]. intros closed.
  apply keeps_bind; [|intros; apply keeps_ret].
  destruct closed; simpl; [apply keeps_ret|].
  repeat (apply keeps_bind; [|intros]);
    auto using keeps_bw_Flush, keeps_conn_Close, keeps_close_chan, keeps_Incr,
               keeps_log.
  intros s; reflexivity.
Qed.

Section WriteKeeps.

Context {frameCodec : ICodec}.

Lemma keeps_encode_all (tlv : list Packet) :
  forall batch, keeps_settings (encode_all tlv batch).
Proof.
  induction tlv as [|t tlv IH]; intros batch; cbn [encode_all].
  - apply keeps_ret.
  - destruct (MarshalPacket t) as [p err].
    destruct (is_Some err || (length p <=? 0)%nat); [|apply IH].
    apply keeps_bind; [apply keeps_log|intros; apply IH].
Qed.

Lemma keeps_write0_loop (fuel : nat) :
  forall batch l tmp, keeps_settings (write0_loop fuel batch l tmp).
Proof.
  induction fuel as [|fuel IH]; intros batch l tmp; cbn [write0_loop].
  - intros s; reflexivity.
  - apply keeps_bind; [apply keeps_bw_Write|]. intros [n err].
    apply keeps_bind.
    + destruct err as [e|]; [|apply keeps_ret].
      apply keeps_bind; [apply keeps_log|]. intros _.
      destruct (is_ErrShortWrite e); simpl.
      * apply keeps_bind; [intros s; reflexivity|intros; apply keeps_ret].
      * apply keeps_bind; [apply keeps_Close|intros; apply keeps_ret].
    + intros go_on. destruct go_on; [|apply keeps_ret].
      destruct (l + n =? length batch)%nat; [apply keeps_ret|].
      destruct (length batch <? l + n)%nat; [intros s; reflexivity|apply IH].
Qed.

Lemma keeps_write0 (tlv : list Packet) : keeps_settings (write0 tlv).
Proof.
  unfold write0. apply keeps_bind; [apply keeps_encode_all|]. intros batch.
  destruct (length batch <=? 0)%nat; [apply keeps_ret|].
  apply keeps_bind; [apply keeps_gets|]. intros budget.
  apply keeps_bind; [apply keeps_write0_loop|]. intros finished.
  destruct finished; [|apply keeps_ret].
  apply keeps_bind; [apply keeps_bw_Flush|]. intros _.
  apply keeps_bind; [apply keeps_gets|]. intros present.
  destruct present; [|apply keeps_ret].
  apply keeps_bind; [apply keeps_Incr|intros; apply keeps_Incr].
Qed.

Lemma keeps_take_more (l : nat) :
  forall packets, keeps_settings (take_more l packets).
Proof.
  induction l as [|l IH]; intros packets; cbn [take_more].
  - apply keeps_ret.
  - apply keeps_bind; [apply keeps_recv|intros; apply IH].
Qed.

Lemma keeps_WritePacket_iter (now : Time) (packets : list Packet) :
  keeps_settings (WritePacket_iter now packets).
Proof.
  unfold WritePacket_iter.
  apply keeps_bind; [apply keeps_recv|]. intros r.
  apply keeps_bind; [apply keeps_gets|]. intros n.
  apply keeps_bind; [apply keeps_take_more|]. intros ps.
  destruct (0 <? length ps)%nat; [|apply keeps_ret].
  apply keeps_bind; [apply keeps_write0|]. intros _.
  apply keeps_bind; [intros s; reflexivity|intros; apply keeps_ret].
Qed.

End WriteKeeps.

(** ** [Idle] and the write loop *)

Section IdleAfterWrite.

Context {frameCodec : ICodec}.

(** C8, as the code has it.  [Idle] is true exactly when the present time
    is after the last-activity timestamp plus the configured idle
    threshold.  The timestamp is set to the present time by every turn of
    the write loop that took a packet off the queue and came back from
    [write0], whether the batch reached the wire or not; so with a
    threshold that is not negative [Idle] is false right after such a
    turn, and it is true again once more than the threshold has gone by
    without another one. *)
Theorem Idle_after_batch
  (now later : Time) (s s' : Session) (packets r : list Packet)
  (t : Packet) (q : list PacketPtr)
  (Hq : buf (WriteChannel s) = Some t :: q)
  (Hrun : WritePacket_iter now packets s = (Ret r, s')) :
  lasttime s' = now /\
  IdleTime (rc s') = IdleTime (rc s) /\
  (Idle later s' = true <-> now + IdleTime (rc s) < later) /\
  (0 <= IdleTime (rc s) -> Idle now s' = false).
Proof.
  assert (Hset : settings s' = settings s).
  { pose proof (keeps_WritePacket_iter now packets s) as H.
    rewrite Hrun in H. exact H. }
  assert (Hidle : IdleTime (rc s') = IdleTime (rc s))
    by exact (f_equal IdleTime Hset).
  assert (Hlast : lasttime s' = now).
  { unfold WritePacket_iter in Hrun.
    unfold bind at 1, recv, chan_recv in Hrun. cbn [get_chan] in Hrun.
    rewrite Hq in Hrun. cbn [fst set_chan] in Hrun.
    unfold bind at 1, gets in Hrun.
    set (s1 := set_WriteChannel _ s) in Hrun.
    unfold bind at 1 in Hrun.
    rewrite take_more_spec in Hrun
      by (unfold chan_len; lia).
    rewrite append_packet_nonnil in Hrun. cbn [nonnil flat_map app] in Hrun.
    destruct ((packets ++ [t]) ++ _) as [|x l] eqn:Hl in Hrun.
    - apply app_eq_nil in Hl. destruct Hl as [Hl _].
      apply app_eq_nil in Hl. destruct Hl as [_ Hl]. discriminate.
    - cbn [length Nat.ltb Nat.leb] in Hrun.
      unfold bind at 1 in Hrun.
      destruct (write0 (x :: l) _) as [[u| | |] s3]; try discriminate.
      unfold bind, modify, ret in Hrun. inversion Hrun; subst. reflexivity. }
  split; [exact Hlast|]. split; [exact Hidle|].
  split.
  - rewrite Idle_iff, Hlast, Hidle. reflexivity.
  - intros Hpos. unfold Idle, time_After, time_Add. rewrite Hlast, Hidle.
    apply Z.ltb_ge. lia.
Qed.

End IdleAfterWrite.

Section IdleRuns.

#[local] Existing Instance Fixture.packet_pkg.
#[local] Existing Instance Fixture.codec.

(** One packet written five nanoseconds into 1970 with a threshold of one
    second: not idle then, idle after more than a second. *)
Lemma Idle_after_batch_witness :
  let now := unix_epoch + 5 in
  let s := Fixture.queue [Some (Fixture.packet Byte.x01 [Byte.x41])]
                         (Fixture.session [] []) in
  let s' := exec (WritePacket_iter now []) s in
  lasttime s' = now /\
  Idle now s' = false /\
  Idle (now + 1000000001) s' = true.
Proof.
  intros now s s'.
  destruct (@Idle_after_batch Fixture.codec now (now + 1000000001) s s' [] []
              (Fixture.packet Byte.x01 [Byte.x41]) [])
    as (Hl & _ & Hlater & Hnow).
  - reflexivity.
  - vm_compute. reflexivity.
  - split; [exact Hl|]. split.
    + apply Hnow. vm_compute. discriminate.
    + apply Hlater. vm_compute. reflexivity.
Defined.

(** Against C8 as stated.  Three packets, ten bytes of batch, go to a
    connection whose write fails: [write0] closes the session and no byte
    reaches the wire, yet the turn of the write loop sets the timestamp,
    and a session that was idle and has never written stops being idle. *)
Lemma lasttime_set_by_failed_write :
  let now := unix_epoch + 5 in
  let s := Fixture.queue [Some (Fixture.packet Byte.x01 [Byte.x41]);
                          Some (Fixture.packet Byte.x02 [Byte.x42; Byte.x42]);
                          Some (Fixture.packet Byte.x03 [Byte.x43])]
                         (Fixture.session_of 8 [] [WFail 0 (ErrNet "broken pipe")]) in
  let s' := exec (WritePacket_iter now []) s in
  wire (conn s') = wire (conn s) /\
  isClose s' = true /\
  lasttime s = zero_time /\ lasttime s' = now /\
  Idle now s = true /\ Idle now s' = false.
Proof. vm_compute. repeat split. Qed.

(** C5.  A batch that fits the buffer of the writer is only copied by
    [bw.Write], which reports all of it written; the connection is first
    touched by the [Flush] after the loop, and the error of that [Flush]
    is dropped.  Here the connection takes one byte of a three-byte
    packet and fails: [write0] returns with the session open, one byte of
    the packet on the wire, two held back, and the counters showing a
    packet of three bytes written.  The session is closed only by the
    next batch. *)
Theorem flush_error_is_dropped :
  let A := Fixture.packet Byte.x01 [Byte.x41] in
  let B := Fixture.packet Byte.x02 [Byte.x42] in
  let s := Fixture.session [] [WFail 1 (ErrNet "broken pipe")] in
  let s' := exec (write0 [A]) s in
  encoding A = [Byte.x01; Byte.x01; Byte.x41] /\
  fst (write0 [A] s) = Ret tt /\
  wire (conn s') = [Byte.x01] /\
  isClose s' = false /\
  conn_closed (conn s') = false /\
  wbuf (bw s') = [Byte.x01; Byte.x41] /\
  werr (bw s') = Some (ErrNet "broken pipe") /\
  option_map WriteFlow (FlowStat (rc s')) = Some 1 /\
  option_map WriteBytesFlow (FlowStat (rc s')) = Some 3 /\
  isClose (exec (write0 [B]) s') = true /\
  wire (conn (exec (write0 [B]) s')) = [Byte.x01].
Proof. vm_compute. repeat split. Qed.

End IdleRuns.

(** ** Regular states stay regular *)

Lemma ok_ret {A} (a : A) : keeps_ok (ret a).
Proof. intros s H; exact H. Qed.

Lemma ok_bind {A B} (m : M A) (k : A -> M B) :
  keeps_ok m -> (forall a, keeps_ok (k a)) -> keeps_ok (bind m k).
Proof.
  intros Hm Hk s Hs. unfold bind. specialize (Hm s Hs).
  destruct (m s) as [[a| | |] s1]; simpl in *; try exact Hm.
  exact (Hk a s1 Hm).
Qed.

Lemma ok_recovering {A} (body : M A) (h : string -> M unit) (zero : A) :
  keeps_ok body -> (forall msg, keeps_ok (h msg)) ->
  keeps_ok (recovering body h zero).
Proof.
  intros Hb Hh s Hs. unfold recovering. specialize (Hb s Hs).
  destruct (body s) as [[a|msg| |] s1]; simpl in *; try exact Hb.
  exact (@ok_bind _ _ (h msg) (fun _ => ret zero) (Hh msg)
           (fun _ => ok_ret zero) s1 Hb).
Qed.

Lemma ok_unchanged {A} (m : M A) :
  (forall s, FlowStat (rc (snd (m s))) = FlowStat (rc s) /\
             isClose (snd (m s)) = isClose s /\
             chan_closed (WriteChannel (snd (m s))) = chan_closed (WriteChannel s) /\
             chan_closed (ReadChannel (snd (m s))) = chan_closed (ReadChannel s)) ->
  keeps_ok m.
Proof.
  intros H s [Hf Hc]. destruct (H s) as (E1 & E2 & E3 & E4).
  split; [rewrite E1; exact Hf|]. rewrite E2, E3, E4. exact Hc.
Qed.

Lemma ok_gets {A} (f : Session -> A) : keeps_ok (gets f).
Proof. intros s H; exact H. Qed.

Lemma ok_log (lvl : Level) (fmt : string) : keeps_ok (log lvl fmt).
Proof. intros s H; exact H. Qed.

Lemma ok_Incr (k : Counter) (d : Z) : keeps_ok (Incr k d).
Proof.
  intros s [Hf Hc]. unfold Incr.
  destruct (FlowStat (rc s)) eqn:E; simpl; [|split; [rewrite E; exact Hf|exact Hc]].
  split; [discriminate|exact Hc].
Qed.

Lemma ok_bw_Flush : keeps_ok bw_Flush.
Proof.
  apply ok_unchanged. intros s. unfold bw_Flush.
  destruct (Flush (bw s) (conn s)) as [[e b] c]. repeat split.
Qed.

Lemma ok_bw_Write (p : bytes) : keeps_ok (bw_Write p).
Proof.
  apply ok_unchanged. intros s. unfold bw_Write.
  destruct (bufio_Write _ _ _ _ _) as [[[r b] c]|]; repeat split.
Qed.

Lemma ok_br_Read (m : nat) : keeps_ok (br_Read m).
Proof.
  apply ok_unchanged. intros s. unfold br_Read.
  destruct (reader_Read (conn s) m) as [r c]. repeat split.
Qed.

Lemma chan_recv_closed (c c' : Chan) (p : PacketPtr) (ok : bool) :
  chan_recv c = Got p ok c' -> chan_closed c' = chan_closed c.
Proof.
  unfold chan_recv. destruct (buf c); [destruct (chan_closed c) eqn:E|];
    intros H; inversion H; subst; auto.
Qed.

Lemma chan_send_closed (c c' : Chan) (p : PacketPtr) :
  chan_send c p = Sent c' -> chan_closed c' = chan_closed c.
Proof.
  unfold chan_send. destruct (chan_closed c) eqn:E; [discriminate|].
  destruct (chan_len c <? cap c); intros H; inversion H; subst. reflexivity.
Qed.

Lemma ok_recv (ch : ChanId) : keeps_ok (recv ch).
Proof.
  apply ok_unchanged. intros s. unfold recv.
  destruct (chan_recv (get_chan ch s)) as [p ok c|] eqn:E; [|repeat split].
  apply chan_recv_closed in E. destruct ch; fields; repeat split; exact E.
Qed.

Lemma ok_send (ch : ChanId) (p : PacketPtr) : keeps_ok (send ch p).
Proof.
  apply ok_unchanged. intros s. unfold send.
  destruct (chan_send (get_chan ch s) p) as [c| |] eqn:E;
    [|repeat split|repeat split].
  apply chan_send_closed in E. destruct ch; fields; repeat split; exact E.
Qed.

Lemma ok_try_send (ch : ChanId) (p : PacketPtr) : keeps_ok (try_send ch p).
Proof.
  apply ok_unchanged. intros s. unfold try_send.
  destruct (chan_send (get_chan ch s) p) as [c| |] eqn:E;
    [|repeat split|repeat split].
  apply chan_send_closed in E. destruct ch; fields; repeat split; exact E.
Qed.

Lemma ok_Close : keeps_ok Close.
Proof.
  intros s Hs. destruct (Close_ok Hs) as (s' & E & _ & Hok).
  rewrite E. exact Hok.
Qed.

Lemma ok_Write (p : PacketPtr) : keeps_ok (Write p).
Proof.
  unfold Write. apply ok_recovering; [|intros; apply ok_log].
  apply ok_bind; [apply ok_gets|]. intros closed.
  apply ok_bind; [apply ok_gets|]. intros addr.
  destruct closed; simpl; [apply ok_ret|].
  apply ok_bind; [apply ok_try_send|]. intros [|]; apply ok_ret.
Qed.

Lemma ok_read0_loop (fuel : nat) :
  forall len buff idx, keeps_ok (read0_loop fuel len buff idx).
Proof.
  induction fuel as [|fuel IH]; intros len buff idx; cbn [read0_loop].
  - intros s H; exact H.
  - apply ok_bind; [apply ok_br_Read|]. intros [chunk [e|]].
    + apply ok_bind; [apply ok_Close|]. intros _.
      apply ok_bind; [apply ok_log|intros; apply ok_ret].
    + destruct (len <=? idx + length chunk)%nat; [apply ok_ret|apply IH].
Qed.

Lemma ok_read0 (N : Z) : keeps_ok (read0 N).
Proof.
  unfold read0. destruct (N <? 0); [intros s H; exact H|].
  apply ok_bind; [apply ok_gets|intros; apply ok_read0_loop].
Qed.

Section PipelinesKeepOk.

Context {pkt : PacketPkg} {frameCodec : ICodec}.

Lemma ok_ReadPacket_iter : keeps_ok ReadPacket_iter.
Proof.
  unfold ReadPacket_iter. apply ok_recovering; [|intros; apply ok_log].
  unfold ReadPacket_body.
  apply ok_bind; [apply ok_read0|]. intros [buff [e|]]; [apply ok_ret|].
  destruct (UnmarshalHeader buff) as [head [e|]].
  - apply ok_bind; [apply ok_Close|]. intros _.
    apply ok_bind; [apply ok_log|intros; apply ok_ret].
  - destruct (MAX_PACKET_BYTES <? BodyLen head).
    + apply ok_bind; [apply ok_log|intros; apply ok_ret].
    + apply ok_bind; [apply ok_read0|]. intros [body [e|]].
      * apply ok_bind; [apply ok_log|intros; apply ok_ret].
      * destruct (UnmarshalPacket _) as [pp [e|]].
        -- apply ok_bind; [apply ok_log|intros; apply ok_ret].
        -- apply ok_bind; [apply ok_send|]. intros _.
           apply ok_bind; [apply ok_gets|]. intros present.
           apply ok_bind; [|intros; apply ok_ret].
           destruct present; [|apply ok_ret].
           apply ok_bind; [apply ok_Incr|intros; apply ok_Incr].
Qed.

Lemma ok_ReadPacket (fuel : nat) : keeps_ok (ReadPacket fuel).
Proof.
  induction fuel as [|fuel IH]; cbn [ReadPacket];
    (apply ok_bind; [apply ok_gets|]); intros closed;
    (destruct closed; [apply ok_ret|]).
  - intros s H; exact H.
  - apply ok_bind; [apply ok_ReadPacket_iter|].
    intros [e|]; [apply ok_ret|apply IH].
Qed.

Lemma ok_encode_all (tlv : list Packet) : forall batch, keeps_ok (encode_all tlv batch).
Proof.
  induction tlv as [|t tlv IH]; intros batch; cbn [encode_all].
  - apply ok_ret.
  - destruct (MarshalPacket t) as [p err].
    destruct (is_Some err || (length p <=? 0)%nat); [|apply IH].
    apply ok_bind; [apply ok_log|intros; apply IH].
Qed.

Lemma ok_write0_loop (fuel : nat) :
  forall batch l tmp, keeps_ok (write0_loop fuel batch l tmp).
Proof.
  induction fuel as [|fuel IH]; intros batch l tmp; cbn [write0_loop].
  - intros s H; exact H.
  - apply ok_bind; [apply ok_bw_Write|]. intros [n err].
    apply ok_bind.
    + destruct err as [e|]; [|apply ok_ret].
      apply ok_bind; [apply ok_log|]. intros _.
      destruct (is_ErrShortWrite e); simpl.
      * apply ok_bind; [intros s H; exact H|intros; apply ok_ret].
      * apply ok_bind; [apply ok_Close|intros; apply ok_ret].
    + intros go_on. destruct go_on; [|apply ok_ret].
      destruct (l + n =? length batch)%nat; [apply ok_ret|].
      destruct (length batch <? l + n)%nat; [intros s H; exact H|apply IH].
Qed.

Lemma ok_write0 (tlv : list Packet) : keeps_ok (write0 tlv).
Proof.
  unfold write0. apply ok_bind; [apply ok_encode_all|]. intros batch.
  destruct (length batch <=? 0)%nat; [apply ok_ret|].
  apply ok_bind; [apply ok_gets|]. intros budget.
  apply ok_bind; [apply ok_write0_loop|]. intros finished.
  destruct finished; [|apply ok_ret].
  apply ok_bind; [apply ok_bw_Flush|]. intros _.
  apply ok_bind; [apply ok_gets|]. intros present.
  destruct present; [|apply ok_ret].
  apply ok_bind; [apply ok_Incr|intros; apply ok_Incr].
Qed.

Lemma ok_take_more (l : nat) : forall packets, keeps_ok (take_more l packets).
Proof.
  induction l as [|l IH]; intros packets; cbn [take_more].
  - apply ok_ret.
  - apply ok_bind; [apply ok_recv|intros; apply IH].
Qed.

Lemma ok_WritePacket_iter (now : Time) (packets : list Packet) :
  keeps_ok (WritePacket_iter now packets).
Proof.
  unfold WritePacket_iter.
  apply ok_bind; [apply ok_recv|]. intros r.
  apply ok_bind; [apply ok_gets|]. intros n.
  apply ok_bind; [apply ok_take_more|]. intros ps.
  destruct (0 <? length ps)%nat; [|apply ok_ret].
  apply ok_bind; [apply ok_write0|]. intros _.
  apply ok_bind; [intros s H; exact H|intros; apply ok_ret].
Qed.

Lemma ok_discard_left (fuel : nat) : keeps_ok (discard_left fuel).
Proof.
  induction fuel as [|fuel IH]; cbn [discard_left].
  - intros s H; exact H.
  - apply ok_bind; [apply ok_recv|]. intros [p [|]]; [apply IH|apply ok_ret].
Qed.

Lemma ok_WritePacket (clock : list Time) : keeps_ok (WritePacket clock).
Proof.
  unfold WritePacket. apply ok_bind.
  - generalize (@nil Packet). induction clock as [|now clock IH];
      intros packets; cbn [WritePacket_loop];
      (apply ok_bind; [apply ok_gets|]); intros closed;
      (destruct closed; [apply ok_ret|]).
    + intros s H; exact H.
    + apply ok_bind; [apply ok_WritePacket_iter|intros; apply IH].
  - intros _. apply ok_bind; [apply ok_gets|intros; apply ok_discard_left].
Qed.

End PipelinesKeepOk.

(** ** The budgets of the write path are never used up *)

Lemma conn_Write_script (c c' : TCPConn) (p : bytes) (n : nat) (e : option error) :
  conn_Write c p = ((n, e), c') ->
  (length (wscript c') <= length (wscript c))%nat /\
  (n <= length p)%nat /\
  (e = Some ErrShortWrite \/ (e = None /\ (n < length p)%nat) ->
   (length (wscript c') < length (wscript c))%nat).
Proof.
  unfold conn_Write, closed_conn_error.
  destruct (conn_closed c).
  - intros H; inversion H; subst. split; [lia|]. split; [lia|].
    intros [Hx|[Hx _]]; discriminate.
  - destruct (wscript c) as [|[|k|k e0] sc]; intros H; inversion H; subst;
      cbn [wscript conn_set_out length]; (split; [lia|]); (split; [lia|]);
      intros [Hx|[Hx1 Hx2]]; try discriminate; lia.
Qed.

Lemma bufio_Write_sticky (fuel : nat) (b : Writer) (c : TCPConn) (p : bytes)
  (nn : nat) (e : error) :
  werr b = Some e -> bufio_Write fuel b c p nn = Some ((nn, Some e), b, c).
Proof.
  intros H. destruct fuel; cbn [bufio_Write]; rewrite H, andb_false_r;
    reflexivity.
Qed.

Lemma bufio_Write_nothing (fuel : nat) (b : Writer) (c : TCPConn) (nn : nat) :
  bufio_Write fuel b c [] nn <> None.
Proof.
  destruct fuel; cbn [bufio_Write length];
    replace (Available b <? 0)%nat with false by (symmetry; apply Nat.ltb_ge; lia);
    cbn [andb]; destruct (werr b); discriminate.
Qed.

Lemma Flush_script (b b' : Writer) (c c' : TCPConn) (r : option error) :
  werr b = None ->
  Flush b c = (r, b', c') ->
  (length (wscript c') <= length (wscript c))%nat /\
  werr b' = r /\
  (r = None -> wbuf b' = []) /\
  (r = Some ErrShortWrite -> (length (wscript c') < length (wscript c))%nat).
Proof.
  intros He. unfold Flush. rewrite He.
  destruct (wbuf b) as [|x w] eqn:Hw.
  - intros H; inversion H; subst. rewrite He, Hw.
    repeat split; try lia; discriminate.
  - destruct (conn_Write c (x :: w)) as [[n e] c1] eqn:Hc.
    destruct (conn_Write_script _ _ Hc) as (Hle & _ & Hlt).
    destruct e as [e|].
    + intros H; inversion H; subst. cbn [werr wbuf].
      repeat split; try assumption; try discriminate.
      intros Hx. apply Hlt. left. exact Hx.
    + destruct (n <? length (x :: w))%nat eqn:Hn.
      * intros H; inversion H; subst. cbn [werr wbuf].
        repeat split; try assumption; try discriminate.
        intros _. apply Hlt. right. split; [reflexivity|].
        apply Nat.ltb_lt. exact Hn.
      * intros H; inversion H; subst. cbn [werr wbuf].
        repeat split; try assumption; discriminate.
Qed.

(** [bw.Write] comes back whenever its budget covers the script of the
    connection and two more turns; without an error it reports all of [p]
    written; the script only gets shorter, and it got shorter if a clean
    writer reports a short write. *)
Lemma bufio_Write_total (fuel : nat) :
  forall (b : Writer) (c : TCPConn) (p : bytes) (nn : nat),
    (length (wscript c) + match wbuf b with [] => 1 | _ :: _ => 2 end <= fuel)%nat ->
    exists r b' c',
      bufio_Write fuel b c p nn = Some (r, b', c') /\
      (length (wscript c') <= length (wscript c))%nat /\
      werr b' = snd r /\
      (snd r = None -> fst r = (nn + length p)%nat) /\
      (werr b = None -> snd r = Some ErrShortWrite ->
       (length (wscript c') < length (wscript c))%nat).
Proof.
  induction fuel as [|fuel IH]; intros b c p nn Hfuel.
  - destruct (wbuf b); lia.
  - cbn [bufio_Write].
    destruct ((Available b <? length p)%nat
              && match werr b with None => true | Some _ => false end) eqn:Hcond.
    + apply andb_prop in Hcond. destruct Hcond as [_ He].
      assert (Hnone : werr b = None) by (destruct (werr b); [discriminate|reflexivity]).
      clear He.
      destruct (wbuf b) as [|x w] eqn:Hw.
      * (* written through *)
        destruct (conn_Write c p) as [[n e] c1] eqn:Hc.
        destruct (conn_Write_script _ _ Hc) as (Hle & Hn & Hlt).
        destruct e as [e|].
        -- rewrite (bufio_Write_sticky fuel (mkWriter [] (wsize b) (Some e)) c1
                      (skipn n p) (nn + n) eq_refl).
           eexists _, _, _. split; [reflexivity|]. split; [exact Hle|].
           cbn [snd fst werr]. split; [reflexivity|].
           split; [intros Hx; discriminate|].
           intros _ Hx. apply Hlt. left. exact Hx.
        -- destruct (Nat.lt_ge_cases n (length p)) as [Hshort|Hall].
           ++ assert (Hdec : (length (wscript c1) < length (wscript c))%nat)
                by (apply Hlt; right; split; [reflexivity|exact Hshort]).
              destruct (IH (mkWriter [] (wsize b) None) c1 (skipn n p) (nn + n)%nat)
                as (r & b' & c' & Hrun & Hle' & Hwe' & Hfull' & Hlt');
                [cbn [wbuf]; lia|].
              rewrite Hrun. eexists _, _, _. split; [reflexivity|].
              split; [lia|]. split; [exact Hwe'|].
              split.
              ** intros Hx. rewrite (Hfull' Hx), length_skipn. lia.
              ** intros _ Hx. specialize (Hlt' eq_refl Hx). lia.
           ++ rewrite skipn_all2 by exact Hall.
              assert (Hn' : n = length p) by lia. subst n.
              destruct fuel as [|fuel']; cbn [bufio_Write length];
                unfold Available; cbn [wbuf wsize werr length];
                (replace (wsize b - 0 <? 0)%nat with false
                   by (symmetry; apply Nat.ltb_ge; lia));
                cbn [andb]; eexists _, _, _;
                (split; [reflexivity|]); (split; [exact Hle|]);
                cbn [snd fst werr]; (split; [reflexivity|]);
                (split; [intros _; lia|]); intros _ Hx; discriminate.
      * (* the buffer is filled up and flushed *)
        set (n := Nat.min (Available b) (length p)).
        set (b1 := mkWriter ((x :: w) ++ firstn n p) (wsize b) (werr b)).
        destruct (Flush b1 c) as [[r0 b2] c1] eqn:Hf.
        destruct (@Flush_script b1 b2 c c1 r0 Hnone Hf) as (Hle & Hwe & Hclean & Hlt).
        destruct r0 as [e|].
        -- rewrite (bufio_Write_sticky fuel b2 c1 (skipn n p) (nn + n) Hwe).
           eexists _, _, _. split; [reflexivity|]. split; [exact Hle|].
           cbn [snd fst]. split; [exact Hwe|].
           split; [intros Hx; discriminate|].
           intros _ Hx. apply Hlt. exact Hx.
        -- specialize (Hclean eq_refl).
           assert (Hroom : (length (wscript c1) + 1 <= fuel)%nat) by lia.
           destruct (IH b2 c1 (skipn n p) (nn + n)%nat)
             as (r & b' & c' & Hrun & Hle' & Hwe' & Hfull' & Hlt');
             [rewrite Hclean; exact Hroom|].
           rewrite Hrun. eexists _, _, _. split; [reflexivity|].
           split; [lia|]. split; [exact Hwe'|].
           split.
           ++ intros Hx. rewrite (Hfull' Hx), length_skipn. unfold n. lia.
           ++ intros _ Hx. specialize (Hlt' Hwe Hx). lia.
    + destruct (werr b) as [e|] eqn:He.
      * eexists _, _, _. split; [reflexivity|]. split; [lia|].
        cbn [snd fst]. split; [exact He|].
        split; [intros Hx; discriminate|]. intros Hx; discriminate.
      * eexists _, _, _. split; [reflexivity|]. split; [lia|].
        cbn [snd fst werr]. split; [reflexivity|].
        split; [intros _; reflexivity|]. intros _ Hx; discriminate.
Qed.

(** [self.bw.Write] never uses up its budget. *)
Lemma bw_Write_returns (p : bytes) (s : Session) :
  exists r s',
    bw_Write p s = (Ret r, s') /\
    (length (wscript (conn s')) <= length (wscript (conn s)))%nat /\
    werr (bw s') = snd r /\
    (snd r = None -> fst r = length p) /\
    (werr (bw s) = None -> snd r = Some ErrShortWrite ->
     (length (wscript (conn s')) < length (wscript (conn s)))%nat).
Proof.
  unfold bw_Write, write_budget.
  destruct (@bufio_Write_total (length (wscript (conn s)) + 3) (bw s) (conn s) p 0)
    as (r & b' & c' & Hrun & Hle & Hwe & Hfull & Hlt); [destruct (wbuf (bw s)); lia|].
  rewrite Hrun. eexists _, _. split; [reflexivity|]. fields.
  repeat split; assumption.
Qed.

Lemma Close_comes_back (s : Session) :
  (exists s', Close s = (Ret None, s')) \/
  (exists msg s', Close s = (Panic msg, s')).
Proof.
  unfold Close, bind, gets, modify, bw_Flush, conn_Close_, close_chan,
    Incr, log, ret.
  destruct (isClose s); cbv beta iota; cbn [negb]; cbv beta iota; [eauto|].
  fields.
  destruct (Flush (bw s) (conn s)) as [[e b] c]. cbv beta iota. fields.
  destruct (conn_Close c) as [e' c']. cbv beta iota. fields.
  destruct (chan_close (WriteChannel s)); cbv beta iota; fields; [|eauto].
  destruct (chan_close (ReadChannel s)); cbv beta iota; fields; [|eauto].
  destruct (FlowStat (rc s)); cbv beta iota; [|eauto].
  unfold modify. cbv beta iota. eauto.
Qed.

Section WriteComesBack.

Context {frameCodec : ICodec}.

(** The retry loop of [write0] never uses up its budget. *)
Lemma write0_loop_comes_back (fuel : nat) :
  forall (batch : bytes) (l : nat) (tmp : bytes) (s : Session),
    (turns_left s < fuel)%nat ->
    (l + length tmp = length batch)%nat ->
    comes_back (fst (write0_loop fuel batch l tmp s)).
Proof.
  induction fuel as [|fuel IH]; intros batch l tmp s Hfuel Hinv; [lia|].
  cbn [write0_loop]. unfold bind at 1.
  destruct (bw_Write_returns tmp s)
    as ([n err] & s1 & Hrun & Hle & Hwe & Hfull & Hlt).
  rewrite Hrun. cbn [fst snd] in Hwe, Hfull, Hlt. cbv beta iota.
  destruct err as [e|].
  - unfold bind at 1. unfold bind at 1, log, modify. cbv beta iota.
    destruct (is_ErrShortWrite e) eqn:Hshort; cbn [negb].
    + (* a short write: reset and go on *)
      assert (He : e = ErrShortWrite) by (destruct e; try discriminate; reflexivity).
      subst e. unfold bind at 1, bw_Reset, modify, ret. cbv beta iota.
      destruct (l + n =? length batch)%nat; [exact I|].
      destruct (length batch <? l + n)%nat eqn:Hover; [exact I|].
      apply Nat.ltb_ge in Hover.
      apply IH.
      * unfold turns_left in *. fields. unfold Reset. cbn [werr].
        destruct (werr (bw s)) as [e0|].
        -- lia.
        -- specialize (Hlt eq_refl eq_refl). lia.
      * rewrite length_skipn. lia.
    + (* any other error: close and leave *)
      unfold bind at 1.
      destruct (Close_comes_back (record (EvLog LError "Session|write0|conn|%s|FAIL|%s|%d/%d") s1))
        as [(s2 & Hc)|(msg & s2 & Hc)]; rewrite Hc; exact I.
  - specialize (Hfull eq_refl). subst n.
    unfold bind at 1, ret. cbv beta iota. rewrite Hinv, Nat.eqb_refl. exact I.
Qed.

Lemma Incr_comes_back (k : Counter) (d : Z) (s : Session) :
  comes_back (fst (Incr k d s)).
Proof. unfold Incr. destruct (FlowStat (rc s)); exact I. Qed.

(** X21.  [write0] always comes back to the write loop, by a return or a
    panic: it never waits on a queue, and its retry loop comes to an end
    on every connection whose answers are a finite script followed by
    writes that are taken whole, whatever the state of the writer. *)
Lemma write0_comes_back (tlv : list Packet) (s : Session) :
  comes_back (fst (write0 tlv s)).
Proof.
  unfold write0. unfold bind at 1. rewrite encode_all_spec. cbn [app].
  destruct (length (wire_bytes tlv) <=? 0)%nat; [exact I|].
  unfold bind at 1, gets. unfold bind at 1.
  set (s0 := record_all (drop_logs tlv) s).
  pose proof (@write0_loop_comes_back (write_budget (conn s0))
                (wire_bytes tlv) 0 (wire_bytes tlv) s0) as Hloop.
  destruct (write0_loop _ _ _ _ s0) as [[finished|msg| |] s1];
    try exact I;
    try (exfalso; apply Hloop;
         [unfold turns_left, write_budget; destruct (werr (bw s0)); lia
         |reflexivity]).
  destruct finished; [|exact I].
  unfold bind at 1, bw_Flush.
  destruct (Flush (bw s1) (conn s1)) as [[e b] c]. cbv beta iota.
  unfold bind at 1, has_FlowStat, gets. cbv beta iota.
  match goal with
  | |- context [match FlowStat (rc ?x) with _ => _ end] =>
      destruct (FlowStat (rc x)) eqn:Hfs
  end; [|exact I].
  unfold bind, Incr. rewrite Hfs. cbv beta iota. fields.
  exact I.
Qed.

End WriteComesBack.

(** * Further properties of the read path *)

Section ReadTurns.

Context {pkt : PacketPkg} {frameCodec : ICodec}.

(** The turn of the read loop for a packet that is read and decoded, up to
    the send on the read queue. *)
Lemma ReadPacket_body_to_send
  (s s1 s2 : Session) (hbuf body : bytes) (head : PacketHeader) (pp : PacketPtr)
  (Hhead : read0 PACKET_HEAD_LEN s = (Ret (hbuf, None), s1))
  (Hdec : UnmarshalHeader hbuf = (head, None))
  (Hmax : BodyLen head <= MAX_PACKET_BYTES)
  (Hbody : read0 (BodyLen head) s1 = (Ret (body, None), s2))
  (Hgood : UnmarshalPacket (mkPacket head body []) = (pp, None)) :
  ReadPacket_body s =
  (send ReadCh pp ;;
   present <- has_FlowStat ;;
   (if present then
      Incr CReadFlow 1 ;;
      Incr CReadBytesFlow (wrap32 (PACKET_HEAD_LEN + BodyLen head))
    else ret tt) ;;
   ret None) s2.
Proof.
  unfold ReadPacket_body.
  unfold bind at 1. rewrite Hhead. cbn iota beta. rewrite Hdec.
  apply Z.ltb_ge in Hmax. cbn iota beta. rewrite Hmax.
  unfold bind at 1. rewrite Hbody. cbn iota beta. rewrite Hgood.
  reflexivity.
Qed.

(** What a publishing turn leaves behind. *)
Lemma publish_turn
  (s s1 s2 : Session) (hbuf body : bytes) (head : PacketHeader) (pp : PacketPtr)
  (Hhead : read0 PACKET_HEAD_LEN s = (Ret (hbuf, None), s1))
  (Hdec : UnmarshalHeader hbuf = (head, None))
  (Hmax : BodyLen head <= MAX_PACKET_BYTES)
  (Hbody : read0 (BodyLen head) s1 = (Ret (body, None), s2))
  (Hgood : UnmarshalPacket (mkPacket head body []) = (pp, None))
  (Hopen : chan_closed (ReadChannel s) = false)
  (Hroom : chan_len (ReadChannel s) < cap (ReadChannel s)) :
  exists s',
    ReadPacket_iter s = (Ret None, s') /\
    ReadChannel s' = mkChan (buf (ReadChannel s) ++ [pp]) (cap (ReadChannel s)) false /\
    WriteChannel s' = WriteChannel s /\
    isClose s' = isClose s /\
    lasttime s' = lasttime s /\
    bw s' = bw s /\
    conn s' = conn s2 /\
    FlowStat (rc s') =
      option_map
        (fun f => flow_Incr (flow_Incr f CReadFlow 1) CReadBytesFlow
                            (wrap32 (PACKET_HEAD_LEN + BodyLen head)))
        (FlowStat (rc s)).
Proof.
  destruct (read0_success _ _ Hhead) as (_ & Hs1 & _).
  destruct (read0_success _ _ Hbody) as (_ & Hs2 & _).
  unfold ReadPacket_iter, recovering.
  rewrite (@ReadPacket_body_to_send s s1 s2 hbuf body head pp Hhead Hdec Hmax Hbody Hgood).
  unfold bind at 1, send, chan_send. cbn [get_chan].
  assert (Hch : ReadChannel s2 = ReadChannel s) by (subst s2 s1; reflexivity).
  rewrite Hch, Hopen. apply Z.ltb_lt in Hroom. rewrite Hroom.
  cbv beta iota. cbn [set_chan].
  unfold bind at 1, has_FlowStat, gets. fields.
  assert (Hrc : rc s2 = rc s) by (subst s2 s1; reflexivity).
  rewrite Hrc.
  destruct (FlowStat (rc s)) as [f|] eqn:Hf; cbv beta iota.
  - unfold bind, Incr, ret. fields. rewrite Hrc, Hf. cbv beta iota. fields.
    eexists. split; [reflexivity|]. fields.
    subst s2 s1. repeat split.
  - unfold bind, ret. cbv beta iota.
    eexists. split; [reflexivity|]. fields. rewrite Hrc, Hf.
    subst s2 s1. repeat split.
Qed.

(** X1.  A packet that is read in full and decoded by the codec is sent to
    the back of the read queue when the queue is open and has room; the
    turn returns nil, the session is as open as before, the stream stands
    behind the body, and with a sink the packet counter goes up by one and
    the byte counter by header length plus [BodyLen] in 32-bit
    arithmetic.  The pointer the codec returned is published as it is. *)
Theorem decoded_packet_is_published
  (s s1 s2 : Session) (hbuf body : bytes) (head : PacketHeader) (pp : PacketPtr)
  (Hhead : read0 PACKET_HEAD_LEN s = (Ret (hbuf, None), s1))
  (Hdec : UnmarshalHeader hbuf = (head, None))
  (Hmax : BodyLen head <= MAX_PACKET_BYTES)
  (Hbody : read0 (BodyLen head) s1 = (Ret (body, None), s2))
  (Hgood : UnmarshalPacket (mkPacket head body []) = (pp, None))
  (Hopen : chan_closed (ReadChannel s) = false)
  (Hroom : chan_len (ReadChannel s) < cap (ReadChannel s)) :
  exists s',
    ReadPacket_iter s = (Ret None, s') /\
    buf (ReadChannel s') = buf (ReadChannel s) ++ [pp] /\
    isClose s' = isClose s /\
    inbound (conn s') =
      stream_drop (stream_drop (inbound (conn s)) (Z.to_nat PACKET_HEAD_LEN))
                  (Z.to_nat (BodyLen head)) /\
    option_map ReadFlow (FlowStat (rc s')) =
      option_map (fun f => ReadFlow f + 1) (FlowStat (rc s)) /\
    option_map ReadBytesFlow (FlowStat (rc s')) =
      option_map (fun f => ReadBytesFlow f + wrap32 (PACKET_HEAD_LEN + BodyLen head))
                 (FlowStat (rc s)).
Proof.
  destruct (@publish_turn s s1 s2 hbuf body head pp Hhead Hdec Hmax Hbody Hgood Hopen Hroom)
    as (s' & Hrun & Hch & _ & Hcl & _ & _ & Hconn & Hfs).
  destruct (read0_success _ _ Hhead) as (_ & Hs1 & _).
  destruct (read0_success _ _ Hbody) as (_ & Hs2 & _).
  exists s'. split; [exact Hrun|]. rewrite Hch, Hcl, Hconn, Hfs.
  split; [reflexivity|]. split; [reflexivity|].
  split; [subst s2 s1; reflexivity|].
  destruct (FlowStat (rc s)); split; reflexivity.
Qed.

(** X2.  When the read queue is open and full, the turn of the read loop
    parks on its send after it has taken header and body off the stream:
    nothing is published, nothing is counted and the session stays as
    open as it was. *)
Theorem full_read_queue_parks
  (s s1 s2 : Session) (hbuf body : bytes) (head : PacketHeader) (pp : PacketPtr)
  (Hhead : read0 PACKET_HEAD_LEN s = (Ret (hbuf, None), s1))
  (Hdec : UnmarshalHeader hbuf = (head, None))
  (Hmax : BodyLen head <= MAX_PACKET_BYTES)
  (Hbody : read0 (BodyLen head) s1 = (Ret (body, None), s2))
  (Hgood : UnmarshalPacket (mkPacket head body []) = (pp, None))
  (Hopen : chan_closed (ReadChannel s) = false)
  (Hfull : cap (ReadChannel s) <= chan_len (ReadChannel s)) :
  ReadPacket_iter s = (Parked, s2) /\
  ReadChannel s2 = ReadChannel s /\
  rc s2 = rc s /\
  isClose s2 = isClose s /\
  journal s2 = journal s.
Proof.
  destruct (read0_success _ _ Hhead) as (_ & Hs1 & _).
  destruct (read0_success _ _ Hbody) as (_ & Hs2 & _).
  unfold ReadPacket_iter, recovering.
  rewrite (@ReadPacket_body_to_send s s1 s2 hbuf body head pp Hhead Hdec Hmax Hbody Hgood).
  unfold bind at 1, send, chan_send. cbn [get_chan].
  assert (Hch : ReadChannel s2 = ReadChannel s) by (subst s2 s1; reflexivity).
  rewrite Hch, Hopen. apply Z.ltb_ge in Hfull. rewrite Hfull.
  split; [reflexivity|]. subst s2 s1. repeat split.
Qed.

(** X3.  A header whose [BodyLen] is negative passes the bound check; the
    allocation of the body buffer panics and the deferred [recover] of the
    turn takes the panic: the turn logs it and returns nil, so the session
    stays open and the loop goes on right behind the header. *)
Theorem negative_body_length_is_recovered
  (s s1 : Session) (hbuf : bytes) (head : PacketHeader) (fuel : nat)
  (Hopen : isClose s = false)
  (Hhead : read0 PACKET_HEAD_LEN s = (Ret (hbuf, None), s1))
  (Hdec : UnmarshalHeader hbuf = (head, None))
  (Hmax : BodyLen head <= MAX_PACKET_BYTES)
  (Hneg : BodyLen head < 0) :
  ReadPacket_iter s = (Ret None, record read_recovered s1) /\
  isClose (record read_recovered s1) = false /\
  ReadChannel (record read_recovered s1) = ReadChannel s /\
  inbound (conn (record read_recovered s1)) =
    stream_drop (inbound (conn s)) (Z.to_nat PACKET_HEAD_LEN) /\
  ReadPacket (S fuel) s = ReadPacket fuel (record read_recovered s1).
Proof.
  assert (Hiter : ReadPacket_iter s = (Ret None, record read_recovered s1)).
  { unfold ReadPacket_iter, recovering, ReadPacket_body.
    unfold bind at 1. rewrite Hhead. cbn iota beta. rewrite Hdec.
    apply Z.ltb_ge in Hmax. cbn iota beta. rewrite Hmax.
    unfold bind at 1, read0. apply Z.ltb_lt in Hneg. rewrite Hneg.
    reflexivity. }
  destruct (read0_success _ _ Hhead) as (_ & Hs1 & _).
  split; [exact Hiter|]. subst s1. fields. unfold advance. fields.
  split; [exact Hopen|]. split; [reflexivity|]. split; [reflexivity|].
  change (ReadPacket (S fuel) s) with
    ((closed <- gets isClose ;;
      if closed then ret tt
      else err <- ReadPacket_iter ;;
           match err with Some _ => ret tt | None => ReadPacket fuel end) s).
  unfold bind at 1, gets. rewrite Hopen. cbn iota beta.
  unfold bind at 1. rewrite Hiter. reflexivity.
Qed.

(** What the failure path of [read0] leaves of an open session. *)
Lemma fail_read_open (e : error) (s : Session) :
  isClose s = false -> session_ok s ->
  exists s',
    fail_read e s = (Ret ([], Some e), s') /\
    isClose s' = true /\
    conn_closed (conn s') = true /\
    ReadChannel s' = mkChan (buf (ReadChannel s)) (cap (ReadChannel s)) true /\
    WriteChannel s' = mkChan (buf (WriteChannel s)) (cap (WriteChannel s)) true /\
    connections s' = option_map (fun n => n - 1) (connections s) /\
    inbound (conn s') = inbound (conn s) /\
    session_ok s'.
Proof.
  intros Ho [Hf Hch]. destruct (Hch Ho) as [Hw Hr].
  destruct (FlowStat (rc s)) as [f|] eqn:Ef; [|congruence].
  unfold fail_read, bind. rewrite (Close_open s Ho Hw Hr Ef).
  unfold log, modify, ret. cbv beta iota.
  eexists. split; [reflexivity|]. fields.
  split; [reflexivity|].
  split.
  { unfold conn_Close.
    destruct (conn_closed (snd (Flush (bw s) (conn s)))) eqn:E; cbn [snd];
      [exact E|reflexivity]. }
  split; [reflexivity|]. split; [reflexivity|].
  split; [unfold connections; fields; rewrite Ef; reflexivity|].
  split.
  { unfold conn_Close.
    destruct (conn_closed (snd (Flush (bw s) (conn s)))); cbn [snd inbound];
      unfold Flush; destruct (werr (bw s)); try reflexivity;
      destruct (wbuf (bw s)); try reflexivity;
      unfold conn_Write; destruct (conn_closed (conn s)); try reflexivity;
      destruct (wscript (conn s)) as [|[|k|k e0] sc]; try reflexivity;
      cbn [snd fst];
      match goal with
      | |- context [match ?x with Some _ => _ | None => _ end] => destruct x
      end; reflexivity. }
  split; [discriminate|]. intros Hx; discriminate.
Qed.

(** The loop of [ReadPacket] stops after a turn that returns an error. *)
Lemma ReadPacket_stops (s s' : Session) (e : error) (fuel : nat) :
  isClose s = false ->
  ReadPacket_iter s = (Ret (Some e), s') ->
  ReadPacket (S fuel) s = (Ret tt, s').
Proof.
  intros Ho Hiter.
  change (ReadPacket (S fuel) s) with
    ((closed <- gets isClose ;;
      if closed then ret tt
      else err <- ReadPacket_iter ;;
           match err with Some _ => ret tt | None => ReadPacket fuel end) s).
  unfold bind at 1, gets. rewrite Ho. cbn iota beta.
  unfold bind at 1. rewrite Hiter. reflexivity.
Qed.

(** X4.  A header that cannot be decoded closes the session and ends the
    read loop: the turn returns the error of the decoder, the session is
    closed with its connection and both queues, the connection counter
    drops by one, and nothing is published. *)
Theorem bad_header_closes_session
  (s s1 : Session) (hbuf : bytes) (head : PacketHeader) (e : error) (fuel : nat)
  (Hopen : isClose s = false)
  (Hok : session_ok s)
  (Hhead : read0 PACKET_HEAD_LEN s = (Ret (hbuf, None), s1))
  (Hdec : UnmarshalHeader hbuf = (head, Some e)) :
  exists s',
    ReadPacket_iter s = (Ret (Some e), s') /\
    ReadPacket (S fuel) s = (Ret tt, s') /\
    isClose s' = true /\
    conn_closed (conn s') = true /\
    chan_closed (ReadChannel s') = true /\
    chan_closed (WriteChannel s') = true /\
    buf (ReadChannel s') = buf (ReadChannel s) /\
    connections s' = option_map (fun n => n - 1) (connections s).
Proof.
  destruct (read0_success _ _ Hhead) as (_ & Hs1 & _).
  assert (Ho1 : isClose s1 = false) by (subst s1; exact Hopen).
  assert (Hok1 : session_ok s1) by (subst s1; exact Hok).
  destruct Hok1 as [Hf Hch]. destruct (Hch Ho1) as [Hw Hr].
  destruct (FlowStat (rc s1)) as [f|] eqn:Ef; [|congruence].
  assert (Hiter : exists s',
             ReadPacket_iter s = (Ret (Some e), s') /\
             isClose s' = true /\
             conn_closed (conn s') = true /\
             chan_closed (ReadChannel s') = true /\
             chan_closed (WriteChannel s') = true /\
             buf (ReadChannel s') = buf (ReadChannel s1) /\
             connections s' = Some (Connections f - 1)).
  { unfold ReadPacket_iter, recovering, ReadPacket_body.
    unfold bind at 1. rewrite Hhead. cbn iota beta. rewrite Hdec.
    cbn iota beta. unfold bind at 1. rewrite (Close_open s1 Ho1 Hw Hr Ef).
    unfold bind, log, modify, ret. cbv beta iota.
    eexists. split; [reflexivity|]. fields. unfold connections. fields.
    repeat split.
    unfold conn_Close.
    destruct (conn_closed (snd (Flush (bw s1) (conn s1)))) eqn:E; cbn [snd];
      [exact E|reflexivity]. }
  destruct Hiter as (s' & Hrun & Hc & Hcc & Hrc & Hwc & Hbuf & Hn).
  exists s'. split; [exact Hrun|].
  split; [exact (@ReadPacket_stops s s' e fuel Hopen Hrun)|].
  split; [exact Hc|]. split; [exact Hcc|]. split; [exact Hrc|].
  split; [exact Hwc|]. split; [rewrite Hbuf; subst s1; reflexivity|].
  rewrite Hn. unfold connections. subst s1. unfold advance in Ef.
  cbn [rc set_conn] in Ef. rewrite Ef. reflexivity.
Qed.

(** The turn of the read loop whose header read fails. *)
Lemma read_error_turn
  (s : Session) (e : error) (fuel : nat)
  (Hopen : isClose s = false)
  (Hok : session_ok s)
  (Hlen : 0 <= PACKET_HEAD_LEN)
  (Herr : read_error (conn s) (Z.to_nat PACKET_HEAD_LEN) = Some e) :
  exists s',
    ReadPacket (S fuel) s = (Ret tt, s') /\
    ReadPacket_iter s = (Ret (Some e), s') /\
    isClose s' = true /\
    conn_closed (conn s') = true /\
    chan_closed (ReadChannel s') = true /\
    chan_closed (WriteChannel s') = true /\
    buf (ReadChannel s') = buf (ReadChannel s) /\
    connections s' = option_map (fun n => n - 1) (connections s).
Proof.
  pose proof (read0_spec s Hlen) as Hspec. rewrite Herr in Hspec.
  set (s0 := if conn_closed (conn s) then s
             else advance (Z.to_nat PACKET_HEAD_LEN) s) in Hspec.
  assert (Ho0 : isClose s0 = false) by (unfold s0; destruct (conn_closed (conn s)); exact Hopen).
  assert (Hok0 : session_ok s0) by (unfold s0; destruct (conn_closed (conn s)); exact Hok).
  assert (Hr0 : ReadChannel s0 = ReadChannel s)
    by (unfold s0; destruct (conn_closed (conn s)); reflexivity).
  assert (Hn0 : connections s0 = connections s)
    by (unfold s0; destruct (conn_closed (conn s)); reflexivity).
  destruct (fail_read_open e Ho0 Hok0)
    as (s' & Hfail & Hc & Hcc & Hrch & Hwch & Hn & _ & _).
  rewrite Hfail in Hspec.
  assert (Hiter : ReadPacket_iter s = (Ret (Some e), s')).
  { unfold ReadPacket_iter, recovering, ReadPacket_body.
    unfold bind at 1. rewrite Hspec. reflexivity. }
  exists s'. split; [exact (@ReadPacket_stops s s' e fuel Hopen Hiter)|].
  split; [exact Hiter|]. split; [exact Hc|]. split; [exact Hcc|].
  rewrite Hrch, Hwch, Hn, Hr0, Hn0. repeat split.
Qed.

(** X5.  When the header cannot be read, be it the end of the stream or
    any other read error, [read0] closes the session and the read loop
    ends: [ReadPacket] returns with the session and both queues closed,
    the connection counter one lower and nothing published. *)
Theorem read_error_ends_loop
  (s : Session) (e : error) (fuel : nat)
  (Hopen : isClose s = false)
  (Hok : session_ok s)
  (Hlen : 0 <= PACKET_HEAD_LEN)
  (Herr : read_error (conn s) (Z.to_nat PACKET_HEAD_LEN) = Some e) :
  exists s',
    ReadPacket (S fuel) s = (Ret tt, s') /\
    ReadPacket_iter s = (Ret (Some e), s') /\
    isClose s' = true /\
    conn_closed (conn s') = true /\
    chan_closed (ReadChannel s') = true /\
    chan_closed (WriteChannel s') = true /\
    buf (ReadChannel s') = buf (ReadChannel s) /\
    connections s' = option_map (fun n => n - 1) (connections s).
Proof.
  destruct (@read_error_turn s e fuel Hopen Hok Hlen Herr)
    as (s' & Hloop & Hiter & Hc & Hcc & Hrc & Hwc & Hbuf & Hn).
  exists s'. split; [exact Hloop|]. split; [exact Hiter|].
  split; [exact Hc|]. split; [exact Hcc|]. split; [exact Hrc|].
  split; [exact Hwc|]. split; [exact Hbuf|exact Hn].
Qed.

(** X6.  When the stream breaks off inside a body, the turn of the read
    loop returns the read error with the session closed, and the loop
    ends; the packet is not published. *)
Theorem truncated_body_ends_loop
  (s s1 : Session) (hbuf : bytes) (head : PacketHeader) (e : error) (fuel : nat)
  (Hopen : isClose s = false)
  (Hok : session_ok s)
  (Hhead : read0 PACKET_HEAD_LEN s = (Ret (hbuf, None), s1))
  (Hdec : UnmarshalHeader hbuf = (head, None))
  (Hmin : 0 <= BodyLen head)
  (Hmax : BodyLen head <= MAX_PACKET_BYTES)
  (Herr : read_error (conn s1) (Z.to_nat (BodyLen head)) = Some e) :
  exists s',
    ReadPacket (S fuel) s = (Ret tt, s') /\
    ReadPacket_iter s = (Ret (Some e), s') /\
    isClose s' = true /\
    chan_closed (ReadChannel s') = true /\
    buf (ReadChannel s') = buf (ReadChannel s) /\
    connections s' = option_map (fun n => n - 1) (connections s).
Proof.
  destruct (read0_success _ _ Hhead) as (_ & Hs1 & _).
  pose proof (read0_spec s1 Hmin) as Hspec. rewrite Herr in Hspec.
  set (s0 := if conn_closed (conn s1) then s1
             else advance (Z.to_nat (BodyLen head)) s1) in Hspec.
  assert (Ho0 : isClose s0 = false)
    by (unfold s0; destruct (conn_closed (conn s1)); subst s1; exact Hopen).
  assert (Hok0 : session_ok s0)
    by (unfold s0; destruct (conn_closed (conn s1)); subst s1; exact Hok).
  assert (Hr0 : ReadChannel s0 = ReadChannel s)
    by (unfold s0; destruct (conn_closed (conn s1)); subst s1; reflexivity).
  assert (Hn0 : connections s0 = connections s)
    by (unfold s0; destruct (conn_closed (conn s1)); subst s1; reflexivity).
  destruct (fail_read_open e Ho0 Hok0)
    as (s' & Hfail & Hc & Hcc & Hrch & Hwch & Hn & _ & _).
  rewrite Hfail in Hspec.
  assert (Hiter : ReadPacket_iter s =
                  (Ret (Some e),
                   record (EvLog LError "Session|ReadBody|%s|FAIL|CLOSE SESSION|%v|bodyLen:%d") s')).
  { unfold ReadPacket_iter, recovering, ReadPacket_body.
    unfold bind at 1. rewrite Hhead. cbn iota beta. rewrite Hdec.
    apply Z.ltb_ge in Hmax. cbn iota beta. rewrite Hmax.
    unfold bind at 1. rewrite Hspec. reflexivity. }
  eexists. split; [exact (@ReadPacket_stops s _ e fuel Hopen Hiter)|].
  split; [exact Hiter|]. fields. unfold connections in *. fields.
  rewrite Hrch, Hn, Hr0, Hn0. repeat split. exact Hc.
Qed.

End ReadTurns.

Section ReadTurnsRuns.

#[local] Existing Instance Fixture.packet_pkg.
#[local] Existing Instance Fixture.codec.

(** A one-byte packet on the stream of a fresh session. *)
Lemma decoded_packet_is_published_witness :
  let s := Fixture.session [RData [Byte.x01; Byte.x01; Byte.x41]] [] in
  exists s',
    ReadPacket_iter s = (Ret None, s') /\
    buf (ReadChannel s') =
      [Some (mkPacket (mkHeader 1 [Byte.x01]) [Byte.x41] [Byte.x41])] /\
    isClose s' = false /\
    option_map ReadFlow (FlowStat (rc s')) = Some 1 /\
    option_map ReadBytesFlow (FlowStat (rc s')) = Some 3.
Proof.
  intros s.
  destruct (@decoded_packet_is_published Fixture.packet_pkg Fixture.codec
              s (advance 2 s) (advance 1 (advance 2 s))
              [Byte.x01; Byte.x01] [Byte.x41] (mkHeader 1 [Byte.x01])
              (Some (mkPacket (mkHeader 1 [Byte.x01]) [Byte.x41] [Byte.x41])))
    as (s' & Hrun & Hbuf & Hcl & _ & Hrf & Hrb).
  - vm_compute. reflexivity.
  - reflexivity.
  - vm_compute. discriminate.
  - vm_compute. reflexivity.
  - reflexivity.
  - reflexivity.
  - vm_compute. reflexivity.
  - exists s'. split; [exact Hrun|]. split; [rewrite Hbuf; reflexivity|].
    split; [rewrite Hcl; reflexivity|].
    split; [rewrite Hrf; reflexivity|rewrite Hrb; reflexivity].
Defined.

(** The same packet when the read queue already holds its two packets. *)
Lemma full_read_queue_parks_witness :
  let s := set_ReadChannel (mkChan [None; None] 2 false)
             (Fixture.session [RData [Byte.x01; Byte.x01; Byte.x41]] []) in
  fst (ReadPacket_iter s) = Parked /\
  buf (ReadChannel (exec ReadPacket_iter s)) = [None; None].
Proof.
  intros s.
  destruct (@full_read_queue_parks Fixture.packet_pkg Fixture.codec
              s (advance 2 s) (advance 1 (advance 2 s))
              [Byte.x01; Byte.x01] [Byte.x41] (mkHeader 1 [Byte.x01])
              (Some (mkPacket (mkHeader 1 [Byte.x01]) [Byte.x41] [Byte.x41])))
    as (Hrun & Hch & _).
  - vm_compute. reflexivity.
  - reflexivity.
  - vm_compute. discriminate.
  - vm_compute. reflexivity.
  - reflexivity.
  - reflexivity.
  - vm_compute. discriminate.
  - unfold exec. rewrite Hrun. cbn [fst snd]. rewrite Hch. split; reflexivity.
Defined.

(** The stream ends before a header. *)
Lemma read_error_ends_loop_witness :
  let s := Fixture.session [] [] in
  exists s',
    ReadPacket 1 s = (Ret tt, s') /\
    ReadPacket_iter s = (Ret (Some EOF), s') /\
    isClose s' = true /\
    connections s' = Some 0.
Proof.
  intros s.
  destruct (@read_error_ends_loop Fixture.packet_pkg Fixture.codec s EOF 0%nat)
    as (s' & Hloop & Hiter & Hc & _ & _ & _ & _ & Hn).
  - reflexivity.
  - split; [discriminate|]. intros _. split; reflexivity.
  - vm_compute. discriminate.
  - reflexivity.
  - exists s'. split; [exact Hloop|]. split; [exact Hiter|].
    split; [exact Hc|]. rewrite Hn. reflexivity.
Defined.

(** A header that announces three bytes, followed by one. *)
Lemma truncated_body_ends_loop_witness :
  let s := Fixture.session [RData [Byte.x01; Byte.x03; Byte.x41]] [] in
  exists s',
    ReadPacket 1 s = (Ret tt, s') /\
    isClose s' = true /\
    buf (ReadChannel s') = [].
Proof.
  intros s.
  destruct (@truncated_body_ends_loop Fixture.packet_pkg Fixture.codec
              s (advance 2 s) [Byte.x01; Byte.x03] (mkHeader 3 [Byte.x01]) EOF 0%nat)
    as (s' & Hloop & _ & Hc & _ & Hbuf & _).
  - reflexivity.
  - split; [discriminate|]. intros _. split; reflexivity.
  - vm_compute. reflexivity.
  - reflexivity.
  - vm_compute. discriminate.
  - vm_compute. discriminate.
  - reflexivity.
  - exists s'. split; [exact Hloop|]. split; [exact Hc|].
    rewrite Hbuf. reflexivity.
Defined.

End ReadTurnsRuns.

Section StrictReadRuns.

#[local] Existing Instance StrictFixture.packet_pkg.
#[local] Existing Instance Fixture.codec.

(** A header with the length byte [0xff], which the strict layout reads as
    [-1], followed by a good packet: the loop recovers and publishes the
    second packet. *)
Lemma negative_body_length_is_recovered_witness :
  let s := Fixture.session
             [RData [Byte.x01; Byte.xff; Byte.x02; Byte.x01; Byte.x41]] [] in
  fst (ReadPacket_iter s) = Ret None /\
  isClose (exec ReadPacket_iter s) = false /\
  buf (ReadChannel (exec (ReadPacket 2) s)) =
    [Some (mkPacket (mkHeader 1 [Byte.x02]) [Byte.x41] [Byte.x41])].
Proof.
  intros s.
  destruct (@negative_body_length_is_recovered StrictFixture.packet_pkg Fixture.codec
              s (advance 2 s) [Byte.x01; Byte.xff] (mkHeader (-1) [Byte.x01]) 1%nat)
    as (Hiter & Ho & _ & _ & Hloop).
  - reflexivity.
  - vm_compute. reflexivity.
  - reflexivity.
  - vm_compute. discriminate.
  - reflexivity.
  - unfold exec. rewrite Hloop, Hiter. cbn [fst snd].
    split; [reflexivity|]. split; [exact Ho|].
    vm_compute. reflexivity.
Defined.

(** A header of kind zero, which the strict layout rejects. *)
Lemma bad_header_closes_session_witness :
  let s := Fixture.session [RData [Byte.x00; Byte.x01; Byte.x41]] [] in
  exists s',
    ReadPacket 1 s = (Ret tt, s') /\
    ReadPacket_iter s = (Ret (Some (ErrCodec "bad kind")), s') /\
    isClose s' = true /\
    buf (ReadChannel s') = [] /\
    connections s' = Some 0.
Proof.
  intros s.
  destruct (@bad_header_closes_session StrictFixture.packet_pkg Fixture.codec
              s (advance 2 s) [Byte.x00; Byte.x01] (mkHeader 0 [])
              (ErrCodec "bad kind") 0%nat)
    as (s' & Hiter & Hloop & Hc & _ & _ & _ & Hbuf & Hn).
  - reflexivity.
  - split; [discriminate|]. intros _. split; reflexivity.
  - vm_compute. reflexivity.
  - reflexivity.
  - exists s'. split; [exact Hloop|]. split; [exact Hiter|].
    split; [exact Hc|]. split; [rewrite Hbuf; reflexivity|].
    rewrite Hn. reflexivity.
Defined.

End StrictReadRuns.

(** * The stream as a sequence of bytes *)

Lemma first_error_data (evs : list REvent) :
  forall n, first_error evs n = None <-> (n <= length (data_prefix evs))%nat.
Proof.
  induction evs as [|[bs|e] evs IH]; intros n; cbn [first_error data_prefix length].
  - destruct (Nat.eqb_spec n 0); split; intros H; try lia; try reflexivity;
      discriminate.
  - rewrite length_app. destruct (Nat.leb_spec n (length bs)).
    + split; intros _; [lia|reflexivity].
    + rewrite IH. lia.
  - destruct (Nat.eqb_spec n 0); split; intros H; try lia; try reflexivity;
      discriminate.
Qed.

Lemma stream_take_data (evs : list REvent) :
  forall n, stream_take evs n = firstn n (data_prefix evs).
Proof.
  induction evs as [|[bs|e] evs IH]; intros n; cbn [stream_take data_prefix].
  - rewrite firstn_nil. reflexivity.
  - rewrite firstn_app. destruct (Nat.leb_spec n (length bs)).
    + replace (n - length bs)%nat with 0%nat by lia.
      rewrite firstn_O, app_nil_r. reflexivity.
    + rewrite IH. rewrite (@firstn_all2 _ n bs) by lia. reflexivity.
  - rewrite firstn_nil. reflexivity.
Qed.

Lemma stream_drop_data (evs : list REvent) :
  forall n, (n <= length (data_prefix evs))%nat ->
            data_prefix (stream_drop evs n) = skipn n (data_prefix evs).
Proof.
  induction evs as [|[bs|e] evs IH]; intros n Hn;
    cbn [stream_drop data_prefix length] in *.
  - rewrite skipn_nil. reflexivity.
  - rewrite length_app in Hn.
    destruct (Nat.eqb_spec n 0) as [->|Hn0]; [reflexivity|].
    rewrite skipn_app. destruct (Nat.leb_spec (length bs) n).
    + rewrite IH by lia.
      replace (skipn n bs) with (@nil byte) by (symmetry; apply skipn_all2; lia).
      reflexivity.
    + cbn [data_prefix]. replace (n - length bs)%nat with 0%nat by lia.
      reflexivity.
  - assert (n = 0)%nat by lia. subst n. reflexivity.
Qed.

(** [read0] on an open connection whose stream holds enough data. *)
Lemma read0_data (N : Z) (s : Session) :
  0 <= N ->
  conn_closed (conn s) = false ->
  (Z.to_nat N <= length (data_prefix (inbound (conn s))))%nat ->
  read0 N s =
    (Ret (firstn (Z.to_nat N) (data_prefix (inbound (conn s))), None),
     advance (Z.to_nat N) s) /\
  data_prefix (inbound (conn (advance (Z.to_nat N) s))) =
    skipn (Z.to_nat N) (data_prefix (inbound (conn s))).
Proof.
  intros HN Hopen Hdata.
  rewrite (read0_spec s HN).
  assert (Herr : read_error (conn s) (Z.to_nat N) = None).
  { unfold read_error. destruct (Z.to_nat N =? 0)%nat; [reflexivity|].
    rewrite Hopen. apply first_error_data. exact Hdata. }
  rewrite Herr, stream_take_data.
  split; [reflexivity|].
  unfold advance. fields. apply stream_drop_data. exact Hdata.
Qed.

(** X7.  [read0] does not depend on how the stream is cut into reads: on
    an open connection whose stream still delivers at least [N] bytes
    before its first error, it returns exactly the first [N] of them,
    changes nothing but the stream, and leaves the remaining bytes of the
    stream in place, whatever the sizes of the chunks. *)
Theorem read0_ignores_chunking (N : Z) (s : Session)
  (HN : 0 <= N)
  (Hopen : conn_closed (conn s) = false)
  (Hdata : (Z.to_nat N <= length (data_prefix (inbound (conn s))))%nat) :
  exists s',
    read0 N s =
      (Ret (firstn (Z.to_nat N) (data_prefix (inbound (conn s))), None), s') /\
    data_prefix (inbound (conn s')) =
      skipn (Z.to_nat N) (data_prefix (inbound (conn s))) /\
    s' = set_conn (conn s') s /\
    wire (conn s') = wire (conn s) /\
    conn_closed (conn s') = false.
Proof.
  destruct (read0_data s HN Hopen Hdata) as [Hrun Hrest].
  exists (advance (Z.to_nat N) s). split; [exact Hrun|].
  split; [exact Hrest|]. unfold advance. fields.
  split; [reflexivity|]. split; [reflexivity|exact Hopen].
Qed.

(** Five bytes that arrive one by one and five that arrive at once. *)
Lemma read0_ignores_chunking_witness :
  let a := Byte.x61 in let b := Byte.x62 in let c := Byte.x63 in
  let s1 := Fixture.session
              [RData [a]; RData []; RData [b]; RData [c]; RData [a]; RData [b]] [] in
  let s2 := Fixture.session [RData [a; b; c; a; b]] [] in
  fst (read0 3 s1) = Ret ([a; b; c], None) /\
  fst (read0 3 s2) = Ret ([a; b; c], None) /\
  data_prefix (inbound (conn (exec (read0 3) s1))) = [a; b] /\
  data_prefix (inbound (conn (exec (read0 3) s2))) = [a; b].
Proof.
  intros a b c s1 s2.
  destruct (@read0_ignores_chunking 3 s1) as (t1 & H1 & R1 & _);
    [lia|reflexivity|vm_compute; lia|].
  destruct (@read0_ignores_chunking 3 s2) as (t2 & H2 & R2 & _);
    [lia|reflexivity|vm_compute; lia|].
  unfold exec. rewrite H1, H2. cbn [fst snd]. rewrite R1, R2.
  repeat split.
Defined.

(** * A stream of frames *)

Section FrameStream.

Context {pkt : PacketPkg} {frameCodec : ICodec}.

(** The read loop on a stream that starts with a good frame. *)
Lemma frame_turn (fr : Frame) (rest : bytes) (s : Session) :
  frame_ok fr ->
  conn_closed (conn s) = false ->
  data_prefix (inbound (conn s)) = frame_bytes fr ++ rest ->
  chan_closed (ReadChannel s) = false ->
  chan_len (ReadChannel s) < cap (ReadChannel s) ->
  exists s',
    ReadPacket_iter s = (Ret None, s') /\
    ReadChannel s' =
      mkChan (buf (ReadChannel s) ++ [fr_packet fr]) (cap (ReadChannel s)) false /\
    WriteChannel s' = WriteChannel s /\
    isClose s' = isClose s /\
    conn_closed (conn s') = false /\
    data_prefix (inbound (conn s')) = rest /\
    (FlowStat (rc s) <> None -> FlowStat (rc s') <> None).
Proof.
  intros (Hlen & Hdec & Hbl & Hmax & Hgood) Hopen Hdata Hch Hroom.
  assert (HN : 0 <= PACKET_HEAD_LEN) by lia.
  assert (Hn : Z.to_nat PACKET_HEAD_LEN = length (fr_header fr)) by lia.
  destruct (@read0_data PACKET_HEAD_LEN s HN Hopen) as [Hhead Hrest1].
  { rewrite Hdata, Hn. unfold frame_bytes. rewrite !length_app. lia. }
  rewrite Hdata, Hn in Hhead, Hrest1. unfold frame_bytes in Hhead, Hrest1.
  rewrite <- app_assoc in Hhead, Hrest1.
  rewrite firstn_app, firstn_all, Nat.sub_diag, firstn_O, app_nil_r in Hhead.
  rewrite skipn_app, skipn_all, Nat.sub_diag, skipn_O in Hrest1.
  cbn [app] in Hrest1.
  set (s1 := advance (length (fr_header fr)) s) in *.
  assert (HB : 0 <= BodyLen (fr_head fr)) by lia.
  assert (Hb : Z.to_nat (BodyLen (fr_head fr)) = length (fr_body fr)) by lia.
  assert (Hopen1 : conn_closed (conn s1) = false) by exact Hopen.
  destruct (@read0_data (BodyLen (fr_head fr)) s1 HB Hopen1) as [Hbody Hrest2].
  { rewrite Hrest1, Hb, length_app. lia. }
  rewrite Hrest1, Hb in Hbody, Hrest2.
  rewrite firstn_app, firstn_all, Nat.sub_diag, firstn_O, app_nil_r in Hbody.
  rewrite skipn_app, skipn_all, Nat.sub_diag, skipn_O in Hrest2.
  cbn [app] in Hrest2.
  set (s2 := advance (length (fr_body fr)) s1) in *.
  destruct (@publish_turn pkt frameCodec s s1 s2 (fr_header fr) (fr_body fr)
              (fr_head fr) (fr_packet fr) Hhead Hdec Hmax Hbody Hgood Hch Hroom)
    as (s' & Hrun & Hrch & Hwch & Hcl & _ & _ & Hconn & Hfs).
  exists s'. split; [exact Hrun|]. split; [exact Hrch|]. split; [exact Hwch|].
  split; [exact Hcl|]. rewrite Hconn.
  split; [exact Hopen|]. split; [exact Hrest2|].
  rewrite Hfs. destruct (FlowStat (rc s)); [discriminate|congruence].
Qed.

(** The loop of [ReadPacket] goes on after a turn that returns nil. *)
Lemma ReadPacket_goes_on (s s' : Session) (fuel : nat) :
  isClose s = false ->
  ReadPacket_iter s = (Ret None, s') ->
  ReadPacket (S fuel) s = ReadPacket fuel s'.
Proof.
  intros Ho Hiter.
  change (ReadPacket (S fuel) s) with
    ((closed <- gets isClose ;;
      if closed then ret tt
      else err <- ReadPacket_iter ;;
           match err with Some _ => ret tt | None => ReadPacket fuel end) s).
  unfold bind at 1, gets. rewrite Ho. cbn iota beta.
  unfold bind at 1. rewrite Hiter. reflexivity.
Qed.

(** X8.  Packets are published in the order of their arrival.  On an open
    session whose stream delivers the bytes of the frames [frames], one
    after the other in chunks of any size, and then ends or fails,
    [ReadPacket] publishes the packets of the frames on the read queue in
    stream order, provided the queue has room for them, then closes the
    session on the read error behind the last frame and returns. *)
Theorem frames_are_published_in_order (frames : list Frame) :
  forall (s : Session) (fuel : nat)
    (Hopen : isClose s = false)
    (Hok : session_ok s)
    (Hconn : conn_closed (conn s) = false)
    (Hpos : 0 < PACKET_HEAD_LEN)
    (Hframes : Forall frame_ok frames)
    (Hdata : data_prefix (inbound (conn s)) = frames_bytes frames)
    (Hroom : chan_len (ReadChannel s) + Z.of_nat (length frames)
             <= cap (ReadChannel s))
    (Hfuel : (length frames < fuel)%nat),
  exists s',
    ReadPacket fuel s = (Ret tt, s') /\
    buf (ReadChannel s') = buf (ReadChannel s) ++ map fr_packet frames /\
    isClose s' = true /\
    chan_closed (ReadChannel s') = true.
Proof.
  induction frames as [|fr frames IH];
    intros s fuel Hopen Hok Hconn Hpos Hframes Hdata Hroom Hfuel;
    (destruct fuel as [|fuel]; [simpl in Hfuel; lia|]).
  - (* the stream holds no further frame: the header read fails *)
    assert (Herr : exists e,
               read_error (conn s) (Z.to_nat PACKET_HEAD_LEN) = Some e).
    { unfold read_error.
      replace (Z.to_nat PACKET_HEAD_LEN =? 0)%nat with false
        by (symmetry; apply Nat.eqb_neq; lia).
      rewrite Hconn.
      destruct (first_error (inbound (conn s)) (Z.to_nat PACKET_HEAD_LEN)) as [e|] eqn:E;
        [eauto|].
      apply first_error_data in E. rewrite Hdata in E. simpl in E. lia. }
    destruct Herr as [e Herr].
    destruct (@read_error_turn pkt frameCodec s e fuel Hopen Hok ltac:(lia) Herr)
      as (s' & Hloop & _ & Hc & _ & Hrc & _ & Hbuf & _).
    exists s'. split; [exact Hloop|]. cbn [map]. rewrite app_nil_r.
    split; [exact Hbuf|]. split; [exact Hc|exact Hrc].
  - (* one frame, then the rest *)
    inversion Hframes as [|fr' frames' Hfr Hrest]; subst.
    destruct Hok as [Hfs Hch]. destruct (Hch Hopen) as [Hw Hr].
    cbn [length] in Hroom, Hfuel.
    destruct (@frame_turn fr (frames_bytes frames) s Hfr Hconn Hdata Hr ltac:(lia))
      as (s1 & Hrun & Hrch & Hwch & Hcl & Hconn1 & Hdata1 & Hfs1).
    rewrite (@ReadPacket_goes_on s s1 fuel Hopen Hrun).
    destruct (IH s1 fuel) as (s' & Hloop & Hbuf & Hc & Hrc).
    + rewrite Hcl. exact Hopen.
    + split; [exact (Hfs1 Hfs)|]. intros _. rewrite Hrch, Hwch.
      split; [exact Hw|reflexivity].
    + exact Hconn1.
    + exact Hpos.
    + exact Hrest.
    + exact Hdata1.
    + rewrite Hrch. unfold chan_len in *. cbn [buf cap].
      rewrite length_app. cbn [length]. lia.
    + lia.
    + exists s'. split; [exact Hloop|]. rewrite Hbuf, Hrch. cbn [buf map].
      rewrite <- app_assoc. split; [reflexivity|]. split; [exact Hc|exact Hrc].
Qed.

End FrameStream.

Section FrameStreamRuns.

#[local] Existing Instance Fixture.packet_pkg.
#[local] Existing Instance Fixture.codec.

(** Two packets whose seven bytes arrive in three chunks that cut through
    a header and a body. *)
Lemma frames_are_published_in_order_witness :
  let A := mkFrame [Byte.x01; Byte.x01] (mkHeader 1 [Byte.x01]) [Byte.x41]
                   (Some (mkPacket (mkHeader 1 [Byte.x01]) [Byte.x41] [Byte.x41])) in
  let B := mkFrame [Byte.x02; Byte.x02] (mkHeader 2 [Byte.x02]) [Byte.x42; Byte.x43]
                   (Some (mkPacket (mkHeader 2 [Byte.x02]) [Byte.x42; Byte.x43]
                                   [Byte.x42; Byte.x43])) in
  let s := Fixture.session
             [RData [Byte.x01]; RData [Byte.x01; Byte.x41; Byte.x02];
              RData [Byte.x02; Byte.x42; Byte.x43]] [] in
  exists s',
    ReadPacket 3 s = (Ret tt, s') /\
    buf (ReadChannel s') = [fr_packet A; fr_packet B] /\
    isClose s' = true.
Proof.
  intros A B s.
  destruct (@frames_are_published_in_order Fixture.packet_pkg Fixture.codec
              [A; B] s 3%nat)
    as (s' & Hloop & Hbuf & Hc & _).
  - reflexivity.
  - split; [discriminate|]. intros _. split; reflexivity.
  - reflexivity.
  - reflexivity.
  - repeat constructor; vm_compute; discriminate.
  - reflexivity.
  - vm_compute. discriminate.
  - simpl. lia.
  - exists s'. split; [exact Hloop|]. split; [rewrite Hbuf; reflexivity|exact Hc].
Defined.

End FrameStreamRuns.

(** * Further properties of the write path *)

Section WriteBatches.

Context {frameCodec : ICodec}.

(** [write0] once its retry loop has come to an end: after a [break] it
    flushes and counts, after a [return] it does nothing more. *)
Lemma write0_after_loop (tlv : list Packet) (s s1 : Session) :
  wire_bytes tlv <> [] ->
  write0_loop (write_budget (conn s)) (wire_bytes tlv) 0 (wire_bytes tlv)
              (record_all (drop_logs tlv) s) = (Ret true, s1) ->
  exists s',
    write0 tlv s = (Ret tt, s') /\
    conn s' = snd (Flush (bw s1) (conn s1)) /\
    bw s' = snd (fst (Flush (bw s1) (conn s1))) /\
    isClose s' = isClose s1 /\
    lasttime s' = lasttime s1 /\
    WriteChannel s' = WriteChannel s1 /\
    ReadChannel s' = ReadChannel s1 /\
    FlowStat (rc s') =
      option_map
        (fun f => flow_Incr (flow_Incr f CWriteFlow (wrap32 (Z.of_nat (length tlv))))
                            CWriteBytesFlow
                            (wrap32 (Z.of_nat (length (wire_bytes tlv)))))
        (FlowStat (rc s1)).
Proof.
  intros Hne Hloop.
  unfold write0. unfold bind at 1. rewrite encode_all_spec. cbn [app].
  destruct (wire_bytes tlv) as [|x batch] eqn:Hbatch; [congruence|].
  cbn [length Nat.leb]. unfold bind at 1, gets. unfold bind at 1.
  change (conn (record_all (drop_logs tlv) s)) with (conn s).
  rewrite Hloop. cbv beta iota.
  unfold bind at 1, bw_Flush.
  destruct (Flush (bw s1) (conn s1)) as [[e b] c]. cbv beta iota. cbn [fst snd].
  unfold bind at 1, has_FlowStat, gets. cbv beta iota. fields.
  destruct (FlowStat (rc s1)) as [f|] eqn:Hf; cbv beta iota.
  - unfold bind, Incr. fields. rewrite Hf. cbv beta iota. fields.
    eexists. split; [reflexivity|]. fields. repeat split.
  - unfold ret. eexists. split; [reflexivity|]. fields. rewrite Hf.
    repeat split.
Qed.


(** X9.  A batch in which no packet has an encoding puts nothing on the
    wire: [write0] logs each packet and returns before the write loop;
    connection, writer, counters and flags are what they were. *)
Theorem unencodable_batch_writes_nothing (tlv : list Packet) (s : Session)
  (Hnone : wire_bytes tlv = []) :
  write0 tlv s = (Ret tt, record_all (drop_logs tlv) s) /\
  conn (record_all (drop_logs tlv) s) = conn s /\
  bw (record_all (drop_logs tlv) s) = bw s /\
  rc (record_all (drop_logs tlv) s) = rc s /\
  isClose (record_all (drop_logs tlv) s) = isClose s /\
  (Forall (fun t => encodable t = false) tlv ->
   length (drop_logs tlv) = length tlv).
Proof.
  split.
  - unfold write0. unfold bind at 1. rewrite encode_all_spec. cbn [app].
    rewrite Hnone. reflexivity.
  - repeat split. intros Hall. unfold drop_logs. rewrite length_map.
    clear Hnone. induction tlv as [|t tlv IH]; [reflexivity|].
    inversion Hall; subst. cbn [filter]. rewrite H1. cbn [negb length].
    rewrite IH by assumption. reflexivity.
Qed.


(** The last loop of [WritePacket] on a closed queue. *)
Lemma discard_left_closed (q : list PacketPtr) :
  forall s,
    buf (WriteChannel s) = q ->
    chan_closed (WriteChannel s) = true ->
    discard_left (S (length q)) s =
    (Ret tt, set_WriteChannel (mkChan [] (cap (WriteChannel s)) true) s).
Proof.
  induction q as [|p q IH]; intros s Hq Hc.
  - cbn [discard_left length]. unfold bind, recv, chan_recv. cbn [get_chan].
    rewrite Hq, Hc. cbv beta iota. cbn [snd set_chan]. unfold ret.
    f_equal. apply session_ext; fields; try reflexivity.
    destruct (WriteChannel s) as [b c cl]. cbn [buf cap chan_closed] in *.
    subst. reflexivity.
  - cbn [length]. change (discard_left (S (S (length q))) s)
      with ((r <- recv WriteCh ;;
             if snd r then discard_left (S (length q)) else ret tt) s).
    unfold bind, recv, chan_recv. cbn [get_chan]. rewrite Hq.
    cbv beta iota. cbn [snd set_chan].
    rewrite IH by (first [reflexivity|exact Hc]). fields.
    reflexivity.
Qed.

(** X11.  [WritePacket] on a closed session, whose write queue [Close] has
    closed, writes nothing: it skips its batching loop, takes the packets
    left in the queue off it one by one without encoding them, and
    returns when the queue is seen closed and empty. *)
Theorem closed_session_drains_queue (clock : list Time) (s : Session)
  (Hclosed : isClose s = true)
  (Hchan : chan_closed (WriteChannel s) = true) :
  WritePacket clock s =
    (Ret tt, set_WriteChannel (mkChan [] (cap (WriteChannel s)) true) s) /\
  conn (exec (WritePacket clock) s) = conn s /\
  bw (exec (WritePacket clock) s) = bw s /\
  lasttime (exec (WritePacket clock) s) = lasttime s /\
  buf (WriteChannel (exec (WritePacket clock) s)) = [].
Proof.
  assert (Hrun : WritePacket clock s =
                 (Ret tt, set_WriteChannel (mkChan [] (cap (WriteChannel s)) true) s)).
  { unfold WritePacket. unfold bind at 1.
    assert (Hloop : WritePacket_loop clock [] s = (Ret tt, s)).
    { destruct clock; cbn [WritePacket_loop]; unfold bind, gets;
        rewrite Hclosed; reflexivity. }
    rewrite Hloop. cbv beta iota. unfold bind at 1, gets. cbv beta iota.
    apply discard_left_closed; [reflexivity|exact Hchan]. }
  split; [exact Hrun|]. unfold exec. rewrite Hrun. cbn [snd]. fields.
  repeat split.
Qed.

(** The first [bw.Write] of a batch that does not fit the buffer, on a
    connection whose next write takes [k] bytes and reports [e]. *)
Lemma bw_Write_through_fail
  (s : Session) (batch : bytes) (k : nat) (e : error) (sc : list WOutcome) :
  writer_clean (bw s) ->
  conn_closed (conn s) = false ->
  wscript (conn s) = WFail k e :: sc ->
  (wsize (bw s) < length batch)%nat ->
  bw_Write batch s =
  (Ret (Nat.min k (length batch), Some e),
   set_conn (conn_set_out (conn s)
               (wire (conn s) ++ firstn (Nat.min k (length batch)) batch) sc)
            (set_bw (mkWriter [] (wsize (bw s)) (Some e)) s)).
Proof.
  intros (Hwb & Hwe & Hws) Hopen Hsc Hbig.
  unfold bw_Write, write_budget. rewrite Hsc. cbn [length Nat.add].
  assert (Hbw : bw s = mkWriter [] (wsize (bw s)) None)
    by (destruct (bw s); simpl in *; subst; reflexivity).
  rewrite Hbw. cbn [bufio_Write]. unfold Available.
  cbn [wbuf wsize werr length Nat.sub]. rewrite Nat.sub_0_r.
  replace (wsize (bw s) <? length batch)%nat with true
    by (symmetry; apply Nat.ltb_lt; exact Hbig).
  cbn [andb]. unfold conn_Write. rewrite Hopen, Hsc. cbv beta iota.
  rewrite (bufio_Write_sticky _ (mkWriter [] (wsize (bw s)) (Some e)) _ _ _ eq_refl).
  cbn [Nat.add]. reflexivity.
Qed.

(** [bw.Write] followed by [Flush] on a clean writer and a healthy
    connection, for any [p]. *)
Lemma bw_Write_healthy (p : bytes) (s : Session) :
  writer_clean (bw s) -> conn_healthy (conn s) ->
  exists s1,
    bw_Write p s = (Ret (length p, None), s1) /\
    Flush (bw s1) (conn s1) =
      (None, mkWriter [] (wsize (bw s)) None,
       match p with [] => conn s | _ :: _ => conn_accept (conn s) p end) /\
    s1 = set_conn (conn s1) (set_bw (bw s1) s).
Proof.
  intros (Hwb & Hwe & Hws) Hc.
  assert (Hbw : bw s = mkWriter [] (wsize (bw s)) None)
    by (destruct (bw s); simpl in *; subst; reflexivity).
  unfold bw_Write, write_budget.
  replace (length (wscript (conn s)) + 3)%nat
    with (S (S (S (length (wscript (conn s)))))) by lia.
  destruct p as [|x p].
  - rewrite Hbw. cbn [bufio_Write length]. unfold Available.
    cbn [wbuf wsize werr length].
    replace (wsize (bw s) - 0 <? 0)%nat with false
      by (symmetry; apply Nat.ltb_ge; lia).
    cbn [andb app Nat.add]. eexists. split; [reflexivity|]. fields.
    split; reflexivity.
  - destruct (@bufio_Write_Flush_healthy (wsize (bw s))
                (S (length (wscript (conn s)))) (conn s) (x :: p)
                Hws Hc ltac:(discriminate)) as (b1 & c1 & Hw & Hf).
    rewrite <- Hbw in Hw. rewrite Hw. eexists. split; [reflexivity|]. fields.
    split; [exact Hf|reflexivity].
Qed.

(** The retry loop of [write0] when the first write of a batch that does
    not fit the buffer is cut short with [io.ErrShortWrite]. *)
Lemma write0_loop_retry
  (s : Session) (batch : bytes) (k : nat) (sc : list WOutcome) :
  writer_clean (bw s) ->
  conn_closed (conn s) = false ->
  wscript (conn s) = WFail k ErrShortWrite :: sc ->
  Forall (fun o => o = WAll) sc ->
  (wsize (bw s) < length batch)%nat ->
  exists s1 c,
    write0_loop (write_budget (conn s)) batch 0 batch s = (Ret true, s1) /\
    Flush (bw s1) (conn s1) = (None, mkWriter [] (wsize (bw s)) None, c) /\
    wire c = wire (conn s) ++ batch /\
    conn_healthy c /\
    isClose s1 = isClose s /\
    rc s1 = rc s.
Proof.
  intros Hb Hopen Hsc Hall Hbig.
  pose proof Hb as (Hwb & Hwe & Hws).
  unfold write_budget. rewrite Hsc. cbn [length Nat.add].
  cbn [write0_loop]. unfold bind at 1.
  rewrite (@bw_Write_through_fail s batch k ErrShortWrite sc Hb Hopen Hsc Hbig).
  cbv beta iota. unfold bind at 1. unfold bind at 1, log, modify.
  cbv beta iota. cbn [is_ErrShortWrite negb].
  unfold bind at 1, bw_Reset, modify, ret. cbv beta iota. cbn [Nat.add].
  set (n := Nat.min k (length batch)).
  set (c1 := conn_set_out (conn s) (wire (conn s) ++ firstn n batch) sc).
  set (s2 := set_bw _ (record _ _)).
  assert (Hb2 : writer_clean (bw s2)) by (repeat split; exact Hws).
  assert (Hc2 : conn_healthy (conn s2)) by (split; [exact Hopen|exact Hall]).
  destruct (Nat.eqb_spec n (length batch)) as [Hdone|Hmore].
  - (* everything was taken before the error *)
    exists s2, c1. split; [reflexivity|].
    split; [reflexivity|]. split.
    + unfold c1. cbn [wire conn_set_out]. rewrite Hdone, firstn_all. reflexivity.
    + split; [exact Hc2|]. split; reflexivity.
  - assert (Hn : (n < length batch)%nat) by (unfold n in *; lia).
    replace (length batch <? n)%nat with false
      by (symmetry; apply Nat.ltb_ge; lia).
    replace (length sc + 3)%nat with (S (length sc + 2)) by lia.
    cbn [write0_loop]. unfold bind at 1.
    destruct (@bw_Write_healthy (skipn n batch) s2 Hb2 Hc2)
      as (s3 & Hw & Hf & Hs3).
    rewrite Hw. cbv beta iota. unfold bind at 1, ret. cbv beta iota.
    rewrite length_skipn.
    replace (n + (length batch - n) =? length batch)%nat with true
      by (symmetry; apply Nat.eqb_eq; lia).
    destruct (skipn n batch) as [|y rest] eqn:Hsk.
    { apply (f_equal (@length byte)) in Hsk. rewrite length_skipn in Hsk.
      simpl in Hsk. lia. }
    exists s3, (conn_accept c1 (y :: rest)). split; [reflexivity|].
    split; [exact Hf|]. split.
    + unfold c1. cbn [wire conn_accept conn_set_out].
      rewrite <- Hsk, <- app_assoc, firstn_skipn. reflexivity.
    + split; [exact (conn_accept_healthy (y :: rest) Hc2)|].
      rewrite Hs3. split; reflexivity.
Qed.

(** X12.  When the first write of a batch larger than the buffer of the
    writer is cut short, the connection taking [k] bytes and the writer
    reporting [io.ErrShortWrite], [write0] resets the writer and writes
    the rest of the batch from byte [k] on: the wire receives the batch
    exactly once and whole, the session stays as open as it was and the
    writer is left clean. *)
Theorem short_write_is_retried
  (tlv : list Packet) (s : Session) (k : nat) (sc : list WOutcome)
  (Hb : writer_clean (bw s))
  (Hopen : conn_closed (conn s) = false)
  (Hsc : wscript (conn s) = WFail k ErrShortWrite :: sc)
  (Hall : Forall (fun o => o = WAll) sc)
  (Hbig : (wsize (bw s) < length (wire_bytes tlv))%nat) :
  exists s',
    write0 tlv s = (Ret tt, s') /\
    wire (conn s') = wire (conn s) ++ wire_bytes tlv /\
    isClose s' = isClose s /\
    writer_clean (bw s') /\
    conn_healthy (conn s').
Proof.
  assert (Hne : wire_bytes tlv <> [])
    by (intros E; rewrite E in Hbig; simpl in Hbig; lia).
  destruct (@write0_loop_retry (record_all (drop_logs tlv) s) (wire_bytes tlv)
              k sc Hb Hopen Hsc Hall Hbig)
    as (s1 & c & Hloop & Hf & Hwire & Hc & Hcl & _).
  destruct (@write0_after_loop tlv s s1 Hne Hloop)
    as (s' & Hrun & Hconn & Hbw & Hcl' & _).
  exists s'. split; [exact Hrun|]. rewrite Hconn, Hbw, Hcl', Hf. cbn [fst snd].
  split; [exact Hwire|]. split; [exact Hcl|].
  split; [|exact Hc]. destruct Hb as (_ & _ & Hws). repeat split. exact Hws.
Qed.


End WriteBatches.

(** * The write loop over several turns *)

Section WriteLoop.

Context {frameCodec : ICodec}.

Lemma nonnil_app (a b : list PacketPtr) : nonnil (a ++ b) = nonnil a ++ nonnil b.
Proof. unfold nonnil. apply flat_map_app. Qed.

Lemma wire_bytes_app (a b : list Packet) :
  wire_bytes (a ++ b) = wire_bytes a ++ wire_bytes b.
Proof.
  unfold wire_bytes. rewrite filter_app, map_app, concat_app. reflexivity.
Qed.

(** One turn of the write loop on a healthy session with a queue that is
    not empty. *)
Lemma write_turn_healthy (now : Time) (s : Session) (q : list PacketPtr) :
  buf (WriteChannel s) = q -> q <> [] ->
  writer_clean (bw s) -> conn_healthy (conn s) ->
  exists s',
    WritePacket_iter now [] s = (Ret [], s') /\
    wire (conn s') = wire (conn s) ++ wire_bytes (nonnil (firstn max_batch q)) /\
    WriteChannel s' =
      mkChan (skipn max_batch q) (cap (WriteChannel s)) (chan_closed (WriteChannel s)) /\
    isClose s' = isClose s /\
    writer_clean (bw s') /\ conn_healthy (conn s').
Proof.
  intros Hq Hne Hb Hc.
  destruct q as [|p0 rest]; [congruence|]. clear Hne.
  unfold WritePacket_iter.
  unfold bind at 1, recv, chan_recv. cbn [get_chan]. rewrite Hq.
  cbn [fst set_chan]. unfold bind at 1, gets.
  set (s1 := set_WriteChannel _ s).
  assert (Hlen : Z.to_nat (Z.min (chan_len (WriteChannel s1)) 100) =
                 Nat.min (length rest) 100).
  { unfold chan_len, s1. simpl. lia. }
  rewrite Hlen. unfold bind at 1.
  rewrite take_more_spec by (unfold s1; simpl; lia).
  set (s2 := set_WriteChannel _ s1).
  change (buf (WriteChannel s1)) with rest.
  rewrite firstn_min_length, append_packet_nonnil. cbn [app].
  assert (Hbatch : nonnil [p0] ++ nonnil (firstn 100 rest) =
                   nonnil (firstn max_batch (p0 :: rest))).
  { unfold max_batch. cbn [firstn]. unfold nonnil. cbn [flat_map].
    rewrite app_nil_r. reflexivity. }
  rewrite Hbatch.
  assert (Hch2 : WriteChannel s2 =
                 mkChan (skipn max_batch (p0 :: rest)) (cap (WriteChannel s))
                        (chan_closed (WriteChannel s))).
  { change (skipn max_batch (p0 :: rest)) with (skipn 100 rest).
    unfold s2, s1. fields. rewrite skipn_min_length. reflexivity. }
  destruct (nonnil (firstn max_batch (p0 :: rest))) as [|t tlv] eqn:Htlv.
  - cbn [length Nat.ltb Nat.leb]. eexists. split; [reflexivity|].
    unfold wire_bytes. cbn [filter map concat]. rewrite app_nil_r.
    split; [reflexivity|]. split; [exact Hch2|]. split; [reflexivity|].
    split; [exact Hb|exact Hc].
  - cbn [length Nat.ltb Nat.leb].
    destruct (@write0_healthy_facts frameCodec (t :: tlv) s2 Hb Hc)
      as (s3 & Hw & Hwire & Hbw & Hc3 & Hcl & Hwc & _).
    unfold bind at 1. rewrite Hw. cbn iota beta.
    unfold bind, modify, ret. eexists. split; [reflexivity|].
    cbn [conn set_lasttime WriteChannel isClose bw].
    rewrite Hwire, Hwc, Hbw, Hcl.
    split; [reflexivity|]. split; [exact Hch2|]. split; [reflexivity|].
    split; [exact Hb|exact Hc3].
Qed.

(** The batching loop of [WritePacket] on a healthy session: it works
    off the queue and parks. *)
Lemma write_loop_healthy (clock : list Time) :
  forall (s : Session) (q : list PacketPtr),
    isClose s = false ->
    chan_closed (WriteChannel s) = false ->
    buf (WriteChannel s) = q ->
    writer_clean (bw s) -> conn_healthy (conn s) ->
    (length q < length clock)%nat ->
    exists s',
      WritePacket_loop clock [] s = (Parked, s') /\
      wire (conn s') = wire (conn s) ++ wire_bytes (nonnil q) /\
      buf (WriteChannel s') = [] /\
      isClose s' = false.
Proof.
  induction clock as [|now clock IH]; intros s q Hopen Hchan Hq Hb Hc Hclock;
    [simpl in Hclock; lia|].
  cbn [WritePacket_loop]. unfold bind at 1, gets. rewrite Hopen. cbv beta iota.
  destruct q as [|p0 rest] eqn:Eq.
  - (* nothing queued: the turn parks on its receive *)
    exists s. unfold bind, WritePacket_iter, bind, recv, chan_recv.
    cbn [get_chan]. rewrite Hq, Hchan.
    split; [reflexivity|]. unfold wire_bytes. cbn. rewrite app_nil_r.
    split; [reflexivity|]. split; [reflexivity|exact Hopen].
  - rewrite <- Eq in *.
    assert (Hne : q <> []) by (rewrite Eq; discriminate).
    destruct (@write_turn_healthy now s q Hq Hne Hb Hc)
      as (s1 & Hrun & Hwire & Hch & Hcl & Hb1 & Hc1).
    unfold bind at 1. rewrite Hrun. cbv beta iota.
    destruct (IH s1 (skipn max_batch q)) as (s' & Hrest & Hwire' & Hbuf & Hcl').
    + rewrite Hcl. exact Hopen.
    + rewrite Hch. exact Hchan.
    + rewrite Hch. reflexivity.
    + exact Hb1.
    + exact Hc1.
    + rewrite length_skipn. cbn [length] in Hclock.
      assert (0 < length q)%nat by (rewrite Eq; simpl; lia).
      unfold max_batch. lia.
    + exists s'. split; [exact Hrest|]. rewrite Hwire', Hwire, <- app_assoc.
      rewrite <- wire_bytes_app, <- nonnil_app, firstn_skipn.
      split; [reflexivity|]. split; [exact Hbuf|exact Hcl'].
Qed.

(** X14.  Packets go out in the order they were queued, across batches.
    On an open session with an open write queue holding the pointers [q],
    a clean writer and a connection that takes every write, [WritePacket]
    writes the encodings of all queued packets that have one, in queue
    order, in turns of up to [max_batch] pointers, and then parks on the
    empty queue with the session still open. *)
Theorem queue_is_written_in_order (clock : list Time) :
  forall (s : Session) (q : list PacketPtr)
    (Hopen : isClose s = false)
    (Hchan : chan_closed (WriteChannel s) = false)
    (Hq : buf (WriteChannel s) = q)
    (Hb : writer_clean (bw s))
    (Hc : conn_healthy (conn s))
    (Hclock : (length q < length clock)%nat),
  exists s',
    WritePacket clock s = (Parked, s') /\
    wire (conn s') = wire (conn s) ++ wire_bytes (nonnil q) /\
    buf (WriteChannel s') = [] /\
    isClose s' = false.
Proof.
  intros s q Hopen Hchan Hq Hb Hc Hclock.
  destruct (@write_loop_healthy clock s q Hopen Hchan Hq Hb Hc Hclock)
    as (s' & Hrun & Hrest).
  exists s'. split; [|exact Hrest].
  unfold WritePacket, bind. rewrite Hrun. reflexivity.
Qed.

(** [Write] on an open session with room in its open queue. *)
Lemma Write_accepts (p : PacketPtr) (s : Session) :
  isClose s = false ->
  chan_closed (WriteChannel s) = false ->
  chan_len (WriteChannel s) < cap (WriteChannel s) ->
  Write p s =
  (Ret None,
   set_WriteChannel (mkChan (buf (WriteChannel s) ++ [p]) (cap (WriteChannel s)) false) s).
Proof.
  intros Ho Hc Hlt.
  unfold Write, recovering, bind, gets, try_send, ret, chan_send. cbn [get_chan].
  rewrite Ho. cbn [negb]. rewrite Hc.
  apply Z.ltb_lt in Hlt. rewrite Hlt. reflexivity.
Qed.

(** The session after the packets [ps] were handed to [Write] one after
    the other. *)
Lemma Writes_accepted (ps : list Packet) :
  forall s,
    isClose s = false ->
    chan_closed (WriteChannel s) = false ->
    chan_len (WriteChannel s) + Z.of_nat (length ps) <= cap (WriteChannel s) ->
    fold_left (fun s p => exec (Write (Some p)) s) ps s =
    set_WriteChannel (mkChan (buf (WriteChannel s) ++ map Some ps)
                             (cap (WriteChannel s)) false) s.
Proof.
  induction ps as [|p ps IH]; intros s Ho Hc Hroom; cbn [fold_left map].
  - rewrite app_nil_r. apply session_ext; fields; try reflexivity.
    destruct (WriteChannel s) as [b c cl]. cbn [buf cap chan_closed] in *.
    subst. reflexivity.
  - cbn [length] in Hroom. unfold exec at 2.
    rewrite (@Write_accepts (Some p) s Ho Hc ltac:(lia)). cbn [snd].
    rewrite IH.
    + fields. rewrite <- app_assoc. apply session_ext; fields; reflexivity.
    + exact Ho.
    + reflexivity.
    + fields. unfold chan_len in *. cbn [buf]. rewrite length_app. cbn [length]. lia.
Qed.

(** X18.  What [Write] accepts, the write loop sends, in the order of the
    calls.  On an open, healthy session with an empty write queue, the
    packets [ps] handed to [Write] one after the other, no more than the
    queue holds, are all queued; [WritePacket] then puts the encodings of
    those that have one on the wire in the order of the [Write] calls
    and parks on the empty queue. *)
Theorem writes_reach_wire_in_order
  (ps : list Packet) (clock : list Time) (s : Session)
  (Hopen : isClose s = false)
  (Hchan : chan_closed (WriteChannel s) = false)
  (Hempty : buf (WriteChannel s) = [])
  (Hcap : Z.of_nat (length ps) <= cap (WriteChannel s))
  (Hb : writer_clean (bw s))
  (Hc : conn_healthy (conn s))
  (Hclock : (length ps < length clock)%nat) :
  buf (WriteChannel (fold_left (fun s p => exec (Write (Some p)) s) ps s))
    = map Some ps /\
  exists s',
    WritePacket clock (fold_left (fun s p => exec (Write (Some p)) s) ps s)
      = (Parked, s') /\
    wire (conn s') = wire (conn s) ++ wire_bytes ps /\
    buf (WriteChannel s') = [] /\
    isClose s' = false.
Proof.
  rewrite (@Writes_accepted ps s Hopen Hchan)
    by (unfold chan_len; rewrite Hempty; simpl; lia).
  rewrite Hempty. cbn [app]. fields. split; [reflexivity|].
  set (s1 := set_WriteChannel _ s).
  destruct (@write_loop_healthy clock s1 (map Some ps))
    as (s' & Hrun & Hwire & Hrest).
  - exact Hopen.
  - reflexivity.
  - reflexivity.
  - exact Hb.
  - exact Hc.
  - rewrite length_map. exact Hclock.
  - exists s'. split.
    + unfold WritePacket, bind. rewrite Hrun. reflexivity.
    + split; [|exact Hrest]. rewrite Hwire. f_equal. f_equal.
      clear. induction ps as [|p ps IH]; [reflexivity|].
      cbn [map nonnil flat_map app] in *. f_equal. exact IH.
Qed.

(** X19.  [Write] on a session that is not flagged closed but whose write
    queue is closed: the send panics, the deferred [recover] takes the
    panic and logs it, and [Write] returns nil although the packet was
    not queued. *)
Theorem send_on_closed_queue_is_swallowed (p : PacketPtr) (s : Session)
  (Hopen : isClose s = false)
  (Hchan : chan_closed (WriteChannel s) = true) :
  Write p s =
    (Ret None, record (EvLog LError "Session|Write|%s|recover|FAIL|%s") s) /\
  WriteChannel (exec (Write p) s) = WriteChannel s.
Proof.
  assert (E : Write p s =
              (Ret None, record (EvLog LError "Session|Write|%s|recover|FAIL|%s") s)).
  { unfold Write, recovering, bind, gets, try_send, chan_send. cbn [get_chan].
    rewrite Hopen. cbn [negb]. rewrite Hchan. reflexivity. }
  split; [exact E|]. unfold exec. rewrite E. reflexivity.
Qed.

End WriteLoop.

Section WriteRuns.

#[local] Existing Instance Fixture.packet_pkg.
#[local] Existing Instance Fixture.codec.

(** A packet the codec rejects and a packet without a body. *)
Lemma unencodable_batch_writes_nothing_witness :
  let tlv := [Fixture.packet Byte.x04 [Byte.xff]; Fixture.packet Byte.x05 []] in
  let s := Fixture.session [] [] in
  write0 tlv s = (Ret tt, record_all (drop_logs tlv) s) /\
  wire (conn (exec (write0 tlv) s)) = [] /\
  length (drop_logs tlv) = 2%nat.
Proof.
  intros tlv s.
  destruct (@unencodable_batch_writes_nothing Fixture.codec tlv s eq_refl)
    as (Hrun & _ & _ & _ & _ & Hlogs).
  split; [exact Hrun|]. unfold exec. rewrite Hrun.
  split; [reflexivity|]. apply Hlogs. repeat constructor.
Defined.


(** Two packets left in the queue of a session that was then closed. *)
Lemma closed_session_drains_queue_witness :
  let A := Fixture.packet Byte.x01 [Byte.x41] in
  let s := exec Close (Fixture.queue [Some A; Some A] (Fixture.session [] [])) in
  buf (WriteChannel s) = [Some A; Some A] /\
  fst (WritePacket [] s) = Ret tt /\
  buf (WriteChannel (exec (WritePacket []) s)) = [] /\
  wire (conn (exec (WritePacket []) s)) = [].
Proof.
  intros A s.
  destruct (@closed_session_drains_queue Fixture.codec [] s eq_refl eq_refl)
    as (Hrun & Hconn & _ & _ & Hbuf).
  split; [reflexivity|]. rewrite Hrun. split; [reflexivity|].
  split; [exact Hbuf|]. rewrite Hconn. reflexivity.
Defined.

(** Ten bytes of batch over an eight-byte buffer; the connection takes
    four bytes and then reports a short write, or a broken pipe. *)
Lemma short_write_is_retried_witness :
  let tlv := [Fixture.packet Byte.x01 [Byte.x41];
              Fixture.packet Byte.x02 [Byte.x42; Byte.x42];
              Fixture.packet Byte.x03 [Byte.x43]] in
  let s := Fixture.session [] [WFail 4 ErrShortWrite] in
  exists s',
    write0 tlv s = (Ret tt, s') /\
    wire (conn s') =
      [Byte.x01; Byte.x01; Byte.x41; Byte.x02; Byte.x02; Byte.x42; Byte.x42;
       Byte.x03; Byte.x01; Byte.x43] /\
    isClose s' = false.
Proof.
  intros tlv s.
  destruct (@short_write_is_retried Fixture.codec tlv s 4%nat [])
    as (s' & Hrun & Hwire & Hcl & _).
  - repeat split. simpl. lia.
  - reflexivity.
  - reflexivity.
  - constructor.
  - vm_compute. lia.
  - exists s'. split; [exact Hrun|]. rewrite Hwire, Hcl. split; reflexivity.
Defined.


(** A hundred and three packets in the queue: two turns, one order. *)
Lemma queue_is_written_in_order_witness :
  let A := Fixture.packet Byte.x01 [Byte.x41] in
  let B := Fixture.packet Byte.x02 [Byte.x42] in
  let q := repeat (Some A) 101 ++ [Some B; Some A] in
  let s := Fixture.queue q (Fixture.session_of 200 [] []) in
  exists s',
    WritePacket (repeat 0 104) s = (Parked, s') /\
    wire (conn s') =
      concat (repeat (encoding A) 101) ++ encoding B ++ encoding A /\
    buf (WriteChannel s') = [] /\
    isClose s' = false.
Proof.
  intros A B q s.
  destruct (@queue_is_written_in_order Fixture.codec (repeat 0 104) s q)
    as (s' & Hrun & Hwire & Hbuf & Hcl).
  - reflexivity.
  - reflexivity.
  - reflexivity.
  - repeat split. simpl. lia.
  - split; [reflexivity|constructor].
  - vm_compute. lia.
  - exists s'. split; [exact Hrun|]. split; [|split; [exact Hbuf|exact Hcl]].
    rewrite Hwire. vm_compute. reflexivity.
Defined.

End WriteRuns.

(** * Properties kept by every method *)

Section Preserved.

Variable P : Session -> Prop.
Hypothesis HP : stable P.

Lemma pres_ret {A} (a : A) : preserves P (ret a).
Proof. intros s H; exact H. Qed.

Lemma pres_bind {A B} (m : M A) (k : A -> M B) :
  preserves P m -> (forall a, preserves P (k a)) -> preserves P (bind m k).
Proof.
  intros Hm Hk s Hs. unfold bind. specialize (Hm s Hs).
  destruct (m s) as [[a| | |] s1]; cbn [snd] in *; try exact Hm.
  exact (Hk a s1 Hm).
Qed.

Lemma pres_recovering {A} (body : M A) (h : string -> M unit) (zero : A) :
  preserves P body -> (forall msg, preserves P (h msg)) ->
  preserves P (recovering body h zero).
Proof.
  intros Hb Hh s Hs. unfold recovering. specialize (Hb s Hs).
  destruct (body s) as [[a|msg| |] s1]; cbn [snd] in *; try exact Hb.
  exact (@pres_bind _ _ (h msg) (fun _ => ret zero) (Hh msg)
           (fun _ => pres_ret zero) s1 Hb).
Qed.

Lemma pres_gets {A} (f : Session -> A) : preserves P (gets f).
Proof. intros s H; exact H. Qed.

Lemma pres_stay {A} (o : Outcome A) : preserves P (fun s => (o, s)).
Proof. intros s H; exact H. Qed.

Lemma pres_log (lvl : Level) (fmt : string) : preserves P (log lvl fmt).
Proof. intros s H. apply HP. exact H. Qed.

Lemma pres_Incr (k : Counter) (d : Z) : preserves P (Incr k d).
Proof.
  intros s H. unfold Incr. destruct (FlowStat (rc s)); cbn [snd]; [|exact H].
  apply HP. apply HP. exact H.
Qed.

Lemma pres_bw_Flush : preserves P bw_Flush.
Proof.
  intros s H. unfold bw_Flush. destruct (Flush (bw s) (conn s)) as [[e b] c].
  cbn [snd]. apply HP. apply HP. apply HP. exact H.
Qed.

Lemma pres_bw_Write (p : bytes) : preserves P (bw_Write p).
Proof.
  intros s H. unfold bw_Write.
  destruct (bufio_Write _ _ _ _ _) as [[[r b] c]|]; cbn [snd]; [|exact H].
  apply HP. apply HP. exact H.
Qed.

Lemma pres_bw_Reset : preserves P bw_Reset.
Proof. intros s H. unfold bw_Reset, modify. cbn [snd]. apply HP. exact H. Qed.

Lemma pres_conn_Close : preserves P conn_Close_.
Proof.
  intros s H. unfold conn_Close_. destruct (conn_Close (conn s)) as [e c].
  cbn [snd]. apply HP. apply HP. exact H.
Qed.

Lemma pres_br_Read (m : nat) : preserves P (br_Read m).
Proof.
  intros s H. unfold br_Read. destruct (reader_Read (conn s) m) as [r c].
  cbn [snd]. apply HP. exact H.
Qed.

Lemma pres_set_chan (ch : ChanId) (c : Chan) (s : Session) :
  P s -> P (set_chan ch c s).
Proof. intros H. destruct ch; cbn [set_chan]; apply HP; exact H. Qed.

Lemma pres_close_chan (ch : ChanId) : preserves P (close_chan ch).
Proof.
  intros s H. unfold close_chan. destruct (chan_close (get_chan ch s));
    cbn [snd]; [|exact H].
  apply HP. apply pres_set_chan. exact H.
Qed.

Lemma pres_send (ch : ChanId) (p : PacketPtr) : preserves P (send ch p).
Proof.
  intros s H. unfold send. destruct (chan_send (get_chan ch s) p);
    cbn [snd]; try exact H.
  apply pres_set_chan. exact H.
Qed.

Lemma pres_try_send (ch : ChanId) (p : PacketPtr) : preserves P (try_send ch p).
Proof.
  intros s H. unfold try_send. destruct (chan_send (get_chan ch s) p);
    cbn [snd]; try exact H.
  apply pres_set_chan. exact H.
Qed.

Lemma pres_recv (ch : ChanId) : preserves P (recv ch).
Proof.
  intros s H. unfold recv. destruct (chan_recv (get_chan ch s));
    cbn [snd]; try exact H.
  apply pres_set_chan. exact H.
Qed.

Lemma pres_Close : preserves P Close.
Proof.
  unfold Close. apply pres_bind; [apply pres_gets|]. intros closed.
  apply pres_bind; [|intros; apply pres_ret].
  destruct closed; cbn [negb]; [apply pres_ret|].
  apply pres_bind; [intros s H; unfold modify; cbn [snd]; apply HP; exact H|].
  intros _.
  repeat (apply pres_bind; [|intros]);
    auto using pres_bw_Flush, pres_conn_Close, pres_close_chan, pres_Incr,
               pres_log.
Qed.

Lemma pres_Write (p : PacketPtr) : preserves P (Write p).
Proof.
  unfold Write. apply pres_recovering; [|intros; apply pres_log].
  apply pres_bind; [apply pres_gets|]. intros closed.
  apply pres_bind; [apply pres_gets|]. intros addr.
  destruct closed; cbn [negb]; [apply pres_ret|].
  apply pres_bind; [apply pres_try_send|]. intros [|]; apply pres_ret.
Qed.

Lemma pres_read0_loop (fuel : nat) :
  forall len buff idx, preserves P (read0_loop fuel len buff idx).
Proof.
  induction fuel as [|fuel IH]; intros len buff idx; cbn [read0_loop].
  - apply pres_stay.
  - apply pres_bind; [apply pres_br_Read|]. intros [chunk [e|]].
    + apply pres_bind; [apply pres_Close|]. intros _.
      apply pres_bind; [apply pres_log|intros; apply pres_ret].
    + destruct (len <=? idx + length chunk)%nat; [apply pres_ret|apply IH].
Qed.

Lemma pres_read0 (N : Z) : preserves P (read0 N).
Proof.
  unfold read0. destruct (N <? 0); [apply pres_stay|].
  apply pres_bind; [apply pres_gets|intros; apply pres_read0_loop].
Qed.

Section PreservedPipelines.

Context {pkt : PacketPkg} {frameCodec : ICodec}.

Lemma pres_ReadPacket_iter : preserves P ReadPacket_iter.
Proof.
  unfold ReadPacket_iter. apply pres_recovering; [|intros; apply pres_log].
  unfold ReadPacket_body.
  apply pres_bind; [apply pres_read0|]. intros [buff [e|]]; [apply pres_ret|].
  destruct (UnmarshalHeader buff) as [head [e|]].
  - apply pres_bind; [apply pres_Close|]. intros _.
    apply pres_bind; [apply pres_log|intros; apply pres_ret].
  - destruct (MAX_PACKET_BYTES <? BodyLen head).
    + apply pres_bind; [apply pres_log|intros; apply pres_ret].
    + apply pres_bind; [apply pres_read0|]. intros [body [e|]].
      * apply pres_bind; [apply pres_log|intros; apply pres_ret].
      * destruct (UnmarshalPacket _) as [pp [e|]].
        -- apply pres_bind; [apply pres_log|intros; apply pres_ret].
        -- apply pres_bind; [apply pres_send|]. intros _.
           apply pres_bind; [apply pres_gets|]. intros present.
           apply pres_bind; [|intros; apply pres_ret].
           destruct present; [|apply pres_ret].
           apply pres_bind; [apply pres_Incr|intros; apply pres_Incr].
Qed.

Lemma pres_ReadPacket (fuel : nat) : preserves P (ReadPacket fuel).
Proof.
  induction fuel as [|fuel IH]; cbn [ReadPacket];
    (apply pres_bind; [apply pres_gets|]); intros closed;
    (destruct closed; [apply pres_ret|]).
  - apply pres_stay.
  - apply pres_bind; [apply pres_ReadPacket_iter|].
    intros [e|]; [apply pres_ret|apply IH].
Qed.

(** The write path, for a property that the update of the timestamp does
    not disturb either. *)
Hypothesis HP_last : forall t s, P s -> P (set_lasttime t s).

Lemma pres_write0 (tlv : list Packet) : preserves P (write0 tlv).
Proof.
  unfold write0. apply pres_bind.
  { generalize (@nil byte). induction tlv as [|t tlv IH]; intros batch;
      cbn [encode_all]; [apply pres_ret|].
    destruct (MarshalPacket t) as [p err].
    destruct (is_Some err || (length p <=? 0)%nat); [|apply IH].
    apply pres_bind; [apply pres_log|intros; apply IH]. }
  intros batch.
  destruct (length batch <=? 0)%nat; [apply pres_ret|].
  apply pres_bind; [apply pres_gets|]. intros budget.
  apply pres_bind.
  { assert (Hloop : forall l tmp, preserves P (write0_loop budget batch l tmp));
      [|apply Hloop].
    induction budget as [|budget IH]; intros l tmp; cbn [write0_loop].
    - apply pres_stay.
    - apply pres_bind; [apply pres_bw_Write|]. intros [n err].
      apply pres_bind.
      + destruct err as [e|]; [|apply pres_ret].
        apply pres_bind; [apply pres_log|]. intros _.
        destruct (is_ErrShortWrite e); cbn [negb].
        * apply pres_bind; [apply pres_bw_Reset|intros; apply pres_ret].
        * apply pres_bind; [apply pres_Close|intros; apply pres_ret].
      + intros go_on. destruct go_on; [|apply pres_ret].
        destruct (l + n =? length batch)%nat; [apply pres_ret|].
        destruct (length batch <? l + n)%nat; [apply pres_stay|apply IH]. }
  intros finished. destruct finished; [|apply pres_ret].
  apply pres_bind; [apply pres_bw_Flush|]. intros _.
  apply pres_bind; [apply pres_gets|]. intros present.
  destruct present; [|apply pres_ret].
  apply pres_bind; [apply pres_Incr|intros; apply pres_Incr].
Qed.

Lemma pres_WritePacket_iter (now : Time) (packets : list Packet) :
  preserves P (WritePacket_iter now packets).
Proof.
  unfold WritePacket_iter.
  apply pres_bind; [apply pres_recv|]. intros r.
  apply pres_bind; [apply pres_gets|]. intros n.
  apply pres_bind.
  { generalize (append_packet packets (fst r)).
    induction (Z.to_nat (Z.min n 100)) as [|l IH]; intros ps; cbn [take_more];
      [apply pres_ret|].
    apply pres_bind; [apply pres_recv|intros; apply IH]. }
  intros ps.
  destruct (0 <? length ps)%nat; [|apply pres_ret].
  apply pres_bind; [apply pres_write0|]. intros _.
  apply pres_bind; [|intros; apply pres_ret].
  intros s H. unfold modify. cbn [snd]. apply HP_last. exact H.
Qed.

Lemma pres_discard_left (fuel : nat) : preserves P (discard_left fuel).
Proof.
  induction fuel as [|fuel IH]; cbn [discard_left].
  - apply pres_stay.
  - apply pres_bind; [apply pres_recv|]. intros [p [|]]; [apply IH|apply pres_ret].
Qed.

Lemma pres_WritePacket (clock : list Time) : preserves P (WritePacket clock).
Proof.
  unfold WritePacket. apply pres_bind.
  - generalize (@nil Packet). induction clock as [|now clock IH];
      intros packets; cbn [WritePacket_loop];
      (apply pres_bind; [apply pres_gets|]); intros closed;
      (destruct closed; [apply pres_ret|]).
    + apply pres_stay.
    + apply pres_bind; [apply pres_WritePacket_iter|intros; apply IH].
  - intros _. apply pres_bind; [apply pres_gets|intros; apply pres_discard_left].
Qed.

End PreservedPipelines.

End Preserved.

(** * Sessions under any sequence of calls *)

Lemma stable_settings (r : RemotingConfig) : stable (fun s => settings s = r).
Proof. repeat split; intros; assumption. Qed.

Lemma stable_idle_state (t : Time) (r : RemotingConfig) : stable (idle_state t r).
Proof.
  unfold stable, idle_state.
  repeat split; intros;
    match goal with H : _ /\ _ |- _ => destruct H; assumption end.
Qed.

Lemma idle_state_Idle (now : Time) (s s' : Session) :
  idle_state (lasttime s) (settings s) s' -> Idle now s' = Idle now s.
Proof.
  intros [Hl Hs]. unfold Idle. rewrite Hl.
  change (IdleTime (rc s')) with (IdleTime (settings s')). rewrite Hs.
  reflexivity.
Qed.

Section AnyCalls.

Context {pkt : PacketPkg} {frameCodec : ICodec}.

Lemma run_call_ok (c : Call) (s : Session) : session_ok s -> session_ok (run_call c s).
Proof.
  destruct c; cbn [run_call]; unfold exec.
  - apply ok_Write.
  - apply ok_Close.
  - apply ok_ReadPacket.
  - apply ok_WritePacket.
Qed.

Lemma run_call_settings (c : Call) (s : Session) :
  settings (run_call c s) = settings s.
Proof.
  pose proof (stable_settings (settings s)) as HP.
  destruct c; cbn [run_call]; unfold exec.
  - exact (pres_Write HP p s eq_refl).
  - exact (pres_Close HP s eq_refl).
  - exact (pres_ReadPacket HP fuel s eq_refl).
  - exact (pres_WritePacket HP (fun _ _ H => H) clock s eq_refl).
Qed.

(** X15.  From [NewSession] on, whatever methods are called and in
    whatever order, the session stays regular: its statistics sink is
    there, its queues are open as long as it is open, and its settings,
    the idle threshold among them, are those it was built with. *)
Theorem session_stays_regular
  (c : TCPConn) (cfg : RemotingConfig) (s : Session) (calls : list Call)
  (Hnew : NewSession c cfg = Ret s) :
  session_ok (run_calls calls s) /\
  settings (run_calls calls s) = settings s /\
  IdleTime (rc (run_calls calls s)) = IdleTime cfg.
Proof.
  pose proof (NewSession_ok _ _ Hnew) as Hok.
  destruct (NewSession_fields _ _ Hnew) as (_ & Hidle & _).
  assert (H : session_ok (run_calls calls s) /\
              settings (run_calls calls s) = settings s).
  { clear Hnew Hidle. revert s Hok. unfold run_calls.
    induction calls as [|call calls IH]; intros s Hok; cbn [fold_left].
    - split; [exact Hok|reflexivity].
    - destruct (IH (run_call call s) (run_call_ok call Hok)) as [H1 H2].
      split; [exact H1|]. rewrite H2. apply run_call_settings. }
  destruct H as [H1 H2]. split; [exact H1|]. split; [exact H2|].
  change (IdleTime (rc (run_calls calls s)))
    with (IdleTime (settings (run_calls calls s))).
  rewrite H2. exact Hidle.
Qed.

Lemma discard_left_closed_as (s0 : Session) (fuel : nat) :
  forall s, closed_as s0 s ->
            closed_as s0 (snd (discard_left fuel s)) /\
            (length (buf (WriteChannel (snd (discard_left fuel s))))
             <= length (buf (WriteChannel s)))%nat.
Proof.
  induction fuel as [|fuel IH]; intros s Hs; cbn [discard_left].
  - split; [exact Hs|]. cbn [snd spin]. lia.
  - unfold bind, recv, chan_recv. cbn [get_chan].
    destruct (buf (WriteChannel s)) as [|p rest] eqn:Hbuf.
    + destruct (chan_closed (WriteChannel s)) eqn:Hc; cbv beta iota;
        cbn [snd set_chan].
      * unfold ret. cbn [snd]. fields. rewrite Hbuf.
        split; [|cbn [buf length]; lia].
        destruct Hs as (H1 & H2 & H3 & H4 & H5 & H6 & H7 & H8 & H9).
        repeat split; assumption.
      * split; [exact Hs|]. rewrite Hbuf. lia.
    + cbv beta iota. cbn [snd set_chan].
      set (s1 := set_WriteChannel _ s).
      assert (Hs1 : closed_as s0 s1).
      { destruct Hs as (H1 & H2 & H3 & H4 & H5 & H6 & H7 & H8 & H9).
        repeat split; assumption. }
      destruct (IH s1 Hs1) as [Ha Hb].
      destruct (discard_left fuel s1) as [[u| | |] s2]; cbn [snd] in *;
        (split; [exact Ha|]); unfold s1 in Hb; cbn [WriteChannel set_WriteChannel buf] in Hb;
        cbn [length]; lia.
Qed.

Lemma run_call_closed (s0 : Session) (c : Call) (s : Session) :
  closed_as s0 s ->
  closed_as s0 (run_call c s) /\
  (length (buf (WriteChannel (run_call c s))) <= length (buf (WriteChannel s)))%nat.
Proof.
  intros Hs. pose proof Hs as (Hcl & _).
  destruct c; cbn [run_call]; unfold exec.
  - assert (E : Write p s = (Ret (Some (closed_error (remoteAddr s))), s))
      by (unfold Write, recovering, bind, gets, ret; rewrite Hcl; reflexivity).
    rewrite E. split; [exact Hs|cbn [snd]; lia].
  - rewrite (Close_when_closed s Hcl). split; [exact Hs|cbn [snd]; lia].
  - assert (E : ReadPacket fuel s = (Ret tt, s))
      by (destruct fuel; cbn [ReadPacket]; unfold bind, gets, ret;
          rewrite Hcl; reflexivity).
    rewrite E. split; [exact Hs|cbn [snd]; lia].
  - assert (E : WritePacket_loop clock [] s = (Ret tt, s))
      by (destruct clock; cbn [WritePacket_loop]; unfold bind, gets, ret;
          rewrite Hcl; reflexivity).
    assert (E2 : WritePacket clock s =
                 discard_left (S (length (buf (WriteChannel s)))) s).
    { unfold WritePacket. unfold bind at 1. rewrite E. cbv beta iota.
      unfold bind at 1, gets. reflexivity. }
    rewrite E2. apply discard_left_closed_as. exact Hs.
Qed.

(** X16.  A closed session stays closed and silent.  Whatever methods are
    called on it afterwards, in whatever order, the flag stays set and
    connection, writer, counters, timestamp, read queue and journal are
    untouched: no byte is read or written, nothing is counted or logged.
    Only the write queue changes, and it only gets shorter. *)
Theorem closed_session_is_silent (s : Session) (calls : list Call)
  (Hclosed : isClose s = true) :
  isClose (run_calls calls s) = true /\
  conn (run_calls calls s) = conn s /\
  bw (run_calls calls s) = bw s /\
  rc (run_calls calls s) = rc s /\
  lasttime (run_calls calls s) = lasttime s /\
  ReadChannel (run_calls calls s) = ReadChannel s /\
  journal (run_calls calls s) = journal s /\
  (length (buf (WriteChannel (run_calls calls s)))
   <= length (buf (WriteChannel s)))%nat.
Proof.
  assert (H : forall t, closed_as s t ->
              closed_as s (run_calls calls t) /\
              (length (buf (WriteChannel (run_calls calls t)))
               <= length (buf (WriteChannel t)))%nat).
  { unfold run_calls. induction calls as [|call calls IH]; intros t Ht;
      cbn [fold_left].
    - split; [exact Ht|lia].
    - destruct (run_call_closed call Ht) as [H1 H2].
      destruct (IH _ H1) as [H3 H4]. split; [exact H3|lia]. }
  destruct (H s) as [(H1 & H2 & H3 & H4 & H5 & H6 & H7 & _) Hlen].
  { repeat split. exact Hclosed. }
  repeat split; assumption.
Qed.

(** X17.  Only the write loop refreshes the last-activity timestamp:
    whatever [ReadPacket], [Write] or [Close] do to a session, [Idle]
    answers afterwards what it answered before.  Packets that come in,
    and packets that are only queued, do not make a session less idle. *)
Theorem reads_do_not_refresh_idle
  (now : Time) (s : Session) (fuel : nat) (p : PacketPtr) :
  Idle now (exec (ReadPacket fuel) s) = Idle now s /\
  Idle now (exec (Write p) s) = Idle now s /\
  Idle now (exec Close s) = Idle now s.
Proof.
  pose proof (stable_idle_state (lasttime s) (settings s)) as HP.
  assert (Hs : idle_state (lasttime s) (settings s) s) by (split; reflexivity).
  unfold exec. split; [|split]; apply idle_state_Idle.
  - exact (pres_ReadPacket HP fuel s Hs).
  - exact (pres_Write HP p s Hs).
  - exact (pres_Close HP s Hs).
Qed.

End AnyCalls.

(** * A session from [NewSession] to [Close] *)

(** X20.  [NewSession] and [Close] balance the connection counter: the
    session comes up open with the counter one higher than the sink had
    it, and its first [Close] returns nil with the counter back at that
    value, the connection closed, nothing written to the wire, and the
    journal holding the increment followed by one teardown. *)
Theorem open_then_close_restores_counter
  (c : TCPConn) (cfg : RemotingConfig) (s : Session) (f : RemotingFlow)
  (Hnew : NewSession c cfg = Ret s)
  (Hf : FlowStat cfg = Some f) :
  isClose s = false /\
  connections s = Some (Connections f + 1) /\
  exists s',
    Close s = (Ret None, s') /\
    connections s' = Some (Connections f) /\
    isClose s' = true /\
    conn_closed (conn s') = true /\
    wire (conn s') = wire c /\
    journal s' = EvIncr CConnections 1 :: teardown.
Proof.
  unfold NewSession, make_chan, Incr in Hnew.
  destruct (ReadChannelSize cfg <? 0); [discriminate|].
  destruct (WriteChannelSize cfg <? 0); [discriminate|].
  cbn [rc] in Hnew. rewrite Hf in Hnew.
  inversion Hnew; subst s; clear Hnew.
  split; [reflexivity|]. split; [reflexivity|].
  eexists. split.
  - apply (@Close_open _ (flow_Incr f CConnections 1)); reflexivity.
  - fields. unfold connections. fields. cbn [option_map flow_Incr Connections].
    unfold Flush, NewWriterSize. cbn [werr wbuf snd fst].
    unfold conn_Close, conn_setsockopt. fields.
    split; [f_equal; lia|]. split; [reflexivity|].
    destruct (conn_closed c) eqn:E; cbn [snd conn_closed wire];
      repeat split; try reflexivity; exact E.
Qed.

Section LifecycleRuns.

#[local] Existing Instance Fixture.packet_pkg.
#[local] Existing Instance Fixture.codec.

Lemma open_then_close_restores_counter_witness :
  let s := Fixture.session [] [] in
  connections s = Some 1 /\
  exists s',
    Close s = (Ret None, s') /\
    connections s' = Some 0 /\
    isClose s' = true /\
    journal s' = EvIncr CConnections 1 :: teardown.
Proof.
  intros s.
  destruct (@open_then_close_restores_counter (Fixture.peer [] [])
              (Fixture.config (Some Fixture.flow0)) s Fixture.flow0
              eq_refl eq_refl)
    as (_ & Hn & s' & Hrun & Hn' & Hc & _ & _ & Hj).
  split; [exact Hn|]. exists s'. split; [exact Hrun|].
  split; [exact Hn'|]. split; [exact Hc|exact Hj].
Defined.

(** A fresh session after a queued packet, a read of a rejected body, a
    turn of writes and a close. *)
Lemma session_stays_regular_witness :
  let s := Fixture.session [RData [Byte.x01; Byte.x01; Byte.xff]] [] in
  let calls := [CallWrite (Some (Fixture.packet Byte.x01 [Byte.x41]));
                CallReadPacket 3; CallWritePacket [5; 6]; CallClose] in
  session_ok (run_calls calls s) /\
  IdleTime (rc (run_calls calls s)) = 1000000000.
Proof.
  intros s calls.
  destruct (@session_stays_regular Fixture.packet_pkg Fixture.codec
              (Fixture.peer [RData [Byte.x01; Byte.x01; Byte.xff]] [])
              (Fixture.config (Some Fixture.flow0)) s calls eq_refl)
    as (Hok & _ & Hidle).
  split; [exact Hok|exact Hidle].
Defined.

(** A closed session with a packet left in its queue, used further. *)
Lemma closed_session_is_silent_witness :
  let A := Some (Fixture.packet Byte.x01 [Byte.x41]) in
  let s := exec Close
             (Fixture.queue [A] (Fixture.session [RData [Byte.x01; Byte.x01; Byte.x41]] [])) in
  let calls := [CallWrite A; CallReadPacket 3; CallWritePacket [5]; CallClose] in
  isClose (run_calls calls s) = true /\
  conn (run_calls calls s) = conn s /\
  journal (run_calls calls s) = journal s /\
  buf (WriteChannel (run_calls calls s)) = [].
Proof.
  intros A s calls.
  destruct (@closed_session_is_silent Fixture.packet_pkg Fixture.codec s calls eq_refl)
    as (Hc & Hconn & _ & _ & _ & _ & Hj & _).
  split; [exact Hc|]. split; [exact Hconn|]. split; [exact Hj|].
  vm_compute. reflexivity.
Defined.

(** Three packets handed to [Write] and then written. *)
Lemma writes_reach_wire_in_order_witness :
  let A := Fixture.packet Byte.x01 [Byte.x41] in
  let B := Fixture.packet Byte.x02 [Byte.x42] in
  let s := Fixture.session_of 4 [] [] in
  exists s',
    WritePacket [1; 2; 3; 4]
      (fold_left (fun s p => exec (Write (Some p)) s) [A; B; A] s) = (Parked, s') /\
    wire (conn s') = encoding A ++ encoding B ++ encoding A.
Proof.
  intros A B s.
  destruct (@writes_reach_wire_in_order Fixture.codec [A; B; A] [1; 2; 3; 4] s)
    as (_ & s' & Hrun & Hwire & _).
  - reflexivity.
  - reflexivity.
  - reflexivity.
  - vm_compute. discriminate.
  - repeat split. simpl. lia.
  - split; [reflexivity|constructor].
  - simpl. lia.
  - exists s'. split; [exact Hrun|]. rewrite Hwire. reflexivity.
Defined.

(** An open session whose write queue was closed behind its back. *)
Lemma send_on_closed_queue_is_swallowed_witness :
  let s := set_WriteChannel (mkChan [] 2 true) (Fixture.session [] []) in
  fst (Write (Some (Fixture.packet Byte.x01 [Byte.x41])) s) = Ret None /\
  buf (WriteChannel (exec (Write (Some (Fixture.packet Byte.x01 [Byte.x41]))) s)) = [].
Proof.
  intros s.
  destruct (@send_on_closed_queue_is_swallowed
              (Some (Fixture.packet Byte.x01 [Byte.x41])) s eq_refl eq_refl)
    as [Hrun Hch].
  rewrite Hrun, Hch. split; reflexivity.
Defined.

End LifecycleRuns.
